(** * retronew/bytes: byte counts <-> human readable sizes

    A shallow embedding of [src/index.ts] and [src/utils.ts] (and of the
    logarithm based [resolveUnit] of the second utility module), together
    with the part of the ECMAScript runtime these files rely on:
    binary64 numbers, strings, property lookup on plain objects, the three
    regular expressions and the number <-> string conversions.

    Conventions.
    - A JavaScript [number] is a [spec_float] at precision 53 and maximal
      exponent 1024 (IEEE 754 binary64), with the operations of the
      Standard Library's [SpecFloat].
    - A JavaScript string is a [string]; the embedding is exact on strings
      of ASCII code units (case mapping and white space are the ASCII ones).
    - [null] is [None]; a thrown exception is the [Throw] completion. *)

From Stdlib Require Import ZArith QArith Qround Qpower Lia Bool List.
From Stdlib Require Import Ascii String DecimalString.
From Stdlib Require Import Floats.SpecFloat.
Import ListNotations.

Local Open Scope list_scope.
Local Open Scope string_scope.

(* ================================================================== *)
(** ** Strings *)

Module JsString.

Definition code (c : ascii) : nat := nat_of_ascii c.

Definition is_upper (c : ascii) : bool :=
  ((65 <=? code c) && (code c <=? 90))%nat.

Definition is_lower (c : ascii) : bool :=
  ((97 <=? code c) && (code c <=? 122))%nat.

Definition is_digit (c : ascii) : bool :=
  ((48 <=? code c) && (code c <=? 57))%nat.

(** White space and line terminators ([\s], [trim]): TAB, LF, VT, FF,
    CR and SPACE. *)
Definition is_space (c : ascii) : bool :=
  (((9 <=? code c) && (code c <=? 13)) || (code c =? 32))%nat.

Definition lower_char (c : ascii) : ascii :=
  if is_upper c then ascii_of_nat (code c + 32) else c.

Definition upper_char (c : ascii) : ascii :=
  if is_lower c then ascii_of_nat (code c - 32) else c.

Fixpoint map_chars (f : ascii -> ascii) (s : string) : string :=
  match s with
  | EmptyString => EmptyString
  | String c s' => String (f c) (map_chars f s')
  end.

Definition toLowerCase : string -> string := map_chars lower_char.
Definition toUpperCase : string -> string := map_chars upper_char.

Fixpoint trimStart (s : string) : string :=
  match s with
  | String c s' => if is_space c then trimStart s' else s
  | EmptyString => EmptyString
  end.

(** [trimEnd] keeps a character when it is not white space or when
    something is left after it. *)
Fixpoint trimEnd (s : string) : string :=
  match s with
  | EmptyString => EmptyString
  | String c s' =>
      match trimEnd s' with
      | EmptyString => if is_space c then EmptyString else String c EmptyString
      | t => String c t
      end
  end.

Definition trim (s : string) : string := trimEnd (trimStart s).

Fixpoint repeat_char (c : ascii) (n : nat) : string :=
  match n with
  | O => EmptyString
  | S n' => String c (repeat_char c n')
  end.

Fixpoint take (n : nat) (s : string) : string :=
  match n, s with
  | S n', String c s' => String c (take n' s')
  | _, _ => EmptyString
  end.

Fixpoint drop (n : nat) (s : string) : string :=
  match n, s with
  | S n', String _ s' => drop n' s'
  | _, _ => s
  end.

(** The one character string made of a double quote. *)
Definition quote : string := String "034"%char EmptyString.

(** Truthiness of a string: the empty string is falsy. *)
Definition truthy (s : string) : bool :=
  match s with EmptyString => false | _ => true end.

End JsString.

(* ================================================================== *)
(** ** Completions *)

Inductive error : Type :=
| RangeError (message : string)
| TypeError (message : string).

Inductive completion (A : Type) : Type :=
| Normal (a : A)
| Throw (e : error).

Arguments Normal {A} a.
Arguments Throw {A} e.

Definition bind {A B : Type} (c : completion A) (k : A -> completion B)
  : completion B :=
  match c with
  | Normal a => k a
  | Throw e => Throw e
  end.

Notation "x <- c ;; k" := (bind c (fun x => k))
  (at level 61, c at next level, right associativity).

(* ================================================================== *)
(** ** Numbers: IEEE 754 binary64 *)

Module JsNumber.

Local Open Scope Z_scope.

Definition number : Type := spec_float.

Definition prec : Z := 53.
Definition emax : Z := 1024.

Definition NaN : number := S754_nan.
Definition Infinity : number := S754_infinity false.

(** [Number.isFinite] *)
Definition isFinite (x : number) : bool :=
  match x with
  | S754_zero _ | S754_finite _ _ _ => true
  | S754_infinity _ | S754_nan => false
  end.

Definition abs : number -> number := SFabs.
Definition mul : number -> number -> number := SFmul prec emax.
Definition div : number -> number -> number := SFdiv prec emax.

(** [x < y] and [x >= y]; both are false when an operand is NaN. *)
Definition lt (x y : number) : bool := SFltb x y.
Definition ge (x y : number) : bool := SFleb y x.

Definition eqb (x y : number) : bool :=
  match x, y with
  | S754_zero a, S754_zero b => Bool.eqb a b
  | S754_infinity a, S754_infinity b => Bool.eqb a b
  | S754_nan, S754_nan => true
  | S754_finite a m e, S754_finite b m' e' =>
      Bool.eqb a b && Pos.eqb m m' && Z.eqb e e'
  | _, _ => false
  end.

(** The number nearest to the integer [n] (exact up to 2^53). *)
Definition of_Z (n : Z) : number := binary_normalize prec emax n 0 false.

(** The number nearest to [n / d], ties to even, for [0 <= n], [0 < d]. *)
Definition of_ratio (neg : bool) (n d : Z) : number :=
  if n =? 0 then S754_zero neg
  else
    let '(q, e, l) := SFdiv_core_binary prec emax n 0 d 0 in
    binary_round_aux prec emax neg q e l.

(** The fraction [n * 2^e]. *)
Definition dyadic (n e : Z) : Q :=
  if 0 <=? e then inject_Z (n * 2 ^ e)
  else Qmake n (Z.to_pos (2 ^ (- e))).

(** The exact value of a finite number, as a fraction. *)
Definition exact (x : number) : option Q :=
  match x with
  | S754_zero _ => Some 0%Q
  | S754_finite s m e => Some (dyadic (cond_Zopp s (Zpos m)) e)
  | _ => None
  end.

(** [x] is finite and its value is [q]. *)
Definition represents (x : number) (q : Q) : Prop :=
  match exact x with
  | Some q' => (q' == q)%Q
  | None => False
  end.

(** A well formed binary64 number: the mantissa is normalised for its
    exponent and the exponent is in range. *)
Definition well_formed (x : number) : Prop := valid_binary prec emax x = true.

(** The exponent of the format for a value of magnitude [2^x]. *)
Definition fexp64 (x : Z) : Z := Z.max (x - 53) (-1074).

(** The mantissa of an integer of at most 53 bits, shifted to 53 bits. *)
Definition aligned (n : Z) : positive :=
  Z.to_pos (Z.abs n * 2 ^ (53 - Zdigits2 n)).

(** The number of low zero bits that the product of [m * 2^e] with
    [1024^power] sheds when it is rounded. *)
Definition shed (m : positive) (e : Z) (power : nat) : Z :=
  fexp64 (Zdigits2 (Zpos m) + e + 10 * Z.of_nat power)
  - e - 10 * Z.of_nat power + 52.

(** [Math.floor]: the greatest integral number not above [x]. *)
Definition floor (x : number) : number :=
  match x with
  | S754_finite s m e =>
      if 0 <=? e then x
      else
        let n := cond_Zopp s (Zpos m) / 2 ^ (- e) in
        if n =? 0 then S754_zero false else of_Z n
  | _ => x
  end.

(** [base ** power] for the powers of 1024 of the unit tables. *)
Definition pow1024 (power : nat) : number := of_Z (1024 ^ Z.of_nat power).

(* ---------------------------------------------------------------- *)
(** *** Number to string *)

Definition digits_of (n : Z) : string :=
  NilZero.string_of_uint (N.to_uint (Z.to_N n)).

(** A positive finite number [m * 2^e] as a fraction of integers. *)
Definition fraction (m : positive) (e : Z) : Z * Z :=
  if 0 <=? e then (Zpos m * 2 ^ e, 1) else (Zpos m, 2 ^ (- e)).

(** [scale10 (a, b) j] is the fraction [a / b * 10^j]. *)
Definition scale10 (x : Z * Z) (j : Z) : Z * Z :=
  let '(a, b) := x in
  if 0 <=? j then (a * 10 ^ j, b) else (a, b * 10 ^ (- j)).

(** The least [n], counting up from [n], with [a / b < 10^n]. *)
Fixpoint decimal_exponent_from (fuel : nat) (x : Z * Z) (n : Z) : Z :=
  match fuel with
  | O => n
  | S fuel' =>
      let '(a, b) := scale10 x (- n) in
      if a <? b then n else decimal_exponent_from fuel' x (n + 1)
  end.

(** The [n] with [10^(n-1) <= a / b < 10^n], for a binary64 value. *)
Definition decimal_exponent (x : Z * Z) : Z :=
  decimal_exponent_from 700 x (-330).

(** Does the decimal [s * 10^j] denote the number [x]? *)
Definition denotes (s j : Z) (x : number) : bool :=
  let '(a, b) := scale10 (s, 1) j in eqb (of_ratio false a b) x.

(** The [k]-digit significand for exponent [n] that denotes [x] and is
    nearest to it (the even one of two equally near), if there is one. *)
Definition significand (x : number) (v : Z * Z) (n k : Z) : option Z :=
  let '(a, b) := scale10 v (k - n) in
  let lo := a / b in
  let hi := lo + 1 in
  let ok s := (10 ^ (k - 1) <=? s) && (s <? 10 ^ k) && denotes s (n - k) x in
  match ok lo, ok hi with
  | true, true =>
      match 2 * a ?= (2 * lo + 1) * b with
      | Lt => Some lo
      | Gt => Some hi
      | Eq => Some (if Z.even lo then lo else hi)
      end
  | true, false => Some lo
  | false, true => Some hi
  | false, false => None
  end.

(** The shortest significand: [(n, k, s)] with [k] least. *)
Fixpoint shortest (fuel : nat) (x : number) (v : Z * Z) (n k : Z)
  : Z * Z * Z :=
  match fuel with
  | O => (n, k, fst (scale10 v (k - n)) / snd (scale10 v (k - n)))
  | S fuel' =>
      match significand x v n k with
      | Some s => (n, k, s)
      | None => shortest fuel' x v n (k + 1)
      end
  end.

Definition nks (x : number) (m : positive) (e : Z) : Z * Z * Z :=
  let v := fraction m e in
  let n := decimal_exponent v in
  if denotes 1 n x then (n + 1, 1, 1) else shortest 17 x v n 1.

Definition exponent_text (n : Z) : string :=
  (if 0 <=? n - 1 then "+" else "-") ++ digits_of (Z.abs (n - 1)).

(** [Number::toString] in radix 10 of a positive finite number. *)
Definition positive_toString (x : number) (m : positive) (e : Z) : string :=
  let '(n, k, s) := nks x m e in
  let d := digits_of s in
  if (k <=? n) && (n <=? 21) then
    d ++ JsString.repeat_char "0" (Z.to_nat (n - k))
  else if (0 <? n) && (n <=? 21) then
    JsString.take (Z.to_nat n) d ++ "." ++ JsString.drop (Z.to_nat n) d
  else if (-6 <? n) && (n <=? 0) then
    "0." ++ JsString.repeat_char "0" (Z.to_nat (- n)) ++ d
  else if k =? 1 then
    d ++ "e" ++ exponent_text n
  else
    JsString.take 1 d ++ "." ++ JsString.drop 1 d ++ "e" ++ exponent_text n.

(** [String(x)] *)
Definition toString (x : number) : string :=
  match x with
  | S754_nan => "NaN"
  | S754_zero _ => "0"
  | S754_infinity false => "Infinity"
  | S754_infinity true => "-Infinity"
  | S754_finite s m e =>
      (if s then "-" else "") ++ positive_toString (S754_finite false m e) m e
  end.

(** [ToIntegerOrInfinity]: [None] stands for an infinite result. *)
Definition toIntegerOrInfinity (x : number) : option Z :=
  match x with
  | S754_nan | S754_zero _ => Some 0
  | S754_infinity _ => None
  | S754_finite s m e =>
      Some (if 0 <=? e then cond_Zopp s (Zpos m * 2 ^ e)
            else cond_Zopp s (Zpos m / 2 ^ (- e)))
  end.

(** [Number.prototype.toFixed] *)
Definition toFixed (x fractionDigits : number) : completion string :=
  match toIntegerOrInfinity fractionDigits with
  | None => Throw (RangeError "toFixed() digits argument must be between 0 and 100")
  | Some f =>
      if (f <? 0) || (100 <? f) then
        Throw (RangeError "toFixed() digits argument must be between 0 and 100")
      else
        match x with
        | S754_finite s m e =>
            let '(a, b) := fraction m e in
            let sign := if s then "-" else "" in
            if 10 ^ 21 * b <=? a then
              Normal (sign ++ toString (S754_finite false m e))
            else
              let n := (2 * a * 10 ^ f + b) / (2 * b) in
              let d := digits_of n in
              let d := JsString.repeat_char "0"
                         (Z.to_nat f + 1 - String.length d) ++ d in
              let k := String.length d in
              Normal (sign ++
                      if f =? 0 then d
                      else JsString.take (k - Z.to_nat f) d ++ "." ++
                           JsString.drop (k - Z.to_nat f) d)
        | S754_zero _ =>
            Normal (if f =? 0 then "0"
                    else "0." ++ JsString.repeat_char "0" (Z.to_nat f))
        | _ => Normal (toString x)
        end
  end.

(* ---------------------------------------------------------------- *)
(** *** String to number *)

(** The longest prefix of decimal digits, and what follows it. *)
Fixpoint digits_span (s : string) : string * string :=
  match s with
  | String c s' =>
      if JsString.is_digit c
      then let '(d, r) := digits_span s' in (String c d, r)
      else (EmptyString, s)
  | EmptyString => (EmptyString, EmptyString)
  end.

Fixpoint digits_value (acc : Z) (d : string) : Z :=
  match d with
  | String c d' =>
      digits_value (10 * acc + Z.of_nat (JsString.code c - 48)) d'
  | EmptyString => acc
  end.

(** [ExponentPart]: [e] or [E], an optional sign and at least one digit.
    Returns the exponent and what follows it; the exponent is 0 and
    nothing is consumed when the input does not continue with one. *)
Definition exponent_part (s : string) : Z * string :=
  match s with
  | String c r =>
      if (Ascii.eqb c "e" || Ascii.eqb c "E")%bool then
        let '(neg, r') :=
          match r with
          | String "-" t => (true, t)
          | String "+" t => (false, t)
          | _ => (false, r)
          end in
        match digits_span r' with
        | (EmptyString, _) => (0, s)
        | (d, rest) => (cond_Zopp neg (digits_value 0 d), rest)
        end
      else (0, s)
  | EmptyString => (0, s)
  end.

(** A [StrDecimalLiteral]: [Infinity], or the digits of the mantissa
    with the power of ten they are scaled by. *)
Inductive literal : Type :=
| LInfinity (neg : bool)
| LDecimal (neg : bool) (digits : string) (exponent : Z).

(** The longest prefix that is a [StrDecimalLiteral], with what follows
    it; [None] when no prefix is one. *)
Definition str_decimal_literal (t : string) : option (literal * string) :=
  let '(neg, t) :=
    match t with
    | String "-" r => (true, r)
    | String "+" r => (false, r)
    | _ => (false, t)
    end in
  if String.prefix "Infinity" t
  then Some (LInfinity neg, JsString.drop 8 t)
  else
    let '(ip, r1) := digits_span t in
    let '(fp, r2) :=
      match r1 with
      | String "." r => digits_span r
      | _ => (EmptyString, r1)
      end in
    match ip ++ fp with
    | EmptyString => None
    | d =>
        let '(ex, rest) := exponent_part r2 in
        Some (LDecimal neg d (ex - Z.of_nat (String.length fp)), rest)
    end.

(** The number a literal denotes: its decimal value rounded to the
    nearest number. *)
Definition literal_value (l : literal) : number :=
  match l with
  | LInfinity neg => S754_infinity neg
  | LDecimal neg d ex =>
      let '(a, b) := scale10 (digits_value 0 d, 1) ex in
      of_ratio neg a b
  end.

(** [Number.parseFloat]: the value of the longest prefix of the input,
    leading white space apart, that is a [StrDecimalLiteral]; NaN when
    there is none. *)
Definition parseFloat (input : string) : number :=
  match str_decimal_literal (JsString.trimStart input) with
  | Some (l, _) => literal_value l
  | None => NaN
  end.

End JsNumber.

(* ================================================================== *)
(** ** Regular expressions

    A backtracking matcher for the fragment of the ECMAScript pattern
    language that the three patterns of [utils.ts] use: greedy
    quantifiers, alternation, capture groups, [^], [$], [\B] and the two
    lookaheads. *)

Module Regex.

Inductive regex : Type :=
| Empty
| Lit (c : ascii)
| Class (p : ascii -> bool)
| Seq (r1 r2 : regex)
| Alt (r1 r2 : regex)
| Star (r : regex)
| Group (i : nat) (r : regex)
| Bol
| Eol
| NotWordBoundary
| Ahead (r : regex)
| NotAhead (r : regex).

Definition Plus (r : regex) : regex := Seq r (Star r).
Definition Opt (r : regex) : regex := Alt r Empty.

Fixpoint Word (w : string) : regex :=
  match w with
  | EmptyString => Empty
  | String c w' => Seq (Lit c) (Word w')
  end.

Fixpoint Times (n : nat) (r : regex) : regex :=
  match n with
  | O => Empty
  | S n' => Seq r (Times n' r)
  end.

(** A position in the subject: the text before it (latest character
    first), the text after it, and the captures made so far (latest
    first). *)
Record state : Type := mkState {
  before : string;
  after : string;
  caps : list (nat * string)
}.

Definition is_word (c : ascii) : bool :=
  (JsString.is_digit c || JsString.is_upper c || JsString.is_lower c
   || Ascii.eqb c "_")%bool.

Definition word_at (s : string) : bool :=
  match s with String c _ => is_word c | EmptyString => false end.

(** With the [i] flag two characters match when they have the same
    upper case form. *)
Definition same (icase : bool) (c d : ascii) : bool :=
  if icase then Ascii.eqb (JsString.upper_char c) (JsString.upper_char d)
  else Ascii.eqb c d.

Definition step (st : state) : option (ascii * state) :=
  match after st with
  | String c rest => Some (c, mkState (String c (before st)) rest (caps st))
  | EmptyString => None
  end.

Definition consumed (st st' : state) : string :=
  JsString.take (String.length (after st) - String.length (after st'))
                (after st).

(** The loop of a greedy star: at most [n] more iterations of [body],
    each of which has to consume a character, before the continuation
    [k] is tried; [n] starts above the length of what is left of the
    subject. *)
Fixpoint star_loop (body : state -> (state -> option state) -> option state)
                   (k : state -> option state) (n : nat) (st : state)
  : option state :=
  match n with
  | O => k st
  | S n' =>
      match body st
              (fun st' =>
                 if (String.length (after st') <? String.length (after st))%nat
                 then star_loop body k n' st' else None) with
      | Some st' => Some st'
      | None => k st
      end
  end.

Fixpoint run (icase : bool) (r : regex) (st : state)
             (k : state -> option state) {struct r} : option state :=
  match r with
  | Empty => k st
  | Lit c =>
      match step st with
      | Some (d, st') => if same icase c d then k st' else None
      | None => None
      end
  | Class p =>
      match step st with
      | Some (d, st') => if p d then k st' else None
      | None => None
      end
  | Seq r1 r2 => run icase r1 st (fun st' => run icase r2 st' k)
  | Alt r1 r2 =>
      match run icase r1 st k with
      | Some st' => Some st'
      | None => run icase r2 st k
      end
  | Star r1 => star_loop (run icase r1) k (S (String.length (after st))) st
  | Group i r1 =>
      run icase r1 st
        (fun st' =>
           k (mkState (before st') (after st')
                      ((i, consumed st st') :: caps st')))
  | Bol => match before st with EmptyString => k st | _ => None end
  | Eol => match after st with EmptyString => k st | _ => None end
  | NotWordBoundary =>
      if Bool.eqb (word_at (before st)) (word_at (after st))
      then k st else None
  | Ahead r1 =>
      match run icase r1 st Some with
      | Some st' => k (mkState (before st) (after st) (caps st'))
      | None => None
      end
  | NotAhead r1 =>
      match run icase r1 st Some with
      | Some _ => None
      | None => k st
      end
  end.

(** A match: where it starts and where it ends. *)
Definition match_at (icase : bool) (r : regex) (b a : string)
  : option (state * state) :=
  let st := mkState b a [] in
  match run icase r st Some with
  | Some st' => Some (st, st')
  | None => None
  end.

(** The leftmost match, as [RegExp.prototype.exec] finds it from
    index 0. *)
Fixpoint search (icase : bool) (r : regex) (b a : string)
  : option (state * state) :=
  match match_at icase r b a with
  | Some m => Some m
  | None =>
      match a with
      | String c rest => search icase r (String c b) rest
      | EmptyString => None
      end
  end.

Fixpoint capture (i : nat) (cs : list (nat * string)) : option string :=
  match cs with
  | [] => None
  | (j, s) :: cs' => if (i =? j)%nat then Some s else capture i cs'
  end.

Definition exec (icase : bool) (r : regex) (s : string)
  : option (list (nat * string)) :=
  match search icase r EmptyString s with
  | Some (_, st') => Some (caps st')
  | None => None
  end.

Fixpoint rev_onto (s acc : string) : string :=
  match s with
  | EmptyString => acc
  | String c s' => rev_onto s' (String c acc)
  end.

Definition digit_of (c : ascii) : nat := JsString.code c - 48.

(** [GetSubstitution] for a pattern with [groups] capture groups, none
    of them named. *)
Fixpoint substitution (groups : nat) (m : state * state)
                      (template : string) : string :=
  let '(st, st') := m in
  match template with
  | EmptyString => EmptyString
  | String "$" t =>
      match t with
      | String "$" t' => String "$" (substitution groups m t')
      | String "&" t' => consumed st st' ++ substitution groups m t'
      | String "`" t' =>
          rev_onto (before st) EmptyString ++ substitution groups m t'
      | String "'" t' => after st' ++ substitution groups m t'
      | String d1 t' =>
          if JsString.is_digit d1 then
            let one :=
              let i := digit_of d1 in
              if ((1 <=? i) && (i <=? groups))%nat
              then match capture i (caps st') with
                   | Some s => s
                   | None => EmptyString
                   end ++ substitution groups m t'
              else String "$" (String d1 (substitution groups m t')) in
            match t' with
            | String d2 t'' =>
                if JsString.is_digit d2 then
                  let i := (10 * digit_of d1 + digit_of d2)%nat in
                  if (i <=? groups)%nat then
                    if (1 <=? i)%nat
                    then match capture i (caps st') with
                         | Some s => s
                         | None => EmptyString
                         end ++ substitution groups m t''
                    else String "$" (String d1 (String d2
                           (substitution groups m t'')))
                  else one
                else one
            | EmptyString => one
            end
          else String "$" (substitution groups m t)
      | EmptyString => String "$" EmptyString
      end
  | String c t => String c (substitution groups m t)
  end.

(** [String.prototype.replace] with a pattern without the [g] flag:
    the leftmost match is replaced. *)
Definition replace (icase : bool) (r : regex) (groups : nat)
                   (s template : string) : string :=
  match search icase r EmptyString s with
  | Some (st, st') =>
      rev_onto (before st) EmptyString
      ++ substitution groups (st, st') template ++ after st'
  | None => s
  end.

(** [String.prototype.replace] with a pattern with the [g] flag: every
    match from left to right is replaced; [skip] counts the characters
    of the last match that are still to be passed over. An empty match
    is followed by a step of one character. *)
Fixpoint replace_all_from (icase : bool) (r : regex) (groups : nat)
                          (template : string) (skip : nat)
                          (b a : string) : string :=
  match skip with
  | S skip' =>
      match a with
      | String c rest =>
          replace_all_from icase r groups template skip' (String c b) rest
      | EmptyString => EmptyString
      end
  | O =>
      match match_at icase r b a with
      | Some (st, st') =>
          substitution groups (st, st') template
          ++ match String.length (consumed st st'), a with
             | O, String c rest =>
                 String c (replace_all_from icase r groups template 0
                                            (String c b) rest)
             | S n, String c rest =>
                 replace_all_from icase r groups template n
                                  (String c b) rest
             | _, EmptyString => EmptyString
             end
      | None =>
          match a with
          | String c rest =>
              String c (replace_all_from icase r groups template 0
                                         (String c b) rest)
          | EmptyString => EmptyString
          end
      end
  end.

(** Patterns made of characters, classes, sequences and alternatives. *)
Fixpoint simple (r : regex) : bool :=
  match r with
  | Empty | Lit _ | Class _ => true
  | Seq r1 r2 | Alt r1 r2 => simple r1 && simple r2
  | _ => false
  end.

(** The most characters a simple pattern consumes. *)
Fixpoint width (r : regex) : nat :=
  match r with
  | Lit _ | Class _ => 1
  | Seq r1 r2 => width r1 + width r2
  | Alt r1 r2 => Nat.max (width r1) (width r2)
  | _ => 0
  end.

End Regex.

(* ================================================================== *)
(** ** Plain objects

    [Object.fromEntries] builds an ordinary object: its own properties are
    the entries, and it inherits the properties of [Object.prototype]. *)

Module JsObject.

Import JsNumber.

Inductive value : Type :=
| VNumber (n : number)
| VUndefined
| VObject.

(** [ToNumber] on what a lookup can return: [undefined], a function and
    an ordinary object all convert to NaN. *)
Definition ToNumber (v : value) : number :=
  match v with
  | VNumber n => n
  | VUndefined | VObject => NaN
  end.

Definition object : Type := list (string * number).

Definition fromEntries (entries : list (string * number)) : object :=
  entries.

Definition Object_prototype : list string :=
  [ "constructor"; "__defineGetter__"; "__defineSetter__";
    "hasOwnProperty"; "__lookupGetter__"; "__lookupSetter__";
    "isPrototypeOf"; "propertyIsEnumerable"; "toString"; "valueOf";
    "__proto__"; "toLocaleString" ].

Fixpoint own (o : object) (key : string) : option number :=
  match o with
  | [] => None
  | (k, v) :: o' => if String.eqb k key then Some v else own o' key
  end.

Definition inherited (key : string) : bool :=
  existsb (String.eqb key) Object_prototype.

(** [key in o] *)
Definition has (o : object) (key : string) : bool :=
  match own o key with
  | Some _ => true
  | None => inherited key
  end.

(** [o[key]] *)
Definition get (o : object) (key : string) : value :=
  match own o key with
  | Some n => VNumber n
  | None => if inherited key then VObject else VUndefined
  end.

End JsObject.

(* ================================================================== *)
(** ** src/utils.ts *)

Module Utils.

Import JsNumber JsObject Regex.

Definition UNITS : list (string * nat) :=
  [ ("B", 0); ("KB", 1); ("MB", 2); ("GB", 3); ("TB", 4);
    ("PB", 5); ("EB", 6); ("ZB", 7); ("YB", 8) ]%nat.

Record ParsedInput : Type := mkParsedInput {
  floatValue : number;
  unit : string
}.

Definition UNIT_VALUE_BY_LABEL : object :=
  fromEntries (map (fun '(unit, power) => (unit, pow1024 power)) UNITS).

Definition UNIT_VALUE_BY_LOWER : object :=
  fromEntries
    (map (fun '(unit, power) => (JsString.toLowerCase unit, pow1024 power))
         UNITS).

Definition UNIT_THRESHOLDS : list (string * number) :=
  map (fun '(unit, power) => (unit, pow1024 power)) (rev UNITS).

Definition PARSEABLE_UNITS : list string :=
  filter (fun unit => negb (String.eqb unit "b"))
         (map (fun '(unit, _) => JsString.toLowerCase unit) UNITS).

Definition digit : regex := Class JsString.is_digit.
Definition space : regex := Class JsString.is_space.

(** [a|b|...|last] *)
Fixpoint alternatives (rs : list regex) (last : regex) : regex :=
  match rs with
  | [] => last
  | r :: rs' => Alt r (alternatives rs' last)
  end.

(** [^([+-]?\d+(?:\.\d+)?)\s*(kb|mb|gb|tb|pb|eb|zb|yb|b)$], flag [i] *)
Definition PARSE_RE : regex :=
  Seq Bol
 (Seq (Group 1
         (Seq (Opt (Class (fun c => Ascii.eqb c "+" || Ascii.eqb c "-")))
         (Seq (Plus digit)
              (Opt (Seq (Lit ".") (Plus digit))))))
 (Seq (Star space)
 (Seq (Group 2 (alternatives (map Word PARSEABLE_UNITS) (Word "b")))
      Eol))).

(** [\B(?=(\d{3})+(?!\d))], flag [g] *)
Definition FORMAT_THOUSANDS_RE : regex :=
  Seq NotWordBoundary
      (Ahead (Seq (Plus (Group 1 (Times 3 digit))) (NotAhead digit))).

(** [(?:\.0*|(\.[^0]+)0+)$] *)
Definition FORMAT_DECIMALS_RE : regex :=
  Seq (Alt (Seq (Lit ".") (Star (Lit "0")))
           (Seq (Group 1
                   (Seq (Lit ".")
                        (Plus (Class (fun c => negb (Ascii.eqb c "0"))))))
                (Plus (Lit "0"))))
      Eol.

Definition toByteUnit (value : string) : option string :=
  let normalized := JsString.toLowerCase value in
  if has UNIT_VALUE_BY_LOWER normalized then Some normalized else None.

Definition toUnitLabel (value : string) : option string :=
  match toByteUnit value with
  | Some lowerUnit =>
      if JsString.truthy lowerUnit
      then Some (JsString.toUpperCase lowerUnit)
      else None
  | None => None
  end.

(** The [for ... of] loop of [resolveUnit]. *)
Fixpoint scan (magnitude : number) (thresholds : list (string * number))
  : string :=
  match thresholds with
  | [] => "B"
  | (unit, threshold) :: rest =>
      if ge magnitude threshold then unit else scan magnitude rest
  end.

Definition explicit (preferredUnit : option string) : option string :=
  match preferredUnit with
  | Some p =>
      if JsString.truthy p then
        match toUnitLabel p with
        | Some explicitUnit =>
            if JsString.truthy explicitUnit then Some explicitUnit else None
        | None => None
        end
      else None
  | None => None
  end.

Definition resolveUnit (magnitude : number) (preferredUnit : option string)
  : string :=
  match explicit preferredUnit with
  | Some explicitUnit => explicitUnit
  | None => scan magnitude UNIT_THRESHOLDS
  end.

(** [const [integerPart, decimalPart] = s.split('.')] *)
Fixpoint split_dot (s : string) : string * option string :=
  match s with
  | EmptyString => (EmptyString, None)
  | String "." rest => (EmptyString, Some (fst (split_dot rest)))
  | String c rest =>
      let '(i, d) := split_dot rest in (String c i, d)
  end.

Definition formatValue (value : number) (unit : string)
                       (decimalPlaces : number) (fixedDecimals : bool)
                       (thousandsSeparator : string) : completion string :=
  match toUnitLabel unit with
  | None => Normal (toString NaN)
  | Some normalizedUnit =>
      let divisor := get UNIT_VALUE_BY_LABEL normalizedUnit in
      formattedValue <- toFixed (div value (ToNumber divisor)) decimalPlaces ;;
      let formattedValue :=
        if negb fixedDecimals
        then replace false FORMAT_DECIMALS_RE 1 formattedValue "$1"
        else formattedValue in
      let formattedValue :=
        if JsString.truthy thousandsSeparator then
          let '(integerPart, decimalPart) := split_dot formattedValue in
          let groupedInteger :=
            replace_all_from false FORMAT_THOUSANDS_RE 1 thousandsSeparator
                             0 EmptyString integerPart in
          match decimalPart with
          | Some decimalPart => groupedInteger ++ "." ++ decimalPart
          | None => groupedInteger
          end
        else formattedValue in
      Normal formattedValue
  end.

Definition parseInput (value : string) : option ParsedInput :=
  let trimmed := JsString.trim value in
  match exec true PARSE_RE trimmed with
  | Some strictMatch =>
      let group i :=
        match capture i strictMatch with
        | Some s => s
        | None => EmptyString
        end in
      let floatValue := parseFloat (group 1%nat) in
      match toByteUnit (group 2%nat) with
      | Some unit =>
          if isFinite floatValue && JsString.truthy unit
          then Some (mkParsedInput floatValue unit)
          else None
      | None => None
      end
  | None =>
      let floatValue := parseFloat trimmed in
      if isFinite floatValue then Some (mkParsedInput floatValue "b")
      else None
  end.

Definition toBytes (floatValue : number) (unit : string) : number :=
  match toByteUnit unit with
  | Some normalizedUnit =>
      if JsString.truthy normalizedUnit
      then floor (mul (ToNumber (get UNIT_VALUE_BY_LOWER normalizedUnit))
                      floatValue)
      else NaN
  | None => NaN
  end.

End Utils.

(* ================================================================== *)
(** ** src/index.ts *)

Module Format.

Import JsNumber.

Inductive Output : Type := string | array | object.

Record Options : Type := mkOptions {
  decimalPlaces : option number;
  fixedDecimals : option bool;
  output : option Output;
  thousandsSeparator : option String.string;
  unit : option String.string;
  unitSeparator : option String.string
}.

(** [{}] *)
Definition empty : Options := mkOptions None None None None None None.

Record Detail : Type := mkDetail {
  bytes : number;
  detail_unit : String.string;
  value : String.string
}.

Inductive Result : Type :=
| Scalar (s : String.string)
| Tuple (str unit : String.string)
| Record_ (d : Detail).

End Format.

Module Parse.

Import JsNumber.

Inductive Output : Type := number_ | array | object.

Record Options : Type := mkOptions {
  output : option Output
}.

Definition empty : Options := mkOptions None.

Record Detail : Type := mkDetail {
  bytes : number;
  unit : String.string;
  value : number
}.

Inductive Result : Type :=
| Scalar (bytes : number)
| Tuple (bytes : number) (unitLabel : String.string)
| Record_ (d : Detail).

(** The byte count a result carries, whatever its shape. *)
Definition bytes_of (r : Result) : number :=
  match r with
  | Scalar b => b
  | Tuple b _ => b
  | Record_ d => bytes d
  end.

(** A result of the shape that [output] asks for. *)
Definition shaped (output : option Output) (bytes : number)
                  (unitLabel : String.string) (value : number) : Result :=
  match output with
  | Some array => Tuple bytes unitLabel
  | Some object => Record_ (mkDetail bytes unitLabel value)
  | _ => Scalar bytes
  end.

(** [string | number] *)
Inductive Input : Type :=
| Str (s : String.string)
| Num (n : number).

Inductive SafeParseResult : Type :=
| Success (value : Result)
| Failure (error : error).

End Parse.

Module Index.

Import JsNumber Utils.

Definition default {A : Type} (o : option A) (d : A) : A :=
  match o with Some a => a | None => d end.

Definition formatBytes (value : number) (options : Format.Options)
  : completion (option Format.Result) :=
  if negb (isFinite value) then Normal None
  else
    let decimalPlaces := default (Format.decimalPlaces options) (of_Z 2) in
    let fixedDecimals := default (Format.fixedDecimals options) false in
    let thousandsSeparator :=
      default (Format.thousandsSeparator options) "" in
    let preferredUnit := Format.unit options in
    let unitSeparator := default (Format.unitSeparator options) "" in
    let output := default (Format.output options) Format.string in
    let unit := resolveUnit (abs value) preferredUnit in
    str <- formatValue value unit decimalPlaces fixedDecimals
                       thousandsSeparator ;;
    Normal (Some
      match output with
      | Format.array => Format.Tuple str unit
      | Format.object => Format.Record_ (Format.mkDetail value unit str)
      | Format.string => Format.Scalar (str ++ unitSeparator ++ unit)
      end).

Definition parseBytes (val : Parse.Input) (options : Parse.Options)
  : option Parse.Result :=
  match val with
  | Parse.Num val =>
      if negb (isFinite val) then None
      else
        Some match Parse.output options with
             | Some Parse.array => Parse.Tuple val "B"
             | Some Parse.object =>
                 Parse.Record_ (Parse.mkDetail val "B" val)
             | _ => Parse.Scalar val
             end
  | Parse.Str val =>
      match parseInput val with
      | None => None
      | Some parsed =>
          let bytes := toBytes (floatValue parsed) (unit parsed) in
          let unitLabel := JsString.toUpperCase (unit parsed) in
          Some match Parse.output options with
               | Some Parse.array => Parse.Tuple bytes unitLabel
               | Some Parse.object =>
                   Parse.Record_
                     (Parse.mkDetail bytes unitLabel (floatValue parsed))
               | _ => Parse.Scalar bytes
               end
      end
  end.

Definition invalidValueError (val : Parse.Input) : error :=
  TypeError ("Invalid byte value: " ++
             match val with
             | Parse.Str val => JsString.quote ++ val ++ JsString.quote
             | Parse.Num val => toString val
             end).

Definition safeParseBytes (val : Parse.Input) (options : Parse.Options)
  : Parse.SafeParseResult :=
  let invalidValueError := invalidValueError val in
  match Parse.output options with
  | Some Parse.array =>
      match parseBytes val (Parse.mkOptions (Some Parse.array)) with
      | None => Parse.Failure invalidValueError
      | Some result => Parse.Success result
      end
  | Some Parse.object =>
      match parseBytes val (Parse.mkOptions (Some Parse.object)) with
      | None => Parse.Failure invalidValueError
      | Some result => Parse.Success result
      end
  | _ =>
      match parseBytes val Parse.empty with
      | None => Parse.Failure invalidValueError
      | Some result => Parse.Success result
      end
  end.

Definition parseBytesOrThrow (val : Parse.Input) (options : Parse.Options)
  : completion Parse.Result :=
  let result :=
    match Parse.output options with
    | Some Parse.array =>
        safeParseBytes val (Parse.mkOptions (Some Parse.array))
    | Some Parse.object =>
        safeParseBytes val (Parse.mkOptions (Some Parse.object))
    | _ => safeParseBytes val Parse.empty
    end in
  match result with
  | Parse.Failure error => Throw error
  | Parse.Success value => Normal value
  end.

End Index.

(* ================================================================== *)
(** ** The logarithm based unit selection of the second utility module

    [Math.log] is an implementation-approximated function: the language
    fixes its value only at NaN, the infinities, the zeros and 1. The
    module is therefore embedded over an arbitrary [Math_log]. *)

Module LogUtils.

Import JsNumber.

Section WithLog.

Variable Math_log : number -> number.

Definition UNITS : list string :=
  [ "B"; "KB"; "MB"; "GB"; "TB"; "PB"; "EB"; "ZB"; "YB" ].

Definition LOG_1024 : number := Math_log (of_Z 1024).

(** [UNITS[e]]: [undefined] unless [e] is an index of the array. *)
Definition at_index (e : number) : option string :=
  match e with
  | S754_zero _ => nth_error UNITS 0
  | _ =>
      match find (fun i => eqb e (of_Z (Z.of_nat i))) (seq 1 8) with
      | Some i => nth_error UNITS i
      | None => None
      end
  end.

Definition resolveUnit (magnitude : number)
                       (preferredUnit : option string) : option string :=
  match Utils.explicit preferredUnit with
  | Some explicitUnit => Some explicitUnit
  | None =>
      if lt magnitude (of_Z 1) then Some "B"
      else
        let e := floor (div (Math_log magnitude) LOG_1024) in
        let e := if lt (of_Z 8) e then of_Z 8 else e in
        at_index e
  end.

End WithLog.

End LogUtils.

(* ================================================================== *)
(** ** The statements of the specification that the code does not meet,
       as the specification words them *)

Module Spec.

Import JsNumber Utils Index.

(** "the entire trimmed string is a decimal number with no unit
    suffix" *)
Definition purely_numeric (t : string) : bool :=
  match str_decimal_literal t with
  | Some (_, EmptyString) => true
  | _ => false
  end.

(** "for any trimmed string that is neither a strict match nor purely
    numeric, parseBytes returns absent" *)
Definition absent_unless_numeric (val : string) : Prop :=
  let trimmed := JsString.trim val in
  Regex.exec true PARSE_RE trimmed = None ->
  purely_numeric trimmed = false ->
  parseBytes (Parse.Str val) Parse.empty = None.


(** An integral number: finite and its own floor. *)
Definition is_integer (x : number) : bool :=
  isFinite x && eqb (floor x) x.

(** "every non-absent result of parseBytes carries an integer byte
    count" *)
Definition integer_byte_count (val : Parse.Input) (options : Parse.Options)
  : Prop :=
  forall result,
    parseBytes val options = Some result ->
    is_integer (Parse.bytes_of result) = true.

(** "resolveUnit always returns one of the nine canonical unit labels" *)
Definition canonical_label (unit : string) : bool :=
  existsb (fun '(label, _) => String.eqb label unit) UNITS.

(** "all trailing zero fractional digits stripped": a rendering with a
    decimal point does not end in [0] or in the point itself. *)
Fixpoint last_char (s : string) : option ascii :=
  match s with
  | EmptyString => None
  | String c EmptyString => Some c
  | String _ s' => last_char s'
  end.

Definition has_dot (s : string) : bool :=
  match snd (Utils.split_dot s) with Some _ => true | None => false end.

Definition stripped (s : string) : bool :=
  negb (has_dot s)
  || match last_char s with
     | Some c => negb (Ascii.eqb c "0" || Ascii.eqb c ".")
     | None => true
     end.

(** "the threshold-scan resolveUnit and the logarithm based resolveUnit
    return the same unit label", for a finite non-negative magnitude *)
Definition same_unit (Math_log : number -> number) (magnitude : number)
                     (preferredUnit : option string) : Prop :=
  isFinite magnitude = true ->
  lt magnitude (of_Z 0) = false ->
  LogUtils.resolveUnit Math_log magnitude preferredUnit
  = Some (resolveUnit magnitude preferredUnit).
End Spec.

(* ================================================================== *)
(** ** Inputs and helpers of the statements *)

Import JsNumber JsObject Utils Index.

(** The numbers that [1.5] and [2.05] denote. *)
Definition one_and_a_half : number := of_ratio false 3 2.
Definition two_point_zero_five : number := of_ratio false 205 100.

(** [parseBytes(formatBytes(v))] with the default options. *)
Definition roundtrip (v : number) : option Parse.Result :=
  match formatBytes v Format.empty with
  | Normal (Some (Format.Scalar str)) => parseBytes (Parse.Str str) Parse.empty
  | _ => None
  end.


(** The text that stands for the input in the error message. *)
Definition shown (val : Parse.Input) : string :=
  match val with
  | Parse.Str s => JsString.quote ++ s ++ JsString.quote
  | Parse.Num n => toString n
  end.

(** [{ decimalPlaces: 3 }] and [{ unit: 'constructor' }] *)
Definition three_places : Format.Options :=
  Format.mkOptions (Some (of_Z 3)) None None None None None.

Definition unit_constructor : Format.Options :=
  Format.mkOptions None None None None (Some "constructor") None.

(** [formatBytes(value, options)] formats with [unit]: it returns the
    text that [formatValue] gives for that unit, with the unit, in the
    shape asked for, or it throws what [formatValue] throws for it. *)
Definition formats_with (value : number) (options : Format.Options)
                        (unit : string) : Prop :=
  let rendering :=
    formatValue value unit
                (default (Format.decimalPlaces options) (of_Z 2))
                (default (Format.fixedDecimals options) false)
                (default (Format.thousandsSeparator options) "") in
  match formatBytes value options with
  | Normal (Some result) =>
      exists str,
        rendering = Normal str
        /\ result
           = match default (Format.output options) Format.string with
             | Format.array => Format.Tuple str unit
             | Format.object =>
                 Format.Record_ (Format.mkDetail value unit str)
             | Format.string =>
                 Format.Scalar
                   (str ++ default (Format.unitSeparator options) ""
                        ++ unit)
             end
  | Normal None => False
  | Throw e => rendering = Throw e
  end.

(** [{ unit: 'INVALID' }] *)
Definition unit_invalid : Format.Options :=
  Format.mkOptions None None None None (Some "INVALID") None.

(** The number nearest to the logarithm of 1024, 6.931471805599453, and
    the number just below 1024, 1023.9999999999999. *)
Definition ln_1024 : number := S754_finite false 7804143460206699 (-50).
Definition below_1024 : number := S754_finite false 9007199254740991 (-43).

(** A [Math.log] that returns the nearest number at 1024 and just below
    it: the logarithm of 1024 is 0.011 units in the last place above
    [ln_1024], and the logarithm of [below_1024] is 0.114 below it. *)
Definition rounds_at_1024 (Math_log : number -> number) : Prop :=
  Math_log (of_Z 1024) = ln_1024 /\ Math_log below_1024 = ln_1024.

(** The index [e] that the second [resolveUnit] reads [UNITS] at. *)
Definition log_index (Math_log : number -> number) (magnitude : number)
  : number :=
  let e := floor (div (Math_log magnitude) (LogUtils.LOG_1024 Math_log)) in
  if lt (of_Z 8) e then of_Z 8 else e.

(** The number [e] is the index [power]. *)
Definition is_index (e : number) (power : nat) : bool :=
  match power with
  | O => match e with S754_zero _ => true | _ => false end
  | S _ => eqb e (of_Z (Z.of_nat power))
  end.

(* ================================================================== *)
(** ** The unit tables of the second utility module *)

Module LogTables.

Import JsNumber JsObject.

Definition UNITS : list string :=
  [ "B"; "KB"; "MB"; "GB"; "TB"; "PB"; "EB"; "ZB"; "YB" ].

Definition POWERS : list number :=
  [ of_Z 1; of_Z 1024; of_Z 1048576; of_Z 1073741824;
    of_Z 1099511627776; of_Z 1125899906842624;
    pow1024 6; pow1024 7; pow1024 8 ].

(** [UNITS.map((unit, i) => [f(unit), POWERS[i]])]; an index that
    [POWERS] does not have gives [undefined], which leaves no entry
    here since each of the nine has one. *)
Fixpoint entries (f : string -> string) (units : list string) (i : nat)
  : list (string * number) :=
  match units with
  | [] => []
  | unit :: rest =>
      match nth_error POWERS i with
      | Some power => (f unit, power) :: entries f rest (S i)
      | None => entries f rest (S i)
      end
  end.

Definition UNIT_VALUE_BY_LABEL : object :=
  fromEntries (entries (fun unit => unit) UNITS 0).

Definition UNIT_VALUE_BY_LOWER : object :=
  fromEntries (entries JsString.toLowerCase UNITS 0).

Definition PARSEABLE_UNITS : list string :=
  filter (fun unit => negb (String.eqb unit "b"))
         (map JsString.toLowerCase UNITS).

End LogTables.

(* ================================================================== *)
(** ** Vocabulary of the further properties *)

Module Facts.

Import JsNumber JsObject Utils Index.

(** Every character of the string satisfies [p]. *)
Fixpoint all_chars (p : ascii -> bool) (s : string) : bool :=
  match s with
  | EmptyString => true
  | String c s' => p c && all_chars p s'
  end.

Definition blank (s : string) : bool := all_chars JsString.is_space s.

(** The lower case spellings that [toByteUnit] lets through: the nine
    units, and the two keys of [Object.prototype] without a capital. *)
Definition accepted_units : list string :=
  [ "b"; "kb"; "mb"; "gb"; "tb"; "pb"; "eb"; "zb"; "yb";
    "constructor"; "__proto__" ].

Definition accepted (preferredUnit : string) : bool :=
  existsb (String.eqb (JsString.toLowerCase preferredUnit)) accepted_units.

(** [decimalPlaces], defaulted and truncated, is between 0 and 100. *)
Definition places_in_range (options : Format.Options) : bool :=
  match toIntegerOrInfinity
          (default (Format.decimalPlaces options) (of_Z 2)) with
  | Some f => (0 <=? f)%Z && (f <=? 100)%Z
  | None => false
  end.

(** The result of [formatBytes] in the shape that [output] asks for. *)
Definition shaped (options : Format.Options) (str unit : string)
                  (value : number) : Format.Result :=
  match default (Format.output options) Format.string with
  | Format.array => Format.Tuple str unit
  | Format.object => Format.Record_ (Format.mkDetail value unit str)
  | Format.string =>
      Format.Scalar
        (str ++ default (Format.unitSeparator options) "" ++ unit)
  end.

(** The numeric string that [formatBytes] renders, and the empty string
    when rendering throws. *)
Definition rendered (value : number) (options : Format.Options) : string :=
  match formatValue value
          (resolveUnit (abs value) (Format.unit options))
          (default (Format.decimalPlaces options) (of_Z 2))
          (default (Format.fixedDecimals options) false)
          (default (Format.thousandsSeparator options) "") with
  | Normal str => str
  | Throw _ => EmptyString
  end.

(** [parseBytes(formatBytes(v))] gives back the integer [v]. *)
Definition roundtrips (v : Z) : bool :=
  match roundtrip (of_Z v) with
  | Some (Parse.Scalar bytes) => eqb bytes (of_Z v)
  | _ => false
  end.

(** The integers from [lo] up, [n] of them. *)
Fixpoint range (lo : Z) (n : nat) : list Z :=
  match n with
  | O => []
  | S n' => lo :: range (lo + 1) n'
  end.

(** The bytes of a quarter of the unit of index [j]; one byte for [B]. *)
Definition quarter (j : nat) : Z :=
  match j with
  | O => 1
  | S j' => 256 * 1024 ^ Z.of_nat j'
  end.

(** Every whole number of quarters of the unit of index [j], from none
    to just below 256 units, survives the round trip. *)
Definition quarters_roundtrip (j : nat) : bool :=
  forallb (fun n => roundtrips (n * quarter j)) (range 0 1024).

(** A digit string with [sep] put before every group of three digits
    counted from its end, the first group apart. *)
Fixpoint grouped (sep : string) (digits : string) : string :=
  match digits with
  | EmptyString => EmptyString
  | String c rest =>
      String c
        ((if negb (String.length rest =? 0)%nat
             && (String.length rest mod 3 =? 0)%nat
          then sep else EmptyString)
         ++ grouped sep rest)
  end.

Definition is_some {A : Type} (o : option A) : bool :=
  match o with Some _ => true | None => false end.

(** Parts of [FORMAT_THOUSANDS_RE]: [(\d{3})], [(?!\d)] followed by
    success, and [(\d{3})+(?!\d)]. *)
Definition triple : Regex.regex := Regex.Group 1 (Regex.Times 3 digit).

Definition at_end (st : Regex.state) : option Regex.state :=
  Regex.run false (Regex.NotAhead digit) st Some.

Definition look : Regex.regex :=
  Regex.Seq (Regex.Plus triple) (Regex.NotAhead digit).

(** The replacement of the thousands pattern from a position on: the
    text before it, latest character first, and the text after it. *)
Definition from (sep b a : string) : string :=
  Regex.replace_all_from false FORMAT_THOUSANDS_RE 1 sep 0 b a.

(** A string of [0]s. *)
Definition zeros (s : string) : bool :=
  all_chars (fun c => Ascii.eqb c "0") s.

Definition no_dot (s : string) : bool :=
  all_chars (fun c => negb (Ascii.eqb c ".")) s.

(** The longest prefix without a [0], and what follows it. *)
Fixpoint span_nonzero (s : string) : string * string :=
  match s with
  | EmptyString => (EmptyString, EmptyString)
  | String c r =>
      if Ascii.eqb c "0" then (EmptyString, s)
      else let '(p, z) := span_nonzero r in (String c p, z)
  end.

(** What is left of [int.frac]: the integer part alone when the fraction
    is made of zeros; the fraction without its zeros at the end when no
    other zero comes before them; and all of it otherwise. *)
Definition strip (int frac : string) : string :=
  if zeros frac then int
  else
    let '(p, z) := span_nonzero frac in
    if JsString.truthy p && JsString.truthy z && zeros z
    then int ++ "." ++ p
    else int ++ "." ++ frac.

(** Parts of [FORMAT_DECIMALS_RE]: [$] followed by success, [[^0]], and
    [0+$]. *)
Definition at_eol (st : Regex.state) : option Regex.state :=
  Regex.run false Regex.Eol st Some.

Definition nonzero : Regex.regex :=
  Regex.Class (fun c => negb (Ascii.eqb c "0")).

Definition zeros_to_eol (st : Regex.state) : option Regex.state :=
  Regex.run false (Regex.Plus (Regex.Lit "0")) st at_eol.

(** The group of a match and what follows the match. *)
Definition outcome (st : option Regex.state) : option (option string * string) :=
  match st with
  | Some st' => Some (Regex.capture 1 (Regex.caps st'), Regex.after st')
  | None => None
  end.

(** A finite number below 10^21 in magnitude: the numbers that
    [toFixed] writes in fixed notation. *)
Definition below_1e21 (x : number) : bool :=
  match x with
  | S754_finite _ m e =>
      let '(a, b) := fraction m e in negb (10 ^ 21 * b <=? a)%Z
  | S754_zero _ => true
  | _ => false
  end.

(** The point and the fraction after an integer part, when there is a
    fraction. *)
Definition point (frac : string) : string :=
  if JsString.truthy frac then "." ++ frac else EmptyString.

(** What [formatValue] keeps of the fraction. *)
Definition kept (fixedDecimals : bool) (frac : string) : string :=
  if JsString.truthy frac
  then if fixedDecimals then "." ++ frac else strip EmptyString frac
  else EmptyString.

(** A position of the subject and its captures in lower case. *)
Definition lower_caps (cs : list (nat * string)) : list (nat * string) :=
  map (fun '(i, s) => (i, JsString.toLowerCase s)) cs.

Definition lower_state (st : Regex.state) : Regex.state :=
  Regex.mkState (JsString.toLowerCase (Regex.before st))
                (JsString.toLowerCase (Regex.after st))
                (lower_caps (Regex.caps st)).

Definition lower_match (m : Regex.state * Regex.state)
  : Regex.state * Regex.state :=
  (lower_state (fst m), lower_state (snd m)).

(** The classes of a pattern do not tell a letter from its lower
    case. *)
Fixpoint blind (r : Regex.regex) : Prop :=
  match r with
  | Regex.Class p => forall c, p (JsString.lower_char c) = p c
  | Regex.Seq r1 r2 | Regex.Alt r1 r2 => blind r1 /\ blind r2
  | Regex.Star r1 | Regex.Group _ r1
  | Regex.Ahead r1 | Regex.NotAhead r1 => blind r1
  | _ => True
  end.

(** Parts of [str_decimal_literal] and [exponent_part]: the sign, the
    digits after the point, and the literal after its sign. *)
Definition sign_of (t : string) : bool * string :=
  match t with
  | String "-" r => (true, r)
  | String "+" r => (false, r)
  | _ => (false, t)
  end.

Definition fraction_of (r1 : string) : string * string :=
  match r1 with
  | String "." r => digits_span r
  | _ => (EmptyString, r1)
  end.

Definition unsigned_literal (neg : bool) (t : string)
  : option (literal * string) :=
  if String.prefix "Infinity" t
  then Some (LInfinity neg, JsString.drop 8 t)
  else
    let '(ip, r1) := digits_span t in
    let '(fp, r2) := fraction_of r1 in
    match ip ++ fp with
    | EmptyString => None
    | d =>
        let '(ex, rest) := exponent_part r2 in
        Some (LDecimal neg d (ex - Z.of_nat (String.length fp)), rest)
    end.

(** Parts of [PARSE_RE]: the sign, the fraction, the number, the units,
    and what follows the number. *)
Definition sign_re : Regex.regex :=
  Regex.Class (fun c => Ascii.eqb c "+" || Ascii.eqb c "-").

Definition fraction_re : Regex.regex :=
  Regex.Seq (Regex.Lit ".") (Regex.Plus digit).

Definition number_re : Regex.regex :=
  Regex.Seq (Regex.Opt sign_re)
            (Regex.Seq (Regex.Plus digit) (Regex.Opt fraction_re)).

Definition units_re : Regex.regex :=
  alternatives (map Regex.Word PARSEABLE_UNITS) (Regex.Word "b").

Definition tail_re : Regex.regex :=
  Regex.Seq (Regex.Star space)
            (Regex.Seq (Regex.Group 2 units_re) Regex.Eol).

(** The match from the unit on, from the white space on, from the end
    of the first group on and from the fraction on. *)
Definition units_k (st : Regex.state) : option Regex.state :=
  Regex.run true (Regex.Seq (Regex.Group 2 units_re) Regex.Eol) st Some.

Definition tail_k (st : Regex.state) : option Regex.state :=
  Regex.run true tail_re st Some.

Definition group_k (st0 st' : Regex.state) : option Regex.state :=
  tail_k (Regex.mkState (Regex.before st') (Regex.after st')
                        ((1%nat, Regex.consumed st0 st') :: Regex.caps st')).

Definition fraction_k (st0 st : Regex.state) : option Regex.state :=
  Regex.run true (Regex.Opt fraction_re) st (group_k st0).

(** The text does not start with a character of the class. *)
Definition stops (p : ascii -> bool) (s : string) : bool :=
  match s with
  | EmptyString => true
  | String c _ => negb (p c)
  end.

(** The lower case units. *)
Definition lower_units : list string := "b" :: PARSEABLE_UNITS.

End Facts.

(* ================================================================== *)
(** * Properties *)

(** ** Binary64 arithmetic

    Facts about rounding that the claims on byte counts rest on: what
    [SpecFloat]'s rounding returns is well formed, rounding a mantissa
    whose dropped bits are zero is exact, and so are the product with a
    power of 1024 and the conversion of an integer below 2^53. *)

Module Binary64.

Local Open Scope Z_scope.

Lemma digits_log2 :
  forall p : positive, Zpos (digits2_pos p) = Z.log2 (Zpos p) + 1.
Proof.
  assert (S : forall p, digits2_pos p = Pos.size p)
    by (induction p; simpl; congruence).
  intros [p|p|]; simpl; rewrite ?S; lia.
Qed.

Lemma Zdigits2_log2 :
  forall m, 0 < m -> Zdigits2 m = Z.log2 m + 1.
Proof.
  intros [|p|p] H; try lia. apply digits_log2.
Qed.

Lemma Zdigits2_nonneg : forall m, 0 <= Zdigits2 m.
Proof. intros [|p|p]; simpl; lia. Qed.

(** [2^(d-1) <= m < 2^d] for [d] the number of binary digits of [m]. *)
Lemma digits_bounds :
  forall m, 0 < m -> 2 ^ (Zdigits2 m - 1) <= m < 2 ^ Zdigits2 m.
Proof.
  intros m H. rewrite Zdigits2_log2 by assumption.
  replace (Z.log2 m + 1 - 1) with (Z.log2 m) by lia.
  replace (Z.log2 m + 1) with (Z.succ (Z.log2 m)) by lia.
  apply Z.log2_spec; assumption.
Qed.

Lemma digits_unique :
  forall m d, 0 < d -> 2 ^ (d - 1) <= m < 2 ^ d -> Zdigits2 m = d.
Proof.
  intros m d Hd H.
  assert (0 < m) by (pose proof (Z.pow_pos_nonneg 2 (d - 1)); lia).
  rewrite Zdigits2_log2 by assumption.
  assert (Z.log2 m = d - 1); [ | lia ].
  apply Z.log2_unique; [ lia | ].
  replace (Z.succ (d - 1)) with d by lia. assumption.
Qed.

Lemma digits_mul_pow2 :
  forall m n, 0 < m -> 0 <= n -> Zdigits2 (m * 2 ^ n) = Zdigits2 m + n.
Proof.
  intros m n Hm Hn.
  assert (0 < 2 ^ n) by (apply Z.pow_pos_nonneg; lia).
  rewrite !Zdigits2_log2 by nia.
  rewrite Z.log2_mul_pow2 by lia. lia.
Qed.

(** One step of [shr_1] halves an even mantissa exactly. *)
Lemma shr_1_even :
  forall k, 0 <= k ->
    shr_1 (Build_shr_record (2 * k) false false)
    = Build_shr_record k false false.
Proof. intros [|p|p] H; try lia; reflexivity. Qed.

Lemma pow2_xO : forall p, 2 ^ Zpos p~0 = 2 ^ Zpos p * 2 ^ Zpos p.
Proof. intros p. rewrite <- Z.pow_add_r by lia. f_equal; lia. Qed.

Lemma pow2_xI : forall p, 2 ^ Zpos p~1 = 2 * (2 ^ Zpos p * 2 ^ Zpos p).
Proof.
  intros p. rewrite <- Z.pow_add_r, <- Z.pow_succ_r by lia. f_equal; lia.
Qed.

(** Shifting out [p] zero bits is exact. *)
Lemma iter_shr_exact :
  forall (p : positive) (k : Z), 0 <= k ->
    iter_pos shr_1 p (Build_shr_record (k * 2 ^ Zpos p) false false)
    = Build_shr_record k false false.
Proof.
  induction p as [p IH|p IH|]; intros k Hk; cbn [iter_pos].
  - assert (0 < 2 ^ Zpos p) by (apply Z.pow_pos_nonneg; lia).
    rewrite pow2_xI.
    replace (k * (2 * (2 ^ Zpos p * 2 ^ Zpos p)))
      with (2 * ((k * 2 ^ Zpos p) * 2 ^ Zpos p)) by ring.
    rewrite shr_1_even, IH by nia. apply IH; assumption.
  - assert (0 < 2 ^ Zpos p) by (apply Z.pow_pos_nonneg; lia).
    rewrite pow2_xO.
    replace (k * (2 ^ Zpos p * 2 ^ Zpos p))
      with ((k * 2 ^ Zpos p) * 2 ^ Zpos p) by ring.
    rewrite IH by nia. apply IH; assumption.
  - replace (k * 2 ^ 1) with (2 * k) by (rewrite Z.pow_1_r; ring).
    apply shr_1_even; assumption.
Qed.

Lemma fexp_eq : forall x, fexp prec emax x = fexp64 x.
Proof. reflexivity. Qed.

(** Rounding a mantissa whose low bits are zero is exact. *)
Lemma round_exact :
  forall (s : bool) (k n e : Z),
    0 < k -> 0 <= n ->
    fexp64 (Zdigits2 k + n + e) = e + n ->
    binary_round_aux prec emax s (k * 2 ^ n) e loc_Exact
    = if e + n <=? 971 then S754_finite s (Z.to_pos k) (e + n)
      else S754_infinity s.
Proof.
  intros s k n e Hk Hn Hf.
  unfold binary_round_aux, shr_fexp.
  rewrite fexp_eq, digits_mul_pow2, Hf by assumption.
  replace (e + n - e) with n by lia.
  assert (E : shr (shr_record_of_loc (k * 2 ^ n) loc_Exact) e n
              = (Build_shr_record k false false, e + n)).
  { unfold shr, shr_record_of_loc.
    destruct n as [|p|p]; try lia.
    - rewrite Z.pow_0_r, Z.mul_1_r, Z.add_0_r. reflexivity.
    - rewrite iter_shr_exact by lia. reflexivity. }
  rewrite E. cbn [shr_m loc_of_shr_record round_nearest_even].
  rewrite fexp_eq.
  replace (Zdigits2 k + (e + n)) with (Zdigits2 k + n + e) by lia.
  rewrite Hf, Z.sub_diag. cbn [shr shr_record_of_loc shr_m].
  destruct k as [|p|p]; try lia. reflexivity.
Qed.

(* ---------------- general rounding: the result is well formed *)

Lemma shr_1_mantissa :
  forall r, 0 <= shr_m r -> shr_m (shr_1 r) = Z.shiftr (shr_m r) 1.
Proof.
  intros [[|[p|p|]|p] r s] H; simpl in H; try lia; reflexivity.
Qed.

Lemma iter_shr_mantissa :
  forall (p : positive) (r : shr_record), 0 <= shr_m r ->
    shr_m (iter_pos shr_1 p r) = Z.shiftr (shr_m r) (Zpos p).
Proof.
  induction p as [p IH|p IH|]; intros r Hr; cbn [iter_pos].
  - assert (H1 : 0 <= shr_m (shr_1 r))
      by (rewrite shr_1_mantissa by assumption; apply Z.shiftr_nonneg; assumption).
    assert (H2 : 0 <= shr_m (iter_pos shr_1 p (shr_1 r)))
      by (rewrite IH by assumption; apply Z.shiftr_nonneg; assumption).
    rewrite IH, IH, shr_1_mantissa, !Z.shiftr_shiftr by (assumption || lia).
    f_equal; lia.
  - assert (H2 : 0 <= shr_m (iter_pos shr_1 p r))
      by (rewrite IH by assumption; apply Z.shiftr_nonneg; assumption).
    rewrite IH, IH, !Z.shiftr_shiftr by (assumption || lia).
    f_equal; lia.
  - apply shr_1_mantissa; assumption.
Qed.

Lemma shr_record_of_loc_m :
  forall m l, shr_m (shr_record_of_loc m l) = m.
Proof. intros m [|[ | | ]]; reflexivity. Qed.

(** What [shr_fexp] returns when the mantissa has digits to spare. *)
Lemma shr_fexp_spec :
  forall m e l, 0 <= m -> e <= fexp64 (Zdigits2 m + e) ->
    let '(r, e') := shr_fexp prec emax m e l in
    e' = fexp64 (Zdigits2 m + e)
    /\ shr_m r = Z.shiftr m (e' - e).
Proof.
  intros m e l Hm He. unfold shr_fexp, shr. rewrite fexp_eq.
  destruct (fexp64 (Zdigits2 m + e) - e) as [|p|p] eqn:E; try lia.
  - split; [ lia | ].
    replace (e - e) with 0 by lia.
    rewrite Z.shiftr_0_r. apply shr_record_of_loc_m.
  - split; [ lia | ].
    rewrite iter_shr_mantissa by (rewrite shr_record_of_loc_m; assumption).
    rewrite shr_record_of_loc_m. f_equal; lia.
Qed.

Lemma digits_shiftr :
  forall m n, 0 <= n -> 0 < Z.shiftr m n ->
    Zdigits2 (Z.shiftr m n) = Zdigits2 m - n.
Proof.
  intros m n Hn H.
  assert (Hm : 0 < m).
  { destruct (Z.lt_trichotomy m 0) as [L|[L|L]]; try assumption.
    - apply Z.shiftr_neg with (n := n) in L. lia.
    - subst m. rewrite Z.shiftr_0_l in H. lia. }
  rewrite !Zdigits2_log2 by assumption.
  rewrite Z.log2_shiftr by assumption.
  destruct (Z.shiftr_eq_0_iff m n) as [_ B].
  destruct (Z_lt_le_dec (Z.log2 m) n) as [L|L]; [ | lia ].
  rewrite B in H by (right; split; assumption). lia.
Qed.

Lemma shiftr_zero_digits :
  forall m n, 0 <= m -> 0 <= n -> Z.shiftr m n = 0 -> Zdigits2 m <= n.
Proof.
  intros m n Hm Hn H.
  apply Z.shiftr_eq_0_iff in H. destruct H as [->|[H1 H2]]; [ simpl; lia | ].
  rewrite Zdigits2_log2 by assumption. lia.
Qed.

Lemma digits_succ :
  forall m, 0 < m ->
    Zdigits2 (m + 1) = Zdigits2 m
    \/ (m + 1 = 2 ^ Zdigits2 m /\ Zdigits2 (m + 1) = Zdigits2 m + 1).
Proof.
  intros m Hm.
  pose proof (digits_bounds m Hm) as [B1 B2].
  pose proof (Zdigits2_nonneg m) as N.
  assert (0 < Zdigits2 m) by (rewrite Zdigits2_log2 by assumption; pose proof (Z.log2_nonneg m); lia).
  destruct (Z.eq_dec (m + 1) (2 ^ Zdigits2 m)) as [E|E].
  - right. split; [ assumption | ].
    apply digits_unique; [ lia | ].
    replace (Zdigits2 m + 1 - 1) with (Zdigits2 m) by lia.
    rewrite Z.pow_add_r, Z.pow_1_r by lia. lia.
  - left. apply digits_unique; [ assumption | lia ].
Qed.

Lemma finite_well_formed :
  forall s m e,
    fexp64 (Zdigits2 (Zpos m) + e) = e -> e <= 971 ->
    well_formed (S754_finite s m e).
Proof.
  intros s m e H1 H2. unfold well_formed, valid_binary, bounded, canonical_mantissa.
  rewrite fexp_eq. simpl Zdigits2 in H1. rewrite H1, Z.eqb_refl.
  apply Z.leb_le. assumption.
Qed.

(** Rounding returns a well formed number. *)
Lemma round_well_formed :
  forall s m e l, 0 <= m -> e <= fexp64 (Zdigits2 m + e) ->
    well_formed (binary_round_aux prec emax s m e l).
Proof.
  intros s m e l Hm He. unfold binary_round_aux.
  pose proof (shr_fexp_spec m e l Hm He) as S1.
  destruct (shr_fexp prec emax m e l) as [r1 e1]. destruct S1 as [E1 M1].
  set (m1 := shr_m r1) in *.
  assert (Hm1 : 0 <= m1) by (rewrite M1; apply Z.shiftr_nonneg; assumption).
  assert (C1 : (m1 = 0 /\ e1 = -1074) \/ (0 < m1 /\ fexp64 (Zdigits2 m1 + e1) = e1)).
  { destruct (Z.eq_dec m1 0) as [Z|Z].
    - left. split; [ assumption | ].
      rewrite Z in M1. symmetry in M1.
      apply shiftr_zero_digits in M1; try lia. unfold fexp64 in *. lia.
    - right. split; [ lia | ].
      rewrite M1, digits_shiftr by lia.
      replace (Zdigits2 m - (e1 - e) + e1) with (Zdigits2 m + e) by lia.
      symmetry; assumption. }
  set (m2 := round_nearest_even m1 (loc_of_shr_record r1)).
  assert (R : m2 = m1 \/ m2 = m1 + 1).
  { unfold m2, round_nearest_even.
    destruct (loc_of_shr_record r1) as [|[ | | ]]; auto.
    destruct (Z.even m1); auto. }
  assert (He2 : 0 <= m2 /\ e1 <= fexp64 (Zdigits2 m2 + e1)).
  { destruct C1 as [[Z1 Z2]|[P1 P2]]; destruct R as [R|R]; rewrite R.
    - rewrite Z1. simpl. unfold fexp64. lia.
    - rewrite Z1. simpl. unfold fexp64. lia.
    - split; [ lia | ]. lia.
    - split; [ lia | ].
      destruct (digits_succ m1 P1) as [D|[_ D]]; rewrite D; unfold fexp64 in *; lia. }
  destruct He2 as [Hm2 He2].
  pose proof (shr_fexp_spec m2 e1 loc_Exact Hm2 He2) as S2.
  destruct (shr_fexp prec emax m2 e1 loc_Exact) as [r2 e2]. destruct S2 as [E2 M2].
  assert (Hm3 : 0 <= shr_m r2)
    by (rewrite M2; apply Z.shiftr_nonneg; assumption).
  assert (G : 0 < shr_m r2 -> fexp64 (Zdigits2 (shr_m r2) + e2) = e2).
  { intros P3. rewrite M2 in P3 |- *. rewrite digits_shiftr by lia.
    replace (Zdigits2 m2 - (e2 - e1) + e2) with (Zdigits2 m2 + e1) by lia.
    symmetry; assumption. }
  destruct (shr_m r2) as [|m3|m3]; try exact eq_refl; try lia.
  destruct (e2 <=? emax - prec) eqn:B; [ | exact eq_refl ].
  apply Z.leb_le in B. apply finite_well_formed; [ apply G; lia | exact B ].
Qed.

(** The quotient computed by the division core has digits to spare. *)
Lemma div_core_spec :
  forall m1 m2, 0 < m1 -> 0 < m2 ->
    let '(q, e, _) := SFdiv_core_binary prec emax m1 0 m2 0 in
    0 <= q /\ e <= fexp64 (Zdigits2 q + e).
Proof.
  intros m1 m2 H1 H2. unfold SFdiv_core_binary. rewrite fexp_eq.
  set (d1 := Zdigits2 m1). set (d2 := Zdigits2 m2).
  set (e := Z.min (fexp64 (d1 + 0 - (d2 + 0))) (0 - 0)).
  set (m := match 0 - 0 - e with
            | 0 => m1 | Z.pos _ => Z.shiftl m1 (0 - 0 - e) | Z.neg _ => 0
            end).
  assert (Hs : 0 <= - e) by (unfold e; lia).
  assert (Hm : m = m1 * 2 ^ (- e)).
  { unfold m. replace (0 - 0 - e) with (- e) by lia.
    destruct (- e) as [|p|p] eqn:E; try lia.
    apply Z.shiftl_mul_pow2; lia. }
  pose proof (Z_div_mod m m2 ltac:(lia)) as DM.
  destruct (Z.div_eucl m m2) as [q r]. destruct DM as [DM1 DM2].
  assert (P : 0 < 2 ^ (- e)) by (apply Z.pow_pos_nonneg; lia).
  assert (Hq : 0 <= q) by nia.
  split; [ assumption | ].
  assert (L : d1 - d2 - e <= Zdigits2 q).
  { pose proof (Zdigits2_nonneg q).
    destruct (Z_le_gt_dec (d1 - d2 - e) 0) as [Le|Gt]; [ lia | ].
    pose proof (digits_bounds m1 H1) as [B1 _].
    pose proof (digits_bounds m2 H2) as [_ B2].
    fold d1 in B1. fold d2 in B2.
    assert (0 < d2) by (unfold d2; rewrite Zdigits2_log2 by assumption;
                        pose proof (Z.log2_nonneg m2); lia).
    assert (0 < d1) by (unfold d1; rewrite Zdigits2_log2 by assumption;
                        pose proof (Z.log2_nonneg m1); lia).
    assert (G : 2 ^ (d1 - d2 - e - 1) <= q).
    { assert (T : 2 ^ (d1 - d2 - e - 1) * 2 ^ d2 = 2 ^ (d1 - 1) * 2 ^ (- e))
        by (rewrite <- !Z.pow_add_r by lia; f_equal; lia).
      assert (0 < 2 ^ (d1 - d2 - e - 1)) by (apply Z.pow_pos_nonneg; lia).
      assert (0 < 2 ^ d2) by (apply Z.pow_pos_nonneg; lia).
      assert (0 < 2 ^ (d1 - 1)) by (apply Z.pow_pos_nonneg; lia).
      nia. }
    assert (0 < q) by (pose proof (Z.pow_pos_nonneg 2 (d1 - d2 - e - 1)); lia).
    rewrite Zdigits2_log2 by assumption.
    apply Z.log2_le_pow2 in G; lia. }
  unfold e in *. unfold fexp64 in *. lia.
Qed.

Lemma of_ratio_well_formed :
  forall neg n d, 0 <= n -> 0 < d -> well_formed (of_ratio neg n d).
Proof.
  intros neg n d Hn Hd. unfold of_ratio.
  destruct (n =? 0) eqn:E; [ reflexivity | ].
  apply Z.eqb_neq in E.
  pose proof (div_core_spec n d ltac:(lia) Hd) as S.
  destruct (SFdiv_core_binary prec emax n 0 d 0) as [[q e] l].
  destruct S as [S1 S2]. apply round_well_formed; assumption.
Qed.

Lemma digits_value_nonneg :
  forall d acc, 0 <= acc -> 0 <= digits_value acc d.
Proof.
  induction d as [|c d IH]; intros acc H; cbn [digits_value];
    [ assumption | ].
  apply IH. lia.
Qed.

Lemma parseFloat_well_formed :
  forall input, well_formed (parseFloat input).
Proof.
  intros input. unfold parseFloat.
  destruct (str_decimal_literal _) as [[[neg|neg d ex] rest]|];
    try reflexivity.
  unfold literal_value, scale10.
  pose proof (digits_value_nonneg d 0 ltac:(lia)).
  destruct (0 <=? ex) eqn:E.
  - apply of_ratio_well_formed; [ | lia ].
    apply Z.leb_le in E. pose proof (Z.pow_pos_nonneg 10 ex). nia.
  - apply of_ratio_well_formed; [ assumption | ].
    apply Z.leb_gt in E. pose proof (Z.pow_pos_nonneg 10 (- ex)). lia.
Qed.

(* ---------------- integers *)

Lemma iter_xO :
  forall d m, Zpos (Pos.iter xO m d) = Zpos m * 2 ^ Zpos d.
Proof.
  induction d as [|d IH] using Pos.peano_ind; intros m.
  - rewrite Z.pow_1_r. simpl. lia.
  - rewrite Pos.iter_succ, Pos2Z.inj_succ, Z.pow_succ_r, Pos2Z.inj_xO, IH
      by lia. ring.
Qed.

Lemma binary_round_small :
  forall s m, Zdigits2 (Zpos m) <= 53 ->
    binary_round prec emax s m 0
    = S754_finite s (aligned (Zpos m)) (Zdigits2 (Zpos m) - 53).
Proof.
  intros s m H. unfold binary_round, shl_align, aligned.
  rewrite fexp_eq. change (Z.abs (Zpos m)) with (Zpos m).
  set (D := Zdigits2 (Zpos m)) in *.
  assert (HD : 0 < D) by (unfold D; simpl; lia).
  change (Z.pos (digits2_pos m)) with D.
  assert (F : fexp64 (D + 0) = D - 53) by (unfold fexp64; lia).
  rewrite F.
  assert (P : 0 < 2 ^ (53 - D)) by (apply Z.pow_pos_nonneg; lia).
  assert (G : binary_round_aux prec emax s (Zpos m * 2 ^ (53 - D) * 2 ^ 0)
                               (D - 53) loc_Exact
              = S754_finite s (Z.to_pos (Zpos m * 2 ^ (53 - D))) (D - 53)).
  { rewrite round_exact; try lia.
    - replace (D - 53 + 0 <=? 971) with true by (symmetry; apply Z.leb_le; lia).
      f_equal. lia.
    - rewrite digits_mul_pow2 by lia. fold D. unfold fexp64. lia. }
  rewrite Z.pow_0_r, Z.mul_1_r in G.
  destruct (D - 53 - 0) as [|d|d] eqn:E; try lia.
  - replace (53 - D) with 0 in G by lia.
    rewrite Z.pow_0_r, Z.mul_1_r in G.
    replace (D - 53) with 0 in G by lia.
    replace (53 - D) with 0 by lia. replace (D - 53) with 0 by lia.
    rewrite Z.pow_0_r, Z.mul_1_r. exact G.
  - rewrite iter_xO. replace (Zpos d) with (53 - D) by lia. exact G.
Qed.

Lemma digits_le_53 : forall n, 0 < n -> n < 2 ^ 53 -> Zdigits2 n <= 53.
Proof.
  intros n H1 H2. rewrite Zdigits2_log2 by assumption.
  apply Z.log2_lt_pow2 in H2; lia.
Qed.

(** An integer of at most 53 bits is a number. *)
Lemma of_Z_small :
  forall n, n <> 0 -> Z.abs n < 2 ^ 53 ->
    of_Z n = S754_finite (n <? 0) (aligned n) (Zdigits2 n - 53).
Proof.
  intros [|p|p] H0 H; try lia; unfold of_Z, binary_normalize.
  - apply binary_round_small. apply digits_le_53; lia.
  - rewrite binary_round_small by (apply digits_le_53; lia). reflexivity.
Qed.

(* ---------------- exact values *)

Lemma exact_finite :
  forall s m e,
    exact (S754_finite s m e) = Some (dyadic (cond_Zopp s (Zpos m)) e).
Proof. reflexivity. Qed.

Lemma dyadic_spec :
  forall n e, (dyadic n e == inject_Z n * inject_Z 2 ^ e)%Q.
Proof.
  intros n e. unfold dyadic. destruct (0 <=? e) eqn:E.
  - apply Z.leb_le in E.
    rewrite inject_Z_mult, Zpower_Qpower by assumption. reflexivity.
  - apply Z.leb_gt in E.
    assert (P : 0 < 2 ^ (- e)) by (apply Z.pow_pos_nonneg; lia).
    rewrite Qmake_Qdiv, Z2Pos.id, Zpower_Qpower by lia.
    remember (- e) as k eqn:K. replace e with (- k) by lia.
    rewrite Qpower_opp. reflexivity.
Qed.

Lemma dyadic_shift :
  forall n j e, 0 <= j -> (dyadic (n * 2 ^ j) (e - j) == dyadic n e)%Q.
Proof.
  intros n j e Hj. rewrite !dyadic_spec.
  rewrite inject_Z_mult, Zpower_Qpower by assumption.
  rewrite <- Qmult_assoc, <- Qpower_plus by discriminate.
  replace (j + (e - j)) with e by lia. reflexivity.
Qed.

Lemma dyadic_mul :
  forall a b e1 e2,
    (dyadic a e1 * dyadic b e2 == dyadic (a * b) (e1 + e2))%Q.
Proof.
  intros a b e1 e2. rewrite !dyadic_spec.
  rewrite inject_Z_mult, Qpower_plus by discriminate. ring.
Qed.

Lemma Qfloor_dyadic :
  forall n e,
    Qfloor (dyadic n e) = if 0 <=? e then n * 2 ^ e else n / 2 ^ (- e).
Proof.
  intros n e. unfold dyadic. destruct (0 <=? e) eqn:E.
  - apply Qfloor_Z.
  - apply Z.leb_gt in E.
    assert (P : 0 < 2 ^ (- e)) by (apply Z.pow_pos_nonneg; lia).
    unfold Qfloor. rewrite Z2Pos.id by lia. reflexivity.
Qed.

Lemma well_formed_inv :
  forall s m e, well_formed (S754_finite s m e) ->
    fexp64 (Zdigits2 (Zpos m) + e) = e /\ e <= 971.
Proof.
  intros s m e H. unfold well_formed, valid_binary, bounded, canonical_mantissa in H.
  apply andb_true_iff in H. destruct H as [H1 H2].
  apply Z.eqb_eq in H1. apply Z.leb_le in H2. split; assumption.
Qed.

(* ---------------- scaling by a power of 1024 *)

Lemma pow1024_value :
  forall power, (power <= 8)%nat ->
    pow1024 power
    = S754_finite false 4503599627370496 (10 * Z.of_nat power - 52).
Proof.
  intros power Hp.
  assert (Hc : In power (seq 0 9)) by (apply in_seq; lia).
  simpl in Hc.
  repeat (destruct Hc as [<- | Hc]; [vm_compute; reflexivity | ]).
  contradiction.
Qed.

Lemma mul_pow1024 :
  forall power s m e,
    (power <= 8)%nat -> well_formed (S754_finite s m e) ->
    let n := shed m e power in
    let e' := e + 10 * Z.of_nat power - 52 + n in
    0 <= n <= 52
    /\ mul (pow1024 power) (S754_finite s m e)
       = if e' <=? 971
         then S754_finite s (Z.to_pos (Zpos m * 2 ^ (52 - n))) e'
         else S754_infinity s.
Proof.
  intros power s m e Hp W n e'.
  apply well_formed_inv in W. destruct W as [W1 W2].
  assert (D1 : 0 < Zdigits2 (Zpos m)) by (simpl; lia).
  assert (Hn : 0 <= n <= 52) by (unfold n, shed, fexp64 in *; lia).
  split; [ assumption | ].
  rewrite pow1024_value by assumption.
  unfold mul, SFmul. cbn [xorb].
  assert (P : 0 < 2 ^ (52 - n)) by (apply Z.pow_pos_nonneg; lia).
  replace (Zpos (4503599627370496 * m))
    with ((Zpos m * 2 ^ (52 - n)) * 2 ^ n).
  - rewrite round_exact; try lia.
    + replace (10 * Z.of_nat power - 52 + e + n) with e' by (unfold e'; lia).
      reflexivity.
    + rewrite digits_mul_pow2 by lia.
      replace (Zdigits2 (Zpos m) + (52 - n) + n + (10 * Z.of_nat power - 52 + e))
        with (Zdigits2 (Zpos m) + e + 10 * Z.of_nat power) by lia.
      unfold n, shed. lia.
  - rewrite <- Z.mul_assoc, <- Z.pow_add_r by lia.
    replace (52 - n + n) with 52 by lia.
    change (2 ^ 52) with 4503599627370496. lia.
Qed.

Lemma cond_Zopp_mul :
  forall s a b, cond_Zopp s (a * b) = cond_Zopp s a * b.
Proof. intros [|] a b; simpl; ring. Qed.

Lemma represents_zero :
  forall s q, represents (S754_zero s) q -> (q == 0)%Q.
Proof. intros s q H. simpl in H. symmetry. exact H. Qed.

(** Multiplying by a unit multiplier is exact unless it overflows. *)
Lemma mul_pow1024_represents :
  forall power x q,
    (power <= 8)%nat -> well_formed x -> represents x q ->
    isFinite (mul (pow1024 power) x) = true ->
    well_formed (mul (pow1024 power) x)
    /\ represents (mul (pow1024 power) x)
                  (q * inject_Z (1024 ^ Z.of_nat power)).
Proof.
  intros power [s|s| |s m e] q Hp W R F; try contradiction.
  - rewrite pow1024_value in * by assumption. split; [ reflexivity | ].
    apply represents_zero in R.
    unfold represents, mul. cbn [SFmul exact]. rewrite R. ring.
  - pose proof (mul_pow1024 power s m e Hp W) as [Hn E].
    apply well_formed_inv in W. destruct W as [W1 W2].
    set (n := shed m e power) in *.
    set (e' := e + 10 * Z.of_nat power - 52 + n) in *.
    rewrite E in *.
    destruct (e' <=? 971) eqn:B; [ | discriminate ].
    apply Z.leb_le in B.
    assert (P : 0 < 2 ^ (52 - n)) by (apply Z.pow_pos_nonneg; lia).
    split.
    + apply finite_well_formed; [ | assumption ].
      rewrite Z2Pos.id, digits_mul_pow2 by lia.
      replace (Zdigits2 (Zpos m) + (52 - n) + e')
        with (Zdigits2 (Zpos m) + e + 10 * Z.of_nat power) by (unfold e'; lia).
      unfold e', n, shed. lia.
    + unfold represents in *. rewrite exact_finite in *.
      rewrite Z2Pos.id, cond_Zopp_mul by lia.
      replace e' with (e + 10 * Z.of_nat power - (52 - n)) by (unfold e'; lia).
      rewrite dyadic_shift by lia.
      rewrite <- R, !dyadic_spec, Qpower_plus by discriminate.
      replace (1024 ^ Z.of_nat power) with (2 ^ (10 * Z.of_nat power))
        by (rewrite Z.pow_mul_r by lia; reflexivity).
      rewrite Zpower_Qpower by lia. ring.
Qed.

Lemma eqb_refl : forall x, eqb x x = true.
Proof.
  intros [s|s| |s m e]; simpl;
    rewrite ?Bool.eqb_reflx, ?Pos.eqb_refl, ?Z.eqb_refl; reflexivity.
Qed.

Lemma eqb_eq : forall x y, eqb x y = true -> x = y.
Proof.
  intros [a|a| |a m e] [b|b| |b m' e'] H; try discriminate; simpl in H.
  - apply Bool.eqb_prop in H. congruence.
  - apply Bool.eqb_prop in H. congruence.
  - reflexivity.
  - apply andb_true_iff in H. destruct H as [H He].
    apply andb_true_iff in H. destruct H as [Hs Hm].
    apply Bool.eqb_prop in Hs. apply Pos.eqb_eq in Hm. apply Z.eqb_eq in He.
    congruence.
Qed.

Lemma aligned_value :
  forall z, z <> 0 -> Zdigits2 z <= 53 ->
    cond_Zopp (z <? 0) (Zpos (aligned z)) = z * 2 ^ (53 - Zdigits2 z).
Proof.
  intros z Hz Hd. unfold aligned.
  assert (P : 0 < 2 ^ (53 - Zdigits2 z)) by (apply Z.pow_pos_nonneg; lia).
  rewrite Z2Pos.id by nia.
  destruct (z <? 0) eqn:E; simpl.
  - apply Z.ltb_lt in E. lia.
  - apply Z.ltb_ge in E. lia.
Qed.

Lemma digits_abs : forall z, Zdigits2 (Z.abs z) = Zdigits2 z.
Proof. intros [|p|p]; reflexivity. Qed.

(** The floor of a small non-zero integer [z], as a number, is the
    number itself and its value is [z]. *)
Lemma of_Z_integer :
  forall z, z <> 0 -> Z.abs z < 2 ^ 53 ->
    represents (of_Z z) (inject_Z z) /\ floor (of_Z z) = of_Z z.
Proof.
  intros z Hz Hb.
  assert (Hd : Zdigits2 z <= 53)
    by (rewrite <- digits_abs; apply digits_le_53; lia).
  pose proof (aligned_value z Hz Hd) as A.
  assert (P : 0 < 2 ^ (53 - Zdigits2 z)) by (apply Z.pow_pos_nonneg; lia).
  rewrite of_Z_small by assumption. split.
  - unfold represents. rewrite exact_finite, A.
    replace (Zdigits2 z - 53) with (0 - (53 - Zdigits2 z)) by lia.
    rewrite dyadic_shift by lia. unfold dyadic. simpl.
    rewrite Z.mul_1_r. reflexivity.
  - unfold floor. destruct (0 <=? Zdigits2 z - 53) eqn:E; [ reflexivity | ].
    rewrite A. replace (- (Zdigits2 z - 53)) with (53 - Zdigits2 z) by lia.
    rewrite Z.div_mul by lia.
    destruct (z =? 0) eqn:Z0; [ apply Z.eqb_eq in Z0; contradiction | ].
    apply of_Z_small; assumption.
Qed.

Lemma floor_negative_exponent :
  forall s m e, e < 0 ->
    floor (S754_finite s m e)
    = let z := cond_Zopp s (Zpos m) / 2 ^ (- e) in
      if z =? 0 then S754_zero false else of_Z z.
Proof.
  intros s m e H. unfold floor.
  replace (0 <=? e) with false by (symmetry; apply Z.leb_gt; assumption).
  reflexivity.
Qed.

(** [Math.floor] of a finite number is the floor of its value, and an
    integral number. *)
Lemma floor_represents :
  forall x q,
    well_formed x -> represents x q ->
    represents (floor x) (inject_Z (Qfloor q))
    /\ floor (floor x) = floor x.
Proof.
  intros [s|s| |s m e] q W R; try contradiction.
  - apply represents_zero in R. rewrite R. split; reflexivity.
  - unfold represents in R. rewrite exact_finite in R.
    rewrite <- R, Qfloor_dyadic.
    destruct (0 <=? e) eqn:E.
    + assert (F : floor (S754_finite s m e) = S754_finite s m e)
        by (unfold floor; rewrite E; reflexivity).
      rewrite !F. split; [ | reflexivity ].
      unfold represents. rewrite exact_finite. unfold dyadic.
      rewrite E. reflexivity.
    + apply Z.leb_gt in E.
      apply well_formed_inv in W. destruct W as [W1 W2].
      assert (D1 : Zdigits2 (Zpos m) <= 53) by (unfold fexp64 in W1; lia).
      pose proof (digits_bounds (Zpos m) ltac:(lia)) as [_ B].
      assert (B53 : Zpos m < 2 ^ 53).
      { eapply Z.lt_le_trans; [ exact B | ].
        apply Z.pow_le_mono_r; lia. }
      assert (P : 0 < 2 ^ (- e)) by (apply Z.pow_pos_nonneg; lia).
      rewrite floor_negative_exponent by assumption.
      cbv zeta.
      set (z := cond_Zopp s (Zpos m) / 2 ^ (- e)).
      assert (Hz : Z.abs z <= Zpos m).
      { unfold z. destruct s; simpl.
        - assert (- Zpos m <= Z.neg m / 2 ^ (- e))
            by (apply Z.div_le_lower_bound; nia).
          assert (Z.neg m / 2 ^ (- e) < 0)
            by (apply Z.div_lt_upper_bound; lia).
          lia.
        - assert (0 <= Zpos m / 2 ^ (- e)) by (apply Z.div_pos; lia).
          assert (Zpos m / 2 ^ (- e) <= Zpos m)
            by (apply Z.div_le_upper_bound; nia).
          lia. }
      destruct (z =? 0) eqn:Z0.
      * apply Z.eqb_eq in Z0. rewrite Z0. split; reflexivity.
      * apply Z.eqb_neq in Z0.
        apply of_Z_integer; [ assumption | lia ].
Qed.

End Binary64.

Import Binary64.

(** ** Unit selection *)

Module UnitSelection.

Lemma thresholds :
  UNIT_THRESHOLDS =
  [ ("YB", pow1024 8); ("ZB", pow1024 7); ("EB", pow1024 6);
    ("PB", pow1024 5); ("TB", pow1024 4); ("GB", pow1024 3);
    ("MB", pow1024 2); ("KB", pow1024 1); ("B", pow1024 0) ].
Proof. reflexivity. Qed.

Lemma abs_opp : forall x, abs (SFopp x) = abs x.
Proof. intros [ | | | ]; reflexivity. Qed.

Lemma abs_finite : forall x, isFinite x = true -> isFinite (abs x) = true.
Proof. intros [ | | | ]; simpl; auto. Qed.

(** On finite numbers [>=] is the negation of [<]. *)
Lemma ge_not_lt :
  forall x y,
    isFinite x = true -> isFinite y = true -> ge x y = negb (lt x y).
Proof.
  intros [sx| | |sx mx ex] [sy| | |sy my ey] Hx Hy; try discriminate;
    unfold ge, lt, SFleb, SFltb; simpl;
    try (destruct sx; reflexivity); try (destruct sy; reflexivity).
  change (Pos.compare_cont Eq my mx) with (Pos.compare my mx).
  change (Pos.compare_cont Eq mx my) with (Pos.compare mx my).
  rewrite (Z.compare_antisym ex ey), (Pos.compare_antisym mx my).
  destruct sx, sy; try reflexivity;
    destruct (ex ?= ey)%Z; simpl; try reflexivity;
    destruct (mx ?= my)%positive; reflexivity.
Qed.

(** A number below 1 is below every threshold. *)
Lemma below_one :
  forall (x : number) (power : nat),
    lt x (of_Z 1) = true -> (power <= 8)%nat ->
    ge x (pow1024 power) = false.
Proof.
  intros x power Hlt Hp.
  change (of_Z 1) with (pow1024 0) in Hlt.
  rewrite pow1024_value in * by lia.
  unfold ge, lt, SFleb, SFltb, SFcompare in *.
  destruct x as [s| s | |s m e]; try discriminate.
  - reflexivity.
  - destruct s; [reflexivity | discriminate].
  - destruct s; [reflexivity|].
    change (10 * Z.of_nat 0 - 52)%Z with (-52)%Z in Hlt.
    destruct (Z.compare_spec e (-52)) as [He|He|He]; try discriminate;
      destruct (Z.compare_spec (10 * Z.of_nat power - 52) e) as [Hq|Hq|Hq];
      try lia; try reflexivity.
    assert (power = 0%nat) by lia. subst power.
    pose proof (Pos.compare_cont_antisym m 4503599627370496%positive Eq) as A.
    cbn [CompOpp] in A. rewrite <- A.
    destruct (Pos.compare_cont Eq m 4503599627370496%positive);
      try discriminate; reflexivity.
Qed.

Lemma scan_below_one :
  forall x, lt x (of_Z 1) = true -> scan x UNIT_THRESHOLDS = "B".
Proof.
  intros x H. rewrite thresholds. cbn [scan].
  rewrite !below_one by (assumption || lia). reflexivity.
Qed.

Ltac largest :=
  split; [ simpl; tauto | split; [ assumption | ] ];
  intros unit' power' Hin Hge; simpl in Hin;
  repeat (destruct Hin as [Heq | Hin];
          [ inversion Heq; subst; try lia; congruence | ]);
  contradiction.

Lemma opp_finite : forall x, isFinite (SFopp x) = isFinite x.
Proof. intros [ | | | ]; reflexivity. Qed.

(** From 1 up the scan stops at the largest multiplier that is at most
    the magnitude. *)
Lemma scan_largest :
  forall magnitude : number,
    isFinite magnitude = true ->
    lt magnitude (of_Z 1) = false ->
    exists power,
      In (scan magnitude UNIT_THRESHOLDS, power) UNITS
      /\ ge magnitude (pow1024 power) = true
      /\ forall unit' power',
          In (unit', power') UNITS ->
          ge magnitude (pow1024 power') = true ->
          (power' <= power)%nat.
Proof.
  intros magnitude Hfin Hlt.
  assert (H0 : ge magnitude (pow1024 0) = true).
  { rewrite ge_not_lt; [ | assumption | reflexivity ].
    change (pow1024 0) with (of_Z 1). rewrite Hlt. reflexivity. }
  rewrite thresholds. cbn [scan].
  destruct (ge magnitude (pow1024 8)) eqn:H8; [exists 8%nat; largest|].
  destruct (ge magnitude (pow1024 7)) eqn:H7; [exists 7%nat; largest|].
  destruct (ge magnitude (pow1024 6)) eqn:H6; [exists 6%nat; largest|].
  destruct (ge magnitude (pow1024 5)) eqn:H5; [exists 5%nat; largest|].
  destruct (ge magnitude (pow1024 4)) eqn:H4; [exists 4%nat; largest|].
  destruct (ge magnitude (pow1024 3)) eqn:H3; [exists 3%nat; largest|].
  destruct (ge magnitude (pow1024 2)) eqn:H2; [exists 2%nat; largest|].
  destruct (ge magnitude (pow1024 1)) eqn:H1; [exists 1%nat; largest|].
  rewrite H0. exists 0%nat; largest.
Qed.

(** [formatBytes] formats a finite value with the unit that
    [resolveUnit] returns for its absolute value. *)
Lemma formats_with_resolved :
  forall (value : number) (options : Format.Options),
    isFinite value = true ->
    formats_with value options
                 (resolveUnit (abs value) (Format.unit options)).
Proof.
  intros value options Hfin. unfold formats_with, formatBytes.
  rewrite Hfin. cbn [negb]. cbv zeta.
  destruct (formatValue value _ _ _ _) as [str|e]; cbn [bind].
  - exists str. split; reflexivity.
  - reflexivity.
Qed.

(** C4. For a finite value and no accepted forced unit, [formatBytes]
    formats with the unit that is [B] when the absolute value is below 1
    and otherwise the unit of the largest of the nine multipliers that is
    at most the absolute value (so YB for anything from 1024^8 up); it
    formats the value of the opposite sign with the same unit; and it
    formats 1024 itself with [KB]. *)
Theorem auto_unit_selection :
  forall (value : number) (options : Format.Options),
    isFinite value = true ->
    explicit (Format.unit options) = None ->
    let magnitude := abs value in
    let unit := resolveUnit magnitude (Format.unit options) in
    (if lt magnitude (of_Z 1) then unit = "B"
     else exists power,
         In (unit, power) UNITS
         /\ ge magnitude (pow1024 power) = true
         /\ forall unit' power',
             In (unit', power') UNITS ->
             ge magnitude (pow1024 power') = true ->
             (power' <= power)%nat)
    /\ formats_with value options unit
    /\ formats_with (SFopp value) options unit
    /\ formats_with (of_Z 1024) options "KB"
    /\ formats_with (of_Z (2 ^ 100)) options "YB".
Proof.
  intros value options Hfin Hexp magnitude unit.
  assert (R : forall v,
             resolveUnit (abs v) (Format.unit options)
             = scan (abs v) UNIT_THRESHOLDS)
    by (intros v; unfold resolveUnit; rewrite Hexp; reflexivity).
  split; [ | split; [ | split; [ | split ] ] ].
  - subst unit magnitude. rewrite R.
    destruct (lt (abs value) (of_Z 1)) eqn:Hlt.
    + apply scan_below_one; assumption.
    + apply scan_largest; [ apply abs_finite | ]; assumption.
  - apply formats_with_resolved. exact Hfin.
  - subst unit magnitude. rewrite <- (abs_opp value).
    apply formats_with_resolved. rewrite opp_finite. exact Hfin.
  - replace "KB" with (resolveUnit (abs (of_Z 1024)) (Format.unit options))
      by (rewrite R; vm_compute; reflexivity).
    apply formats_with_resolved. reflexivity.
  - replace "YB"
      with (resolveUnit (abs (of_Z (2 ^ 100))) (Format.unit options))
      by (rewrite R; vm_compute; reflexivity).
    apply formats_with_resolved. reflexivity.
Qed.

(** The theorem at the value -1048576 with the forced unit [INVALID]:
    1024^2 is the largest multiplier that is at most 1048576, and both
    -1048576 and 1048576 are formatted with [MB]. *)
Lemma auto_unit_selection_witness :
  (exists power,
      In ("MB", power) UNITS
      /\ ge (abs (of_Z (-1048576))) (pow1024 power) = true
      /\ forall unit' power',
          In (unit', power') UNITS ->
          ge (abs (of_Z (-1048576))) (pow1024 power') = true ->
          (power' <= power)%nat)
  /\ formats_with (of_Z (-1048576)) unit_invalid "MB"
  /\ formats_with (SFopp (of_Z (-1048576))) unit_invalid "MB"
  /\ formats_with (of_Z 1024) unit_invalid "KB"
  /\ formats_with (of_Z (2 ^ 100)) unit_invalid "YB".
Proof.
  exact (auto_unit_selection (of_Z (-1048576)) unit_invalid eq_refl eq_refl).
Defined.

End UnitSelection.

(** ** The strict pattern *)

Module StrictMatch.

Import Regex.

(** Whatever a pattern returns, its continuation returned it. *)
Lemma run_continues :
  forall icase r st k res,
    run icase r st k = Some res -> exists st', k st' = Some res.
Proof.
  intros icase r. induction r as [ |c|p|r1 IH1 r2 IH2|r1 IH1 r2 IH2|r1 IH1
                                   |i r1 IH1| | | |r1 IH1|r1 IH1];
    intros st k res H; cbn [run] in H.
  - eauto.
  - destruct (step st) as [[d st']|]; [ | discriminate ].
    destruct (same icase c d); [ eauto | discriminate ].
  - destruct (step st) as [[d st']|]; [ | discriminate ].
    destruct (p d); [ eauto | discriminate ].
  - apply IH1 in H. destruct H as [st1 H]. apply IH2 in H. exact H.
  - destruct (run icase r1 st k) eqn:E.
    + inversion H; subst. eapply IH1; eassumption.
    + eapply IH2; eassumption.
  - remember (S (String.length (after st))) as n eqn:En. clear En.
    revert st H. induction n as [|n IHn]; intros st H; cbn [star_loop] in H.
    + eauto.
    + destruct (run icase r1 st _) eqn:E; [ | eauto ].
      inversion H; subst. apply IH1 in E. destruct E as [st1 E].
      destruct (String.length (after st1) <? String.length (after st))%nat;
        [ | discriminate ].
      eapply IHn; eassumption.
  - apply IH1 in H. destruct H as [st1 H]. eauto.
  - destruct (before st); [ eauto | discriminate ].
  - destruct (after st); [ eauto | discriminate ].
  - destruct (Bool.eqb _ _); [ eauto | discriminate ].
  - destruct (run icase r1 st Some); [ eauto | discriminate ].
  - destruct (run icase r1 st Some); [ discriminate | eauto ].
Qed.

Lemma step_length :
  forall st d st',
    step st = Some (d, st') ->
    caps st' = caps st
    /\ String.length (after st) = S (String.length (after st')).
Proof.
  intros st d st' H. unfold step in H.
  destruct (after st) as [|c rest] eqn:E; [ discriminate | ].
  inversion H; subst. simpl. auto.
Qed.

Lemma run_simple :
  forall icase r st k res,
    simple r = true ->
    run icase r st k = Some res ->
    exists st',
      k st' = Some res /\ caps st' = caps st
      /\ (String.length (after st) <= String.length (after st') + width r)%nat
      /\ (String.length (after st') <= String.length (after st))%nat.
Proof.
  intros icase r. induction r as [ |c|p|r1 IH1 r2 IH2|r1 IH1 r2 IH2|r1 IH1
                                   |i r1 IH1| | | |r1 IH1|r1 IH1];
    intros st k res S H; cbn [run simple width] in *; try discriminate.
  - exists st. repeat split; auto; lia.
  - destruct (step st) as [[d st']|] eqn:E; [ | discriminate ].
    destruct (same icase c d); [ | discriminate ].
    apply step_length in E. destruct E as [E1 E2].
    exists st'. repeat split; auto; lia.
  - destruct (step st) as [[d st']|] eqn:E; [ | discriminate ].
    destruct (p d); [ | discriminate ].
    apply step_length in E. destruct E as [E1 E2].
    exists st'. repeat split; auto; lia.
  - apply andb_true_iff in S. destruct S as [S1 S2].
    apply (IH1 _ _ _ S1) in H. destruct H as (st1 & H & C1 & L1 & U1).
    apply (IH2 _ _ _ S2) in H. destruct H as (st2 & H & C2 & L2 & U2).
    exists st2. repeat split; [ assumption | congruence | lia | lia ].
  - apply andb_true_iff in S. destruct S as [S1 S2].
    destruct (run icase r1 st k) eqn:E.
    + inversion H; subst.
      apply (IH1 _ _ _ S1) in E. destruct E as (st1 & E & C1 & L1 & U1).
      exists st1. repeat split; [ assumption | assumption | lia | lia ].
    + apply (IH2 _ _ _ S2) in H. destruct H as (st1 & E' & C1 & L1 & U1).
      exists st1. repeat split; [ assumption | assumption | lia | lia ].
Qed.

Lemma search_inv :
  forall icase r a b st st',
    search icase r b a = Some (st, st') ->
    run icase r st Some = Some st'.
Proof.
  intros icase r a. induction a as [|c a IH]; intros b st st' H;
    cbn [search] in H; unfold match_at in H.
  - destruct (run icase r (mkState b "" []) Some) eqn:E; [ | discriminate ].
    inversion H; subst. exact E.
  - destruct (run icase r (mkState b (String c a) []) Some) eqn:E.
    + inversion H; subst. exact E.
    + eapply IH; eassumption.
Qed.

Lemma take_length :
  forall n s, (String.length (JsString.take n s) <= n)%nat.
Proof.
  induction n as [|n IH]; intros [|c s]; simpl; try lia.
  specialize (IH s). lia.
Qed.

(** The unit that the strict pattern captures has at most two
    characters. *)
Lemma strict_unit_length :
  forall trimmed strictMatch,
    exec true PARSE_RE trimmed = Some strictMatch ->
    exists g, capture 2 strictMatch = Some g /\ (String.length g <= 2)%nat.
Proof.
  intros trimmed strictMatch H. unfold exec in H.
  destruct (search true PARSE_RE "" trimmed) as [[st st']|] eqn:E;
    [ | discriminate ].
  inversion H; subst strictMatch. apply search_inv in E.
  unfold PARSE_RE in E.
  change (run true (Seq ?a ?b) ?s ?k)
    with (run true a s (fun s' => run true b s' k)) in E.
  apply run_continues in E. destruct E as [st1 E].
  change (run true (Seq ?a ?b) ?s ?k)
    with (run true a s (fun s' => run true b s' k)) in E.
  apply run_continues in E. destruct E as [st2 E].
  change (run true (Seq ?a ?b) ?s ?k)
    with (run true a s (fun s' => run true b s' k)) in E.
  apply run_continues in E. destruct E as [st3 E].
  change (run true (Seq (Group 2 ?a) Eol) ?s ?k)
    with (run true a s
            (fun s' => run true Eol
                         (mkState (before s') (after s')
                                  ((2%nat, consumed s s') :: caps s')) k)) in E.
  apply run_simple in E; [ | reflexivity ].
  destruct E as (st4 & E & _ & L & U).
  cbn [run after] in E.
  destruct (after st4) eqn:A4; [ | discriminate ].
  inversion E; subst st'. cbn [caps capture Nat.eqb].
  eexists; split; [ reflexivity | ].
  unfold consumed. etransitivity; [ apply take_length | ].
  change (width _) with 2%nat in L. rewrite A4. cbn [String.length] in *. lia.
Qed.

Lemma map_chars_length :
  forall f s, String.length (JsString.map_chars f s) = String.length s.
Proof. induction s as [|c s IH]; simpl; congruence. Qed.

Lemma inherited_length :
  forall key, inherited key = true -> (3 <= String.length key)%nat.
Proof.
  intros key H. unfold inherited, Object_prototype in H. cbn [existsb] in H.
  repeat (apply orb_true_iff in H; destruct H as [H|H];
          [ apply String.eqb_eq in H; subst key; simpl; lia | ]).
  discriminate.
Qed.

(** The unit that [parseInput] returns has a multiplier of its own in the
    table. *)
Lemma parseInput_unit :
  forall val parsed,
    parseInput val = Some parsed ->
    exists k, own UNIT_VALUE_BY_LOWER (unit parsed) = Some k.
Proof.
  intros val parsed H. unfold parseInput in H.
  destruct (exec true PARSE_RE (JsString.trim val)) as [caps|] eqn:X.
  - destruct (strict_unit_length _ _ X) as (g & G & L). rewrite G in H.
    unfold toByteUnit in H.
    destruct (has UNIT_VALUE_BY_LOWER (JsString.toLowerCase g)) eqn:Hh;
      [ | discriminate ].
    destruct (isFinite _ && _); [ | discriminate ].
    inversion H; subst parsed. cbn [unit].
    unfold has in Hh.
    destruct (own UNIT_VALUE_BY_LOWER (JsString.toLowerCase g)) as [k|];
      [ eauto | ].
    apply inherited_length in Hh.
    unfold JsString.toLowerCase in Hh. rewrite map_chars_length in Hh. lia.
  - destruct (isFinite _); [ | discriminate ].
    inversion H; subst parsed. cbn [unit]. eexists; reflexivity.
Qed.

End StrictMatch.

Import StrictMatch.

(** ** Parsing *)

Module Parsing.

(** What [parseBytes] returns for a string that [parseInput] accepts. *)
Lemma parseBytes_accepted :
  forall val parsed options,
    parseInput val = Some parsed ->
    parseBytes (Parse.Str val) options
    = Some (Parse.shaped (Parse.output options)
                         (toBytes (floatValue parsed) (unit parsed))
                         (JsString.toUpperCase (unit parsed))
                         (floatValue parsed)).
Proof.
  intros val parsed [[[ | | ]|]] H; unfold parseBytes; rewrite H; reflexivity.
Qed.

Lemma parseBytes_rejected :
  forall val options,
    parseInput val = None -> parseBytes (Parse.Str val) options = None.
Proof. intros val options H. unfold parseBytes. rewrite H. reflexivity. Qed.

(** The magnitude that [parseInput] returns is a finite binary64 number. *)
Lemma parseInput_magnitude :
  forall val parsed,
    parseInput val = Some parsed ->
    well_formed (floatValue parsed) /\ isFinite (floatValue parsed) = true.
Proof.
  intros val parsed H. unfold parseInput in H.
  destruct (Regex.exec true PARSE_RE (JsString.trim val)) as [caps|].
  - destruct (toByteUnit _) as [u|]; [ | discriminate ].
    destruct (isFinite _ && JsString.truthy u) eqn:E; [ | discriminate ].
    apply andb_true_iff in E. destruct E as [E _].
    inversion H; subst; simpl. split; [ apply parseFloat_well_formed | exact E ].
  - destruct (isFinite (parseFloat (JsString.trim val))) eqn:E; [ | discriminate ].
    inversion H; subst; simpl. split; [ apply parseFloat_well_formed | exact E ].
Qed.

Lemma lower_table :
  UNIT_VALUE_BY_LOWER =
  [ ("b", pow1024 0); ("kb", pow1024 1); ("mb", pow1024 2);
    ("gb", pow1024 3); ("tb", pow1024 4); ("pb", pow1024 5);
    ("eb", pow1024 6); ("zb", pow1024 7); ("yb", pow1024 8) ].
Proof. reflexivity. Qed.

(** A unit with a multiplier of its own in the table: the multiplier is a
    power of 1024, the upper case unit is the label of that power, and
    [toBytes] multiplies by the multiplier and floors. *)
Lemma multiplier_inv :
  forall unit k,
    own UNIT_VALUE_BY_LOWER unit = Some k ->
    exists power,
      (power <= 8)%nat /\ k = pow1024 power
      /\ In (JsString.toUpperCase unit, power) UNITS
      /\ forall floatValue, toBytes floatValue unit = floor (mul k floatValue).
Proof.
  intros unit k H. rewrite lower_table in H. cbn [own] in H.
  repeat
    match type of H with
    | (if String.eqb ?a unit then _ else _) = _ =>
        destruct (String.eqb_spec a unit) as [<-|_];
        [ inversion H; subst k;
          eexists; split;
          [ | split; [ reflexivity
                     | split; [ simpl; tauto | intros f; reflexivity ] ] ];
          lia
        | ]
    end.
  discriminate.
Qed.

Lemma exact_finite_some :
  forall x, isFinite x = true -> exists q, exact x = Some q.
Proof.
  intros [s|s| |s m e] H; try discriminate; eexists; reflexivity.
Qed.

Lemma represents_finite :
  forall x q, represents x q -> isFinite x = true.
Proof. intros [s|s| |s m e] q H; try contradiction; reflexivity. Qed.

Lemma floor_not_finite :
  forall x, isFinite x = false -> floor x = x.
Proof. intros [s|s| |s m e] H; try discriminate; reflexivity. Qed.

(** The byte count of an accepted string: the floor of the product of the
    multiplier of its unit with the magnitude, which is the floor of the
    exact product, and an integral number, whenever the product is
    finite. *)
Lemma bytes_of_accepted :
  forall val parsed,
    parseInput val = Some parsed ->
    exists power,
      In (JsString.toUpperCase (unit parsed), power) UNITS
      /\ own UNIT_VALUE_BY_LOWER (unit parsed) = Some (pow1024 power)
      /\ let product := mul (pow1024 power) (floatValue parsed) in
         toBytes (floatValue parsed) (unit parsed) = floor product
         /\ (isFinite product = true ->
             exists qm,
               exact (floatValue parsed) = Some qm
               /\ represents (floor product)
                     (inject_Z (Qfloor (qm * inject_Z (1024 ^ Z.of_nat power))))
               /\ floor (floor product) = floor product).
Proof.
  intros val parsed Hp.
  destruct (parseInput_unit _ _ Hp) as [k Hk].
  destruct (multiplier_inv _ _ Hk) as (power & Hle & -> & Hin & Hb).
  destruct (parseInput_magnitude _ _ Hp) as [W F].
  exists power. split; [ assumption | ]. split; [ assumption | ].
  split; [ apply Hb | ].
  intros Fin.
  destruct (exact_finite_some _ F) as [qm Em].
  assert (Rm : represents (floatValue parsed) qm)
    by (unfold represents; rewrite Em; reflexivity).
  destruct (mul_pow1024_represents power _ qm Hle W Rm Fin) as [Wp Rp].
  destruct (floor_represents _ _ Wp Rp) as [Rf If].
  exists qm. repeat split; assumption.
Qed.

Lemma mul_one :
  forall x, well_formed x -> isFinite x = true -> mul (pow1024 0) x = x.
Proof.
  intros [s|s| |s m e] W F; try discriminate.
  - rewrite pow1024_value by lia. reflexivity.
  - destruct (mul_pow1024 0 s m e ltac:(lia) W) as [_ E].
    apply well_formed_inv in W. destruct W as [W1 W2].
    assert (N : shed m e 0 = 52%Z).
    { unfold shed. replace (Zdigits2 (Zpos m) + e + 10 * Z.of_nat 0)%Z
        with (Zdigits2 (Zpos m) + e)%Z by lia. lia. }
    rewrite N in E. rewrite E.
    replace (e + 10 * Z.of_nat 0 - 52 + 52)%Z with e by lia.
    replace (e <=? 971)%Z with true by (symmetry; apply Z.leb_le; assumption).
    rewrite Z.sub_diag, Z.pow_0_r, Z.mul_1_r. reflexivity.
Qed.

(** C2, as the specification words it, fails: [12abc] is neither a
    strict match nor a number, and [parseBytes] returns 12 for it. *)
Lemma absent_unless_numeric_fails :
  ~ Spec.absent_unless_numeric "12abc".
Proof.
  intros H. specialize (H eq_refl eq_refl). vm_compute in H. discriminate.
Qed.

(** C2, amended. When the trimmed string fails the strict match, the
    fallback is [Number.parseFloat]: it reads the longest prefix of the
    trimmed string that is a decimal literal and ignores what follows it.
    [parseBytes] returns the floor of the value of that literal, with unit
    [B], when the literal exists and its value is finite, and [null]
    otherwise. *)
Theorem fallback_reads_numeric_prefix :
  forall (val : string) (options : Parse.Options),
    let trimmed := JsString.trim val in
    Regex.exec true PARSE_RE trimmed = None ->
    match str_decimal_literal (JsString.trimStart trimmed) with
    | Some (l, rest) =>
        if isFinite (literal_value l)
        then parseBytes (Parse.Str val) options
             = Some (Parse.shaped (Parse.output options)
                                  (floor (literal_value l)) "B"
                                  (literal_value l))
        else parseBytes (Parse.Str val) options = None
    | None => parseBytes (Parse.Str val) options = None
    end.
Proof.
  intros val options trimmed H.
  pose proof (parseFloat_well_formed trimmed) as W.
  assert (P : parseInput val
              = if isFinite (parseFloat trimmed)
                then Some (mkParsedInput (parseFloat trimmed) "b") else None)
    by (unfold parseInput; fold trimmed; rewrite H; reflexivity).
  unfold parseFloat in *.
  destruct (str_decimal_literal (JsString.trimStart trimmed)) as [[l rest]|].
  - destruct (isFinite (literal_value l)) eqn:F.
    + rewrite (parseBytes_accepted _ _ _ P). cbn [floatValue unit].
      change (toBytes (literal_value l) "b")
        with (floor (mul (pow1024 0) (literal_value l))).
      rewrite mul_one by assumption. reflexivity.
    + apply parseBytes_rejected; assumption.
  - apply parseBytes_rejected; assumption.
Qed.

(** The theorem at ["12abc"]: the result is 12. *)
Lemma fallback_reads_numeric_prefix_witness :
  parseBytes (Parse.Str "12abc") Parse.empty = Some (Parse.Scalar (of_Z 12)).
Proof.
  exact (fallback_reads_numeric_prefix "12abc" Parse.empty eq_refl).
Defined.




(** C7, as the specification words it, fails: the byte count returned
    for the number 1.5 is 1.5. *)
Lemma integer_byte_count_fails :
  ~ Spec.integer_byte_count (Parse.Num one_and_a_half) Parse.empty.
Proof.
  intros H. specialize (H _ eq_refl). vm_compute in H. discriminate.
Qed.

(** C7, amended. A result for a finite number carries that number itself
    as byte count, unit [B] and value, in every shape, integral or not. A
    result for a string carries as byte count [Math.floor] of the product
    of the multiplier of the unit with the magnitude, which is an integral
    number whenever that product is finite. *)
Theorem byte_count_of_result :
  forall (val : Parse.Input) (options : Parse.Options) (result : Parse.Result),
    parseBytes val options = Some result ->
    match val with
    | Parse.Num n =>
        isFinite n = true
        /\ result = Parse.shaped (Parse.output options) n "B" n
        /\ Parse.bytes_of result = n
    | Parse.Str s =>
        exists parsed power,
          parseInput s = Some parsed
          /\ In (JsString.toUpperCase (unit parsed), power) UNITS
          /\ Parse.bytes_of result
             = floor (mul (pow1024 power) (floatValue parsed))
          /\ (isFinite (mul (pow1024 power) (floatValue parsed)) = true ->
              Spec.is_integer (Parse.bytes_of result) = true)
    end.
Proof.
  intros [s|n] options result H.
  - unfold parseBytes in H.
    destruct (parseInput s) as [parsed|] eqn:P; [ | discriminate ].
    destruct (bytes_of_accepted s parsed P) as (power & Hin & _ & B & E).
    exists parsed, power. split; [ reflexivity | ]. split; [ assumption | ].
    assert (Hb : Parse.bytes_of result
                 = toBytes (floatValue parsed) (unit parsed))
      by (destruct options as [[[ | | ]|]]; inversion H; reflexivity).
    rewrite Hb, B. split; [ reflexivity | ]. intros F.
    destruct (E F) as (qm & _ & R & I).
    unfold Spec.is_integer.
    rewrite (represents_finite _ _ R), I, eqb_refl. reflexivity.
  - unfold parseBytes in H.
    destruct (isFinite n) eqn:F; [ | discriminate ].
    destruct options as [[[ | | ]|]]; inversion H; repeat split; reflexivity.
Qed.

(** The theorem at the number 1.5, which is returned as it is. *)
Lemma byte_count_of_result_witness :
  Parse.bytes_of (Parse.Scalar one_and_a_half) = one_and_a_half.
Proof.
  apply (byte_count_of_result (Parse.Num one_and_a_half) Parse.empty
                              (Parse.Scalar one_and_a_half) eq_refl).
Defined.

End Parsing.

(** ** Formatting *)

Module Formatting.

(** C1. [parseBytes(formatBytes(v))] is exactly [v] for
    v = 1024, 1024^2, 1024^3, 1024^4 and 1024^5, with default options. *)
Theorem roundtrip_powers :
  Forall (fun v => roundtrip (of_Z v) = Some (Parse.Scalar (of_Z v)))
         [1024; 1048576; 1073741824; 1024 ^ 4; 1024 ^ 5]%Z.
Proof.
  repeat constructor; vm_compute; reflexivity.
Qed.

(** C3, at the inputs where the code departs from it. With three decimal
    places 2.05 is rendered as [2.050] and 1034 bytes as [1.010] KB: a
    trailing zero that follows a zero inside the fraction is kept, although
    [fixedDecimals] is false. [2.00] and [2.50] are stripped as the claim
    says. *)
Theorem trailing_zero_kept :
  formatValue two_point_zero_five "B" (of_Z 3) false "" = Normal "2.050"
  /\ Spec.stripped "2.050" = false
  /\ formatBytes (of_Z 1034) three_places
     = Normal (Some (Format.Scalar "1.010KB"))
  /\ formatValue (of_Z 2) "B" (of_Z 2) false "" = Normal "2"
  /\ formatValue (of_ratio false 5 2) "B" (of_Z 2) false "" = Normal "2.5".
Proof.
  repeat split; vm_compute; reflexivity.
Qed.

(** C8. Whatever the options, output shape included, [formatBytes] of
    NaN, of +Infinity and of -Infinity returns [null] and does not
    throw. *)
Theorem formatBytes_non_finite :
  forall options : Format.Options,
    formatBytes NaN options = Normal None
    /\ formatBytes Infinity options = Normal None
    /\ formatBytes (S754_infinity true) options = Normal None.
Proof.
  intros options; split; [ | split ]; reflexivity.
Qed.

(** C10, at an input where the code departs from it. The forced unit
    [constructor] is a key that the unit table inherits, so [resolveUnit]
    returns [CONSTRUCTOR], which is none of the nine labels, the divisor
    is [undefined], and [formatBytes(1, { unit: 'constructor' })] is
    [NaNCONSTRUCTOR]. *)
Theorem inherited_key_is_accepted :
  resolveUnit (abs (of_Z 1)) (Some "constructor") = "CONSTRUCTOR"
  /\ Spec.canonical_label "CONSTRUCTOR" = false
  /\ formatValue (of_Z 1) "CONSTRUCTOR" (of_Z 2) false "" = Normal "NaN"
  /\ formatBytes (of_Z 1) unit_constructor
     = Normal (Some (Format.Scalar "NaNCONSTRUCTOR")).
Proof.
  repeat split; vm_compute; reflexivity.
Qed.

End Formatting.

(** ** Error modes *)

Module ErrorModes.

(** The options that the wrappers pass on select the same shape. *)
Lemma parseBytes_default_shape :
  forall val,
    parseBytes val (Parse.mkOptions (Some Parse.number_))
    = parseBytes val Parse.empty.
Proof. intros [s|n]; reflexivity. Qed.

(** C9. [safeParseBytes] fails exactly when [parseBytes] returns [null];
    the error is the TypeError whose message is [Invalid byte value: ]
    followed by the quoted input for a string and by its literal text for
    a number; [parseBytesOrThrow] throws that error exactly then, and
    otherwise both give the value that [parseBytes] returns for the same
    options. *)
Theorem error_modes :
  forall (val : Parse.Input) (options : Parse.Options),
    match parseBytes val options with
    | None =>
        safeParseBytes val options
        = Parse.Failure (TypeError ("Invalid byte value: " ++ shown val))
        /\ parseBytesOrThrow val options
           = Throw (TypeError ("Invalid byte value: " ++ shown val))
    | Some result =>
        safeParseBytes val options = Parse.Success result
        /\ parseBytesOrThrow val options = Normal result
    end
    /\ safeParseBytes (Parse.Str "bad") options
       = Parse.Failure
           (TypeError ("Invalid byte value: " ++
                       JsString.quote ++ "bad" ++ JsString.quote))
    /\ safeParseBytes (Parse.Num NaN) options
       = Parse.Failure (TypeError "Invalid byte value: NaN").
Proof.
  intros val options; split.
  - unfold parseBytesOrThrow, safeParseBytes, invalidValueError.
    destruct options as [[[ | | ]|]]; cbn [Parse.output];
      rewrite ?parseBytes_default_shape; unfold Parse.empty;
      match goal with
      | |- context [parseBytes val ?o] => destruct (parseBytes val o)
      end; split; reflexivity.
  - destruct options as [[[ | | ]|]]; split; reflexivity.
Qed.

End ErrorModes.

(** ** The logarithm based unit selection *)

Module LogBased.

Import UnitSelection.

(** Whatever [Math.log] computes, the two [resolveUnit] agree when a
    forced unit is accepted and when the magnitude is below 1. From 1 up
    the result of the second one is a function of what [Math.log]
    returns. *)
Lemma agree_below_one :
  forall (Math_log : number -> number) magnitude preferredUnit,
    lt magnitude (of_Z 1) = true ->
    LogUtils.resolveUnit Math_log magnitude preferredUnit
    = Some (resolveUnit magnitude preferredUnit).
Proof.
  intros Math_log magnitude preferredUnit H.
  unfold LogUtils.resolveUnit, resolveUnit.
  destruct (explicit preferredUnit); [ reflexivity | ].
  rewrite H, scan_below_one by assumption. reflexivity.
Qed.

Lemma agree_when_forced :
  forall (Math_log : number -> number) magnitude preferredUnit explicitUnit,
    explicit preferredUnit = Some explicitUnit ->
    LogUtils.resolveUnit Math_log magnitude preferredUnit
    = Some (resolveUnit magnitude preferredUnit).
Proof.
  intros Math_log magnitude preferredUnit explicitUnit H.
  unfold LogUtils.resolveUnit, resolveUnit. rewrite H. reflexivity.
Qed.

(** [UNITS[e]] is the label of a unit exactly when [e] is the index of
    the unit. *)
Lemma at_index_label :
  forall (e : number) (label : string) (power : nat),
    In (label, power) UNITS ->
    LogUtils.at_index e = Some label <-> is_index e power = true.
Proof.
  intros e label power H.
  assert (F : forall k : nat,
             (1 <= k <= 8)%nat ->
             eqb e (of_Z (Z.of_nat k)) = true ->
             LogUtils.at_index e = nth_error LogUtils.UNITS k).
  { intros k Hk E. apply Binary64.eqb_eq in E. subst e.
    destruct k as [|[|[|[|[|[|[|[|[|k]]]]]]]]]; try lia;
      vm_compute; reflexivity. }
  cbn [UNITS In] in H.
  destruct e as [s|s| |s m x].
  - repeat (destruct H as [H|H];
            [ injection H as <- <-; split; intros A;
              first [ reflexivity | discriminate A ] | ]).
    contradiction.
  - repeat (destruct H as [H|H];
            [ injection H as <- <-; split; intros A;
              first [ destruct s; discriminate A ] | ]).
    contradiction.
  - repeat (destruct H as [H|H];
            [ injection H as <- <-; split; intros A; discriminate A | ]).
    contradiction.
  - assert (G : forall label',
               LogUtils.at_index (S754_finite s m x) = Some label' ->
               exists k : nat,
                 (1 <= k <= 8)%nat
                 /\ eqb (S754_finite s m x) (of_Z (Z.of_nat k)) = true
                 /\ nth_error LogUtils.UNITS k = Some label').
    { intros label' A. unfold LogUtils.at_index in A.
      destruct (find (fun i : nat =>
                        eqb (S754_finite s m x) (of_Z (Z.of_nat i)))
                     (seq 1 8)) as [k|] eqn:Fk; [ | discriminate A ].
      apply find_some in Fk. destruct Fk as [Ik Ek].
      apply in_seq in Ik. exists k. split; [ lia | split; assumption ]. }
    repeat (destruct H as [H|H];
            [ injection H as <- <-; split; intros A;
              [ destruct (G _ A) as (k & Hk & Ek & Nk);
                destruct k as [|[|[|[|[|[|[|[|[|k]]]]]]]]]; try lia;
                first [ discriminate Nk | exact Ek ]
              | cbn [is_index] in A;
                first [ discriminate A
                      | match type of A with
                        | eqb _ (of_Z (Z.of_nat ?k)) = true =>
                            rewrite (F k ltac:(lia) A); reflexivity
                        end ] ]
            | ]).
    contradiction.
Qed.

(** With a logarithm that returns the nearest number at 1024 and just
    below it, the second [resolveUnit] returns [KB] just below 1024,
    where the threshold scan returns [B]. *)
Lemma disagree_below_1024 :
  forall Math_log : number -> number,
    rounds_at_1024 Math_log ->
    LogUtils.resolveUnit Math_log below_1024 None = Some "KB"
    /\ resolveUnit below_1024 None = "B".
Proof.
  intros Math_log [R1 R2]. split; [ | vm_compute; reflexivity ].
  unfold LogUtils.resolveUnit, LogUtils.LOG_1024.
  rewrite R1, R2. vm_compute. reflexivity.
Qed.

(** C5, as the specification words it, fails: just below 1024 the two
    return different labels with every logarithm that returns the
    nearest number there and at 1024. *)
Lemma same_unit_fails :
  ~ exists Math_log : number -> number,
      rounds_at_1024 Math_log
      /\ Spec.same_unit Math_log below_1024 None.
Proof.
  intros (Math_log & R & H).
  destruct (disagree_below_1024 Math_log R) as [A B].
  specialize (H eq_refl eq_refl). rewrite A, B in H. discriminate H.
Qed.

(** C5, amended. Whatever [Math.log] computes, the two [resolveUnit]
    return the same label when the forced unit is accepted and when the
    magnitude is below 1. For a finite magnitude from 1 up and no accepted
    forced unit, the threshold scan returns the unit of the largest
    multiplier that is at most the magnitude, and the second returns the
    same label exactly when the index it computes, the floor of the
    quotient of the logarithms with 8 in the place of anything larger, is
    the index of that unit. *)
Theorem same_unit_iff_index :
  forall (Math_log : number -> number) (magnitude : number)
         (preferredUnit : option string),
    isFinite magnitude = true ->
    (explicit preferredUnit <> None \/ lt magnitude (of_Z 1) = true ->
     LogUtils.resolveUnit Math_log magnitude preferredUnit
     = Some (resolveUnit magnitude preferredUnit))
    /\ (explicit preferredUnit = None ->
        lt magnitude (of_Z 1) = false ->
        exists power,
          In (resolveUnit magnitude preferredUnit, power) UNITS
          /\ ge magnitude (pow1024 power) = true
          /\ (forall unit' power',
                 In (unit', power') UNITS ->
                 ge magnitude (pow1024 power') = true ->
                 (power' <= power)%nat)
          /\ (LogUtils.resolveUnit Math_log magnitude preferredUnit
              = Some (resolveUnit magnitude preferredUnit)
              <-> is_index (log_index Math_log magnitude) power = true)).
Proof.
  intros Math_log magnitude preferredUnit Hfin. split.
  - intros [H|H].
    + destruct (explicit preferredUnit) as [explicitUnit|] eqn:E;
        [ | contradiction ].
      apply (agree_when_forced Math_log magnitude preferredUnit
                                        explicitUnit E).
    + apply agree_below_one. exact H.
  - intros Hexp Hlt.
    destruct (scan_largest magnitude Hfin Hlt) as (power & Hin & Hge & Hmax).
    exists power.
    unfold LogUtils.resolveUnit, resolveUnit. rewrite Hexp, Hlt.
    split; [ exact Hin | ]. split; [ exact Hge | ]. split; [ exact Hmax | ].
    apply (at_index_label (log_index Math_log magnitude) _ power Hin).
Qed.

(** The theorem at the number just below 1024, with a logarithm that
    returns the nearest number to the logarithm of 1024 everywhere. *)
Lemma same_unit_iff_index_witness :
  (explicit None <> None \/ lt below_1024 (of_Z 1) = true ->
   LogUtils.resolveUnit (fun _ => ln_1024) below_1024 None
   = Some (resolveUnit below_1024 None))
  /\ (explicit None = None ->
      lt below_1024 (of_Z 1) = false ->
      exists power,
        In (resolveUnit below_1024 None, power) UNITS
        /\ ge below_1024 (pow1024 power) = true
        /\ (forall unit' power',
               In (unit', power') UNITS ->
               ge below_1024 (pow1024 power') = true ->
               (power' <= power)%nat)
        /\ (LogUtils.resolveUnit (fun _ => ln_1024) below_1024 None
            = Some (resolveUnit below_1024 None)
            <-> is_index (log_index (fun _ => ln_1024) below_1024) power
                = true)).
Proof.
  apply (same_unit_iff_index (fun _ => ln_1024) below_1024 None).
  reflexivity.
Defined.

End LogBased.

(* ================================================================== *)
(** * Further properties *)

Import Facts.

(** ** Forced units *)

Module ForcedUnit.

Lemma lower_char_not_upper :
  forall c, JsString.is_upper (JsString.lower_char c) = false.
Proof. intros [[] [] [] [] [] [] [] []]; reflexivity. Qed.

Lemma lower_upper_lower_char :
  forall c,
    JsString.lower_char (JsString.upper_char (JsString.lower_char c))
    = JsString.lower_char c.
Proof. intros [[] [] [] [] [] [] [] []]; reflexivity. Qed.

Lemma toLowerCase_no_capital :
  forall s,
    all_chars (fun c => negb (JsString.is_upper c)) (JsString.toLowerCase s)
    = true.
Proof.
  induction s as [|c s IH]; [ reflexivity | ].
  cbn [JsString.toLowerCase JsString.map_chars all_chars].
  rewrite lower_char_not_upper. exact IH.
Qed.

Lemma lower_upper_lower :
  forall s,
    JsString.toLowerCase (JsString.toUpperCase (JsString.toLowerCase s))
    = JsString.toLowerCase s.
Proof.
  induction s as [|c s IH]; [ reflexivity | ].
  unfold JsString.toLowerCase, JsString.toUpperCase in *.
  cbn [JsString.map_chars]. rewrite lower_upper_lower_char, IH. reflexivity.
Qed.

(** [key in UNIT_VALUE_BY_LOWER] on a lower case key. *)
Lemma has_lower :
  forall s,
    has UNIT_VALUE_BY_LOWER (JsString.toLowerCase s) = accepted s.
Proof.
  intros s. unfold accepted.
  pose proof (toLowerCase_no_capital s) as N.
  remember (JsString.toLowerCase s) as l eqn:Hl. clear Hl.
  unfold has. rewrite Parsing.lower_table. cbn [own].
  unfold inherited, Object_prototype, accepted_units. cbn [existsb].
  repeat
    match goal with
    | |- context [String.eqb ?a l] =>
        destruct (String.eqb_spec a l) as [E|?];
        [ subst l;
          first [ reflexivity | congruence | vm_compute in N; discriminate N ]
        | ]
    | |- context [String.eqb l ?a] =>
        destruct (String.eqb_spec l a) as [E|?];
        [ subst l;
          first [ reflexivity | congruence | vm_compute in N; discriminate N ]
        | ]
    end.
  reflexivity.
Qed.

Lemma map_chars_truthy :
  forall f s, JsString.truthy (JsString.map_chars f s) = JsString.truthy s.
Proof. intros f [|c s]; reflexivity. Qed.

Lemma explicit_accepted :
  forall p,
    explicit (Some p)
    = if accepted p
      then Some (JsString.toUpperCase (JsString.toLowerCase p))
      else None.
Proof.
  intros p. unfold explicit, toUnitLabel, toByteUnit.
  rewrite has_lower.
  destruct (JsString.truthy p) eqn:T.
  - destruct (accepted p); [ | reflexivity ].
    unfold JsString.toUpperCase, JsString.toLowerCase.
    repeat (rewrite map_chars_truthy || rewrite T). reflexivity.
  - destruct p; [ reflexivity | discriminate ].
Qed.

(** X1. A forced unit is looked up without regard to letter case and to
    the magnitude: when its lower case spelling is one of the nine unit
    names, or [constructor] or [__proto__], [resolveUnit] returns that
    spelling in upper case; any other forced unit, the empty string
    included, is dropped and the unit is selected as if none was given.
    So each of the nine labels, in upper or lower case, forces itself. *)
Theorem forced_unit :
  forall (magnitude : number) (preferredUnit : string),
    resolveUnit magnitude (Some preferredUnit)
    = (if accepted preferredUnit
       then JsString.toUpperCase (JsString.toLowerCase preferredUnit)
       else resolveUnit magnitude None)
    /\ forall label power,
         In (label, power) UNITS ->
         resolveUnit magnitude (Some label) = label
         /\ resolveUnit magnitude (Some (JsString.toLowerCase label)) = label.
Proof.
  intros magnitude preferredUnit. split.
  - unfold resolveUnit. rewrite explicit_accepted.
    destruct (accepted preferredUnit); reflexivity.
  - intros label power H. unfold resolveUnit. rewrite !explicit_accepted.
    simpl in H.
    repeat (destruct H as [H|H];
            [ inversion H; subst; split; reflexivity | ]).
    contradiction.
Qed.

End ForcedUnit.

(** ** Order of the automatic selection *)

Module Monotone.

Import UnitSelection.

Ltac order_cases :=
  repeat
    match goal with
    | H : context [Z.compare ?a ?b] |- _ =>
        destruct (Z.compare_spec a b); cbn [CompOpp] in *
    | |- context [Z.compare ?a ?b] =>
        destruct (Z.compare_spec a b); cbn [CompOpp] in *
    | H : context [Pos.compare_cont Eq ?a ?b] |- _ =>
        change (Pos.compare_cont Eq a b) with (Pos.compare a b) in *;
        destruct (Pos.compare_spec a b); cbn [CompOpp] in *
    | |- context [Pos.compare_cont Eq ?a ?b] =>
        change (Pos.compare_cont Eq a b) with (Pos.compare a b) in *;
        destruct (Pos.compare_spec a b); cbn [CompOpp] in *
    end;
  try discriminate; try reflexivity; try lia.

(** [>=] is transitive. *)
Lemma ge_trans :
  forall x y z, ge x y = true -> ge y z = true -> ge x z = true.
Proof.
  unfold ge, SFleb, SFcompare.
  intros [sx|sx| |sx mx ex] [sy|sy| |sy my ey] [sz|sz| |sz mz ez];
    try destruct sx; try destruct sy; try destruct sz;
    intros H1 H2; try discriminate; try reflexivity; order_cases.
Qed.

(** The unit that the scan selects is the one of the largest threshold
    that the magnitude reaches, or [B] when it reaches none. *)
Lemma scan_power :
  forall x,
    exists p,
      In (scan x UNIT_THRESHOLDS, p) UNITS
      /\ (p = 0%nat \/ ge x (pow1024 p) = true)
      /\ forall p', (p < p' <= 8)%nat -> ge x (pow1024 p') = false.
Proof.
  intros x. rewrite thresholds. cbn [scan].
  destruct (ge x (pow1024 8)) eqn:H8;
    [ | destruct (ge x (pow1024 7)) eqn:H7;
    [ | destruct (ge x (pow1024 6)) eqn:H6;
    [ | destruct (ge x (pow1024 5)) eqn:H5;
    [ | destruct (ge x (pow1024 4)) eqn:H4;
    [ | destruct (ge x (pow1024 3)) eqn:H3;
    [ | destruct (ge x (pow1024 2)) eqn:H2;
    [ | destruct (ge x (pow1024 1)) eqn:H1;
    [ | destruct (ge x (pow1024 0)) eqn:H0 ] ] ] ] ] ] ] ];
    match goal with
    | |- exists p, In (?u, p) UNITS /\ _ =>
        match u with
        | "YB" => exists 8%nat | "ZB" => exists 7%nat | "EB" => exists 6%nat
        | "PB" => exists 5%nat | "TB" => exists 4%nat | "GB" => exists 3%nat
        | "MB" => exists 2%nat | "KB" => exists 1%nat | "B" => exists 0%nat
        end
    end;
    (split; [ simpl; tauto | split; [ auto | ] ]);
    intros p' Hp';
    do 9 (destruct p' as [|p']; [ try lia; assumption | ]); lia.
Qed.

(** X2. Automatic selection is monotone: when [b >= a] and no forced
    unit is accepted, the unit selected for [b] is the unit selected for
    [a] or a larger one. *)
Theorem selection_monotone :
  forall (a b : number) (preferredUnit : option string),
    ge b a = true ->
    explicit preferredUnit = None ->
    exists pa pb,
      In (resolveUnit a preferredUnit, pa) UNITS
      /\ In (resolveUnit b preferredUnit, pb) UNITS
      /\ (pa <= pb)%nat.
Proof.
  intros a b preferredUnit Hab He. unfold resolveUnit. rewrite He.
  destruct (scan_power a) as (pa & Ia & Ra & Ma).
  destruct (scan_power b) as (pb & Ib & Rb & Mb).
  exists pa, pb. split; [ assumption | ]. split; [ assumption | ].
  destruct Ra as [->|Ra]; [ lia | ].
  destruct (Nat.le_gt_cases pa pb) as [L|G]; [ assumption | exfalso ].
  assert (P8 : (pa <= 8)%nat).
  { simpl in Ia.
    repeat (destruct Ia as [Ia|Ia]; [ inversion Ia; lia | ]). contradiction. }
  pose proof (ge_trans b a (pow1024 pa) Hab Ra) as T.
  rewrite (Mb pa) in T by lia. discriminate.
Qed.

(** The theorem at the magnitudes 1 and 1024 with no forced unit. *)
Lemma selection_monotone_witness :
  exists pa pb,
    In (resolveUnit (of_Z 1) None, pa) UNITS
    /\ In (resolveUnit (of_Z 1024) None, pb) UNITS
    /\ (pa <= pb)%nat.
Proof.
  apply (selection_monotone (of_Z 1) (of_Z 1024) None); reflexivity.
Defined.

End Monotone.

(** ** Outcomes of formatBytes *)

Module FormatOutcome.

Import ForcedUnit Monotone.

Lemma accepted_upper :
  forall p,
    accepted (JsString.toUpperCase (JsString.toLowerCase p)) = accepted p.
Proof. intros p. unfold accepted. rewrite lower_upper_lower. reflexivity. Qed.

(** [toUnitLabel] accepts whatever [resolveUnit] returns, and returns it
    unchanged. *)
Lemma resolveUnit_normalized :
  forall magnitude preferredUnit,
    toUnitLabel (resolveUnit magnitude preferredUnit)
    = Some (resolveUnit magnitude preferredUnit).
Proof.
  intros magnitude preferredUnit.
  assert (A : forall p, accepted p = true ->
                explicit (Some p) = Some p -> toUnitLabel p = Some p).
  { intros p Ha He. unfold explicit in He.
    destruct (JsString.truthy p); [ | discriminate ].
    destruct (toUnitLabel p) as [u|]; [ | discriminate ].
    destruct (JsString.truthy u); [ exact He | discriminate ]. }
  unfold resolveUnit.
  destruct (explicit preferredUnit) as [u|] eqn:E.
  - destruct preferredUnit as [p|]; [ | discriminate ].
    rewrite explicit_accepted in E.
    destruct (accepted p) eqn:Ha; [ | discriminate ].
    inversion E; subst u. apply A.
    + rewrite accepted_upper. assumption.
    + rewrite explicit_accepted, accepted_upper, Ha, lower_upper_lower.
      reflexivity.
  - destruct (scan_power magnitude) as (p & I & _).
    remember (scan magnitude UNIT_THRESHOLDS) as u eqn:U. clear U.
    unfold UNITS in I. cbn [In] in I.
    repeat (destruct I as [I|I];
            [ injection I as I1 I2; subst u; reflexivity | ]).
    contradiction.
Qed.

Lemma toFixed_outcome :
  forall x fractionDigits,
    match toFixed x fractionDigits with
    | Normal _ =>
        exists f, toIntegerOrInfinity fractionDigits = Some f
                  /\ (0 <= f <= 100)%Z
    | Throw (RangeError _) =>
        match toIntegerOrInfinity fractionDigits with
        | Some f => (f < 0 \/ 100 < f)%Z
        | None => True
        end
    | Throw (TypeError _) => False
    end.
Proof.
  intros x fd. unfold toFixed.
  destruct (toIntegerOrInfinity fd) as [f|]; [ | exact I ].
  destruct ((f <? 0)%Z || (100 <? f)%Z) eqn:R.
  - apply orb_true_iff in R. destruct R as [R|R];
      [ apply Z.ltb_lt in R | apply Z.ltb_lt in R ]; lia.
  - apply orb_false_iff in R. destruct R as [R1 R2].
    apply Z.ltb_ge in R1. apply Z.ltb_ge in R2.
    assert (G : exists f0, Some f = Some f0 /\ (0 <= f0 <= 100)%Z)
      by (exists f; split; [ reflexivity | lia ]).
    destruct x as [s|s| |s m e]; try exact G.
    destruct (fraction m e) as [a b].
    destruct (10 ^ 21 * b <=? a)%Z; exact G.
Qed.

(** X3. What [formatBytes] does is decided by the value and by
    [decimalPlaces] alone. It returns [null] exactly for a value that is
    not finite. For a finite value it throws a RangeError exactly when
    [decimalPlaces], 2 by default and truncated to an integer, is not
    between 0 and 100; otherwise it returns, in the shape asked for, the
    rendering with the unit of [resolveUnit], a unit that [formatValue]
    always accepts, and in a record the value itself as [bytes]. *)
Theorem formatBytes_outcome :
  forall (value : number) (options : Format.Options),
    let unit := resolveUnit (abs value) (Format.unit options) in
    toUnitLabel unit = Some unit
    /\ match formatBytes value options with
       | Normal None => isFinite value = false
       | Normal (Some result) =>
           isFinite value = true
           /\ places_in_range options = true
           /\ result = shaped options (rendered value options) unit value
       | Throw (RangeError _) =>
           isFinite value = true /\ places_in_range options = false
       | Throw (TypeError _) => False
       end.
Proof.
  intros value options unit.
  pose proof (resolveUnit_normalized (abs value) (Format.unit options)) as N.
  fold unit in N. split; [ exact N | ].
  unfold formatBytes, rendered, shaped, places_in_range.
  destruct (isFinite value); cbn [negb]; [ | reflexivity ].
  fold unit. unfold formatValue. rewrite N.
  pose proof (toFixed_outcome
                (div value (ToNumber (get UNIT_VALUE_BY_LABEL unit)))
                (default (Format.decimalPlaces options) (of_Z 2))) as T.
  destruct (toFixed _ _) as [str|[msg|msg]]; cbn [bind].
  - destruct T as (f & -> & Hf).
    replace ((0 <=? f)%Z && (f <=? 100)%Z) with true
      by (symmetry; apply andb_true_iff; split; apply Z.leb_le; lia).
    split; [ reflexivity | split; [ reflexivity | ] ].
    destruct (default (Format.output options) Format.string); reflexivity.
  - split; [ reflexivity | ].
    destruct (toIntegerOrInfinity _) as [f|]; [ | reflexivity ].
    apply andb_false_iff.
    destruct T as [T|T]; [ left; apply Z.leb_gt | right; apply Z.leb_gt ]; lia.
  - exact T.
Qed.

End FormatOutcome.

(** ** Results of parseBytes *)

Module ParseResult.

Import Parsing.

(** The product with a unit multiplier is a number or an infinity. *)
Lemma mul_pow1024_not_nan :
  forall power x,
    (power <= 8)%nat -> well_formed x -> isFinite x = true ->
    mul (pow1024 power) x <> NaN.
Proof.
  intros power [s|s| |s m e] Hp W F; try discriminate.
  - rewrite pow1024_value by assumption. discriminate.
  - destruct (mul_pow1024 power s m e Hp W) as [_ E]. rewrite E.
    destruct (_ <=? 971)%Z; discriminate.
Qed.

Lemma floor_product_not_nan :
  forall power x,
    (power <= 8)%nat -> well_formed x -> isFinite x = true ->
    floor (mul (pow1024 power) x) <> NaN.
Proof.
  intros power x Hp W F.
  destruct (isFinite (mul (pow1024 power) x)) eqn:Fp.
  - destruct (exact_finite_some _ F) as [q E].
    assert (R : represents x q) by (unfold represents; rewrite E; reflexivity).
    destruct (mul_pow1024_represents power x q Hp W R Fp) as [Wp Rp].
    destruct (floor_represents _ _ Wp Rp) as [Rf _].
    apply represents_finite in Rf. intros C. rewrite C in Rf. discriminate.
  - rewrite floor_not_finite by assumption.
    apply mul_pow1024_not_nan; assumption.
Qed.

Lemma units_power_bound :
  forall label power, In (label, power) UNITS -> (power <= 8)%nat.
Proof.
  intros label power H. simpl in H.
  repeat (destruct H as [H|H]; [ inversion H; lia | ]). contradiction.
Qed.

(** X4. Every result that [parseBytes] returns for a string has, in the
    shape asked for, one of the nine upper case labels as unit, a finite
    magnitude as value, and as byte count the floor of the product of the
    magnitude and the power of 1024 of the unit, which is never NaN: the
    NaN exit of [toBytes] is not reached. *)
Theorem string_result :
  forall (val : string) (options : Parse.Options) (result : Parse.Result),
    parseBytes (Parse.Str val) options = Some result ->
    exists bytes label power value,
      result = Parse.shaped (Parse.output options) bytes label value
      /\ In (label, power) UNITS
      /\ isFinite value = true
      /\ bytes = floor (mul (pow1024 power) value)
      /\ bytes <> NaN.
Proof.
  intros val options result H. unfold parseBytes in H.
  destruct (parseInput val) as [parsed|] eqn:P; [ | discriminate ].
  destruct (bytes_of_accepted val parsed P) as (power & Hin & _ & B & _).
  destruct (parseInput_magnitude val parsed P) as [W F].
  exists (toBytes (floatValue parsed) (unit parsed)),
         (JsString.toUpperCase (unit parsed)), power, (floatValue parsed).
  split.
  - destruct options as [[[ | | ]|]]; inversion H; reflexivity.
  - split; [ assumption | ]. split; [ assumption | ].
    split; [ exact B | ]. rewrite B.
    apply floor_product_not_nan; try assumption.
    eapply units_power_bound; eassumption.
Qed.

(** The theorem at ["2.5 mb"] with a tuple as output. *)
Lemma string_result_witness :
  exists bytes label power value,
    Parse.Tuple (of_Z 2621440) "MB"
    = Parse.shaped (Some Parse.array) bytes label value
    /\ In (label, power) UNITS
    /\ isFinite value = true
    /\ bytes = floor (mul (pow1024 power) value)
    /\ bytes <> NaN.
Proof.
  apply (string_result "2.5 mb" (Parse.mkOptions (Some Parse.array))).
  vm_compute; reflexivity.
Defined.

End ParseResult.

(** ** White space *)

Module WhiteSpace.

Lemma trimStart_blank :
  forall pad, blank pad = true -> JsString.trimStart pad = "".
Proof.
  induction pad as [|c pad IH]; intros H; [ reflexivity | ].
  cbn [blank all_chars] in H. apply andb_true_iff in H. destruct H as [Hc H].
  cbn [JsString.trimStart]. rewrite Hc. apply IH. exact H.
Qed.

Lemma trimStart_app :
  forall pad s,
    blank pad = true -> JsString.trimStart (pad ++ s) = JsString.trimStart s.
Proof.
  induction pad as [|c pad IH]; intros s H; [ reflexivity | ].
  cbn [blank all_chars] in H. apply andb_true_iff in H. destruct H as [Hc H].
  cbn [append JsString.trimStart]. rewrite Hc. apply IH. exact H.
Qed.

Lemma trimEnd_blank :
  forall pad, blank pad = true -> JsString.trimEnd pad = "".
Proof.
  induction pad as [|c pad IH]; intros H; [ reflexivity | ].
  cbn [blank all_chars] in H. apply andb_true_iff in H. destruct H as [Hc H].
  cbn [JsString.trimEnd]. rewrite (IH H), Hc. reflexivity.
Qed.

Lemma trimEnd_app :
  forall s pad,
    blank pad = true -> JsString.trimEnd (s ++ pad) = JsString.trimEnd s.
Proof.
  induction s as [|c s IH]; intros pad H.
  - apply trimEnd_blank. exact H.
  - cbn [append JsString.trimEnd]. rewrite (IH pad H). reflexivity.
Qed.

Lemma trim_app :
  forall s pad,
    blank pad = true -> JsString.trim (s ++ pad) = JsString.trim s.
Proof.
  unfold JsString.trim.
  induction s as [|c s IH]; intros pad H.
  - cbn [append]. rewrite (trimStart_blank pad H). reflexivity.
  - cbn [append JsString.trimStart].
    destruct (JsString.is_space c); [ apply IH; exact H | ].
    apply (trimEnd_app (String c s)). exact H.
Qed.

(** X5. White space around the input is not looked at: padding a string
    on both sides with white space (spaces, tabs, line breaks) does not
    change what [parseBytes] returns for it, and a string of white space
    only, the empty string included, is rejected. *)
Theorem padding_ignored :
  forall (before after val : string) (options : Parse.Options),
    blank before = true ->
    blank after = true ->
    parseBytes (Parse.Str (before ++ val ++ after)) options
    = parseBytes (Parse.Str val) options
    /\ parseBytes (Parse.Str (before ++ after)) options = None.
Proof.
  intros before after val options Hb Ha.
  assert (T : forall s, JsString.trim (before ++ s ++ after) = JsString.trim s).
  { intros s. unfold JsString.trim. rewrite trimStart_app by exact Hb.
    apply trim_app. exact Ha. }
  assert (P : forall s, parseInput (before ++ s ++ after) = parseInput s)
    by (intros s; unfold parseInput; rewrite T; reflexivity).
  split.
  - unfold parseBytes. rewrite P. reflexivity.
  - specialize (P ""). cbn [append] in P.
    unfold parseBytes. rewrite P. reflexivity.
Qed.

(** The theorem at ["1KB"] between a tab and two spaces. *)
Lemma padding_ignored_witness :
  parseBytes (Parse.Str (String "009" "" ++ "1KB" ++ "  ")) Parse.empty
  = parseBytes (Parse.Str "1KB") Parse.empty.
Proof.
  apply (padding_ignored (String "009" "") "  " "1KB" Parse.empty);
    reflexivity.
Defined.

End WhiteSpace.

(** ** The two sets of tables *)

Module Tables.

(** X6. The unit tables that the second utility module builds from its
    list of literal powers are, entry for entry, the tables that
    [utils.ts] builds with [1024 ** power]; and in each module the table
    that formatting divides by gives, at the upper case of a unit, the
    multiplier that parsing finds at the unit. *)
Theorem tables_agree :
  LogTables.UNIT_VALUE_BY_LABEL = UNIT_VALUE_BY_LABEL
  /\ LogTables.UNIT_VALUE_BY_LOWER = UNIT_VALUE_BY_LOWER
  /\ LogTables.PARSEABLE_UNITS = PARSEABLE_UNITS
  /\ LogTables.UNITS = map fst UNITS
  /\ forall unit k,
       own UNIT_VALUE_BY_LOWER unit = Some k ->
       get UNIT_VALUE_BY_LABEL (JsString.toUpperCase unit) = VNumber k.
Proof.
  split; [ vm_compute; reflexivity | ].
  split; [ vm_compute; reflexivity | ].
  split; [ vm_compute; reflexivity | ].
  split; [ vm_compute; reflexivity | ].
  intros unit k H. rewrite Parsing.lower_table in H. cbn [own] in H.
  repeat
    match type of H with
    | (if String.eqb ?a unit then _ else _) = _ =>
        destruct (String.eqb_spec a unit) as [<-|_];
        [ inversion H; subst k; reflexivity | ]
    end.
  discriminate.
Qed.

End Tables.

(** ** Round trips *)

Module RoundTrips.

Lemma in_range :
  forall len lo n,
    (lo <= n < lo + Z.of_nat len)%Z -> In n (range lo len).
Proof.
  induction len as [|len IH]; intros lo n H; [ lia | ].
  cbn [range]. destruct (Z.eq_dec lo n) as [E|E]; [ left; exact E | right ].
  apply IH. lia.
Qed.

Lemma all_quarters : forallb quarters_roundtrip (seq 0 9) = true.
Proof. vm_compute. reflexivity. Qed.

(** X7. Formatting with the default options and parsing the result gives
    back the byte count exactly for every non-negative whole number of
    bytes below 1024 and, for each of the units KB to YB, for every whole
    number of quarters of the unit below 256 units: values whose
    rendering with two decimals is exact. *)
Theorem quarters_survive :
  forall (j : nat) (n : Z),
    (j <= 8)%nat ->
    (0 <= n < 1024)%Z ->
    roundtrip (of_Z (n * quarter j))
    = Some (Parse.Scalar (of_Z (n * quarter j))).
Proof.
  intros j n Hj Hn.
  pose proof all_quarters as A.
  rewrite forallb_forall in A.
  specialize (A j ltac:(apply in_seq; lia)).
  unfold quarters_roundtrip in A. rewrite forallb_forall in A.
  specialize (A n ltac:(apply in_range; lia)).
  unfold roundtrips in A.
  destruct (roundtrip (of_Z (n * quarter j))) as [[bytes|bytes u|d]|];
    try discriminate.
  apply Binary64.eqb_eq in A. rewrite A. reflexivity.
Qed.

(** The theorem at 1536 bytes, six quarters of a KB. *)
Lemma quarters_survive_witness :
  roundtrip (of_Z (6 * quarter 1))
  = Some (Parse.Scalar (of_Z (6 * quarter 1))).
Proof.
  apply (quarters_survive 1 6); lia.
Defined.

End RoundTrips.

(** ** Thousands grouping *)

Module Thousands.

Import Regex.

Lemma run_triple :
  forall st k,
    run false triple st k
    = match after st with
      | String c1 (String c2 (String c3 r)) =>
          if JsString.is_digit c1 && JsString.is_digit c2
             && JsString.is_digit c3
          then k (mkState (String c3 (String c2 (String c1 (before st)))) r
                          ((1%nat, consumed st
                                     (mkState (String c3 (String c2
                                                (String c1 (before st))))
                                              r (caps st)))
                           :: caps st))
          else None
      | _ => None
      end.
Proof.
  intros [b a cs] k.
  destruct a as [|c1 [|c2 [|c3 r]]];
    cbv [triple Times run digit step after before caps]; try reflexivity.
  - destruct (JsString.is_digit c1); reflexivity.
  - destruct (JsString.is_digit c1); [ | reflexivity ].
    destruct (JsString.is_digit c2); reflexivity.
  - destruct (JsString.is_digit c1); [ | reflexivity ].
    destruct (JsString.is_digit c2); [ | reflexivity ].
    destruct (JsString.is_digit c3); reflexivity.
Qed.

Lemma at_end_digit :
  forall b c r cs,
    JsString.is_digit c = true -> at_end (mkState b (String c r) cs) = None.
Proof.
  intros b c r cs H. cbv [at_end digit run step after before caps].
  rewrite H. reflexivity.
Qed.

Lemma at_end_empty :
  forall b cs, at_end (mkState b "" cs) = Some (mkState b "" cs).
Proof. reflexivity. Qed.

(** The star of triples followed by [(?!\d)] succeeds on a digit string
    exactly when its length is a multiple of three. *)
Lemma star_triples :
  forall n a b cs,
    all_chars JsString.is_digit a = true ->
    (String.length a < n)%nat ->
    is_some (star_loop (run false triple) at_end n (mkState b a cs))
    = (String.length a mod 3 =? 0)%nat.
Proof.
  induction n as [|n IH]; intros a b cs D L; [ lia | ].
  cbn [star_loop]. rewrite run_triple. cbn [after before caps].
  destruct a as [|c1 [|c2 [|c3 r]]].
  - reflexivity.
  - cbn [all_chars] in D. apply andb_true_iff in D. destruct D as [D1 _].
    rewrite at_end_digit by assumption. reflexivity.
  - cbn [all_chars] in D. apply andb_true_iff in D. destruct D as [D1 _].
    rewrite at_end_digit by assumption. reflexivity.
  - cbn [all_chars] in D.
    apply andb_true_iff in D. destruct D as [D1 D].
    apply andb_true_iff in D. destruct D as [D2 D].
    apply andb_true_iff in D. destruct D as [D3 D].
    rewrite D1, D2, D3. cbn [andb].
    replace (String.length r <? String.length (String c1 (String c2 (String c3 r))))%nat
      with true by (symmetry; apply Nat.ltb_lt; cbn [String.length]; lia).
    cbn [String.length] in L.
    specialize (IH r (String c3 (String c2 (String c1 b)))
                   ((1%nat,
                     consumed (mkState b (String c1 (String c2 (String c3 r))) cs)
                       (mkState (String c3 (String c2 (String c1 b))) r cs))
                    :: cs) D ltac:(lia)).
    assert (M : (String.length (String c1 (String c2 (String c3 r))) mod 3
                 = String.length r mod 3)%nat).
    { cbn [String.length].
      replace (S (S (S (String.length r)))) with (String.length r + 1 * 3)%nat
        by lia.
      apply Nat.Div0.mod_add. }
    rewrite M.
    destruct (star_loop _ _ n _) as [res|].
    + exact IH.
    + rewrite at_end_digit by assumption. exact IH.
Qed.

Lemma run_look :
  forall b a cs,
    all_chars JsString.is_digit a = true ->
    is_some (run false look (mkState b a cs) Some)
    = negb (String.length a =? 0)%nat && (String.length a mod 3 =? 0)%nat.
Proof.
  intros b a cs D.
  change (run false look (mkState b a cs) Some)
    with (run false triple (mkState b a cs)
            (fun s1 => star_loop (run false triple) at_end
                                 (S (String.length (after s1))) s1)).
  rewrite run_triple. cbn [after before caps].
  destruct a as [|c1 [|c2 [|c3 r]]]; try reflexivity.
  cbn [all_chars] in D.
  apply andb_true_iff in D. destruct D as [D1 D].
  apply andb_true_iff in D. destruct D as [D2 D].
  apply andb_true_iff in D. destruct D as [D3 D].
  rewrite D1, D2, D3. cbn [andb].
  rewrite star_triples by (assumption || lia).
  cbn [String.length Nat.eqb negb andb].
  replace (S (S (S (String.length r)))) with (String.length r + 1 * 3)%nat
    by lia.
  rewrite Nat.Div0.mod_add. reflexivity.
Qed.

Lemma substitution_plain :
  forall groups m template,
    all_chars (fun c => negb (Ascii.eqb c "$")) template = true ->
    substitution groups m template = template.
Proof.
  intros groups [st st'] template.
  induction template as [|c t IH]; intros H; [ reflexivity | ].
  cbn [all_chars] in H. apply andb_true_iff in H. destruct H as [Hc Ht].
  specialize (IH Ht).
  destruct c as [[] [] [] [] [] [] [] []]; try discriminate Hc;
    cbn [substitution]; rewrite IH; reflexivity.
Qed.

Section Grouping.

Variable sep : string.
Hypothesis plain : all_chars (fun c => negb (Ascii.eqb c "$")) sep = true.

Lemma match_thousands :
  forall b a,
    match_at false FORMAT_THOUSANDS_RE b a
    = if Bool.eqb (word_at b) (word_at a)
      then match run false look (mkState b a []) Some with
           | Some st' => Some (mkState b a [], mkState b a (caps st'))
           | None => None
           end
      else None.
Proof.
  intros b a. unfold match_at.
  change (run false FORMAT_THOUSANDS_RE (mkState b a []) Some)
    with (if Bool.eqb (word_at b) (word_at a)
          then match run false look (mkState b a []) Some with
               | Some st' => Some (mkState b a (caps st'))
               | None => None
               end
          else None).
  destruct (Bool.eqb (word_at b) (word_at a)); [ | reflexivity ].
  destruct (run false look (mkState b a []) Some); reflexivity.
Qed.

Lemma digit_is_word :
  forall c, JsString.is_digit c = true -> is_word c = true.
Proof. intros c H. unfold is_word. rewrite H. reflexivity. Qed.

Lemma consumed_nothing :
  forall b a cs cs', consumed (mkState b a cs) (mkState b a cs') = "".
Proof.
  intros b a cs cs'. unfold consumed. cbn [after].
  rewrite Nat.sub_diag. destruct a; reflexivity.
Qed.

(** One step of the replacement on a digit. *)
Lemma from_digit :
  forall b c r,
    all_chars JsString.is_digit (String c r) = true ->
    Facts.from sep b (String c r)
    = (if word_at b && (String.length (String c r) mod 3 =? 0)%nat
       then sep else "")
      ++ String c (Facts.from sep (String c b) r).
Proof.
  intros b c r D. unfold Facts.from. cbn [replace_all_from].
  rewrite match_thousands.
  pose proof (run_look b (String c r) [] D) as L.
  assert (W : word_at (String c r) = true).
  { cbn [word_at]. apply digit_is_word.
    cbn [all_chars] in D. apply andb_true_iff in D. tauto. }
  rewrite W.
  assert (E : (String.length (String c r) mod 3 =? 0)%nat
              = is_some (run false look (mkState b (String c r) []) Some))
    by (rewrite L; reflexivity).
  rewrite E.
  destruct (word_at b); cbn [Bool.eqb andb]; [ | reflexivity ].
  destruct (run false look (mkState b (String c r) []) Some) as [st'|];
    cbn [is_some]; [ | reflexivity ].
  rewrite substitution_plain by exact plain.
  rewrite consumed_nothing. reflexivity.
Qed.

Lemma from_end :
  forall b, Facts.from sep b "" = "".
Proof.
  intros b. unfold Facts.from. cbn [replace_all_from]. rewrite match_thousands.
  destruct (Bool.eqb (word_at b) (word_at "")); reflexivity.
Qed.

Lemma from_word :
  forall a b,
    all_chars JsString.is_digit a = true ->
    Facts.from sep b a
    = (if word_at b && negb (String.length a =? 0)%nat
          && (String.length a mod 3 =? 0)%nat
       then sep else "")
      ++ grouped sep a.
Proof.
  induction a as [|c r IH]; intros b D.
  - rewrite from_end. rewrite andb_false_r. reflexivity.
  - rewrite from_digit by exact D.
    assert (Dr : all_chars JsString.is_digit r = true)
      by (cbn [all_chars] in D; apply andb_true_iff in D; tauto).
    assert (Wc : word_at (String c b) = true).
    { cbn [word_at]. apply digit_is_word.
      cbn [all_chars] in D. apply andb_true_iff in D. tauto. }
    rewrite (IH (String c b) Dr), Wc.
    cbn [grouped andb]. cbn [String.length Nat.eqb negb].
    rewrite andb_true_r. reflexivity.
Qed.

Lemma from_minus :
  forall digits,
    all_chars JsString.is_digit digits = true ->
    Facts.from sep "" (String "-" digits) = String "-" (grouped sep digits).
Proof.
  intros digits D. unfold Facts.from at 1.
  cbn [replace_all_from]. rewrite match_thousands.
  change (word_at (String "-" digits)) with false.
  change (word_at "") with false. cbn [Bool.eqb].
  replace (run false look (mkState "" (String "-" digits) []) Some)
    with (@None state).
  - f_equal. fold (Facts.from sep "-" digits).
    rewrite (from_word digits "-" D). reflexivity.
  - change (run false look (mkState "" (String "-" digits) []) Some)
      with (run false triple (mkState "" (String "-" digits) [])
              (fun s1 => star_loop (run false triple) at_end
                                   (S (String.length (after s1))) s1)).
    rewrite run_triple. cbn [after].
    destruct digits as [|c2 [|c3 r]]; reflexivity.
Qed.

End Grouping.

(** X8. The thousands separator: in a string of digits, with or without
    a minus sign in front, the replacement with [FORMAT_THOUSANDS_RE] puts
    the separator before every group of three digits counted from the
    end, and nowhere else: not at the start, not after the sign. The
    separator is taken literally when it has no [$] in it. *)
Theorem thousands_grouping :
  forall (sep digits : string) (negative : bool),
    all_chars (fun c => negb (Ascii.eqb c "$")) sep = true ->
    all_chars JsString.is_digit digits = true ->
    let sign := if negative then "-" else "" in
    replace_all_from false FORMAT_THOUSANDS_RE 1 sep 0 "" (sign ++ digits)
    = sign ++ grouped sep digits.
Proof.
  intros sep digits negative P D sign.
  destruct negative; subst sign; cbn [append].
  - exact (from_minus sep P digits D).
  - change (Facts.from sep "" digits = grouped sep digits).
    rewrite (from_word sep P digits "" D). reflexivity.
Qed.

(** The theorem at [-1234567] with a comma. *)
Lemma thousands_grouping_witness :
  replace_all_from false FORMAT_THOUSANDS_RE 1 "," 0 "" ("-" ++ "1234567")
  = "-" ++ grouped "," "1234567".
Proof.
  apply (thousands_grouping "," "1234567" true); reflexivity.
Defined.

End Thousands.

(** ** Zeros at the end of the fraction *)

Module Decimals.

Import Regex.

Lemma zero_star :
  forall n a b cs,
    (String.length a < n)%nat ->
    star_loop (run false (Lit "0")) at_eol n (mkState b a cs)
    = if zeros a then Some (mkState (rev_onto a b) "" cs) else None.
Proof.
  induction n as [|n IH]; intros a b cs L; [ lia | ].
  cbn [star_loop]. cbv [run step same after before caps].
  destruct a as [|c r]; [ reflexivity | ].
  cbn [zeros all_chars rev_onto]. rewrite (Ascii.eqb_sym "0" c).
  destruct (Ascii.eqb c "0"); cbn [andb]; [ | reflexivity ].
  replace (String.length r <? String.length (String c r))%nat
    with true by (symmetry; apply Nat.ltb_lt; cbn [String.length]; lia).
  cbn [String.length] in L.
  rewrite IH by lia. fold (zeros r).
  destruct (zeros r); reflexivity.
Qed.

Lemma zeros_to_eol_spec :
  forall b a cs,
    zeros_to_eol (mkState b a cs)
    = if JsString.truthy a && zeros a
      then Some (mkState (rev_onto a b) "" cs) else None.
Proof.
  intros b a cs.
  change (zeros_to_eol (mkState b a cs))
    with (run false (Lit "0") (mkState b a cs)
            (fun s => star_loop (run false (Lit "0")) at_eol
                                (S (String.length (after s))) s)).
  cbv [run step same after before caps].
  destruct a as [|c r]; [ reflexivity | ].
  cbn [JsString.truthy zeros all_chars rev_onto andb].
  rewrite (Ascii.eqb_sym "0" c).
  destruct (Ascii.eqb c "0"); cbn [andb]; [ | reflexivity ].
  rewrite zero_star by lia. reflexivity.
Qed.

(** A greedy run of [[^0]] before a continuation that fails in front of
    every character other than [0] stops at the first [0]. *)
Lemma nonzero_star :
  forall k : state -> option state,
    (forall b c r cs,
        Ascii.eqb c "0" = false -> k (mkState b (String c r) cs) = None) ->
    forall n a b cs,
      (String.length a < n)%nat ->
      star_loop (run false nonzero) k n (mkState b a cs)
      = k (mkState (rev_onto (fst (span_nonzero a)) b)
                   (snd (span_nonzero a)) cs).
Proof.
  intros k K.
  induction n as [|n IH]; intros a b cs L; [ lia | ].
  cbn [star_loop]. cbv [run nonzero step after before caps].
  destruct a as [|c r]; [ reflexivity | ].
  cbn [span_nonzero].
  destruct (Ascii.eqb c "0") eqn:E; cbn [negb fst snd rev_onto];
    [ reflexivity | ].
  replace (String.length r <? String.length (String c r))%nat
    with true by (symmetry; apply Nat.ltb_lt; cbn [String.length]; lia).
  cbn [String.length] in L.
  rewrite IH by lia.
  destruct (span_nonzero r) as [p z]. cbn [fst snd rev_onto].
  destruct (k (mkState (rev_onto p (String c b)) z cs)); [ reflexivity | ].
  apply K. exact E.
Qed.

Lemma span_app :
  forall s, fst (span_nonzero s) ++ snd (span_nonzero s) = s.
Proof.
  induction s as [|c r IH]; [ reflexivity | ].
  cbn [span_nonzero]. destruct (Ascii.eqb c "0"); [ reflexivity | ].
  destruct (span_nonzero r) as [p z]. cbn [fst snd append] in *.
  rewrite IH. reflexivity.
Qed.

Lemma app_length :
  forall x y, String.length (x ++ y) = (String.length x + String.length y)%nat.
Proof.
  induction x as [|c x IH]; intros y; [ reflexivity | ].
  cbn [append String.length]. rewrite IH. reflexivity.
Qed.

Lemma take_app :
  forall x y,
    JsString.take (String.length (x ++ y) - String.length y) (x ++ y) = x.
Proof.
  intros x y. rewrite app_length.
  replace (String.length x + String.length y - String.length y)%nat
    with (String.length x) by lia.
  induction x as [|c x IH].
  - destruct y; reflexivity.
  - cbn [String.length append JsString.take]. rewrite IH. reflexivity.
Qed.

Lemma rev_onto_twice :
  forall a b c, rev_onto (rev_onto a b) c = rev_onto b (a ++ c).
Proof.
  induction a as [|x a IH]; intros b c; [ reflexivity | ].
  cbn [rev_onto append]. rewrite IH. reflexivity.
Qed.

Lemma app_empty : forall s, s ++ "" = s.
Proof.
  induction s as [|c s IH]; [ reflexivity | ].
  cbn [append]. rewrite IH. reflexivity.
Qed.

Lemma app_assoc :
  forall x y z, (x ++ y) ++ z = x ++ (y ++ z).
Proof.
  induction x as [|c x IH]; intros y z; [ reflexivity | ].
  cbn [append]. rewrite IH. reflexivity.
Qed.

Lemma match_at_point :
  forall b frac,
    outcome (run false FORMAT_DECIMALS_RE
                 (mkState b (String "." frac) []) Some)
    = if zeros frac then Some (None, "")
      else
        let '(p, z) := span_nonzero frac in
        if JsString.truthy p && JsString.truthy z && zeros z
        then Some (Some (String "." p), "")
        else None.
Proof.
  intros b frac.
  set (st := mkState b (String "." frac) []).
  set (k := fun st' : state =>
              zeros_to_eol
                (mkState (before st') (after st')
                         ((1%nat, consumed st st') :: caps st'))).
  change (run false FORMAT_DECIMALS_RE st Some)
    with (match star_loop (run false (Lit "0")) at_eol
                          (S (String.length frac))
                          (mkState (String "." b) frac []) with
          | Some x => Some x
          | None =>
              run false nonzero (mkState (String "." b) frac [])
                  (fun s => star_loop (run false nonzero) k
                                      (S (String.length (after s))) s)
          end).
  rewrite zero_star by lia.
  destruct (zeros frac) eqn:Z; [ reflexivity | ].
  assert (K : forall b' c r cs,
             Ascii.eqb c "0" = false ->
             k (mkState b' (String c r) cs) = None).
  { intros b' c r cs E. unfold k. cbn [before after caps].
    rewrite zeros_to_eol_spec. cbn [JsString.truthy zeros all_chars andb].
    rewrite E. reflexivity. }
  cbv [run nonzero step after before caps].
  destruct frac as [|c r]; [ discriminate Z | ].
  cbn [span_nonzero].
  destruct (Ascii.eqb c "0") eqn:E; cbn [negb JsString.truthy andb];
    [ reflexivity | ].
  rewrite (nonzero_star k K) by lia.
  pose proof (span_app r) as A.
  destruct (span_nonzero r) as [p z]. cbn [fst snd] in *.
  unfold k. cbn [before after caps]. rewrite zeros_to_eol_spec.
  cbn [JsString.truthy andb].
  destruct (JsString.truthy z && zeros z); [ | reflexivity ].
  cbn [outcome caps after capture Nat.eqb].
  unfold consumed, st. cbn [after].
  rewrite <- A.
  change (String "." (String c (p ++ z))) with ((String "." (String c p)) ++ z).
  rewrite take_app. reflexivity.
Qed.

Lemma no_match :
  forall b c a,
    Ascii.eqb c "." = false ->
    match_at false FORMAT_DECIMALS_RE b (String c a) = None.
Proof.
  intros b c a E.
  cbv [match_at FORMAT_DECIMALS_RE Plus run step same after before caps].
  rewrite (Ascii.eqb_sym "." c), E. reflexivity.
Qed.

Lemma search_none :
  forall a b, no_dot a = true -> search false FORMAT_DECIMALS_RE b a = None.
Proof.
  induction a as [|c a IH]; intros b N; [ reflexivity | ].
  cbn [no_dot all_chars] in N. apply andb_true_iff in N.
  destruct N as [Nc Na]. apply negb_true_iff in Nc.
  cbn [search]. rewrite no_match by exact Nc. apply IH. exact Na.
Qed.

Lemma search_skip :
  forall int b rest,
    no_dot int = true ->
    search false FORMAT_DECIMALS_RE b (int ++ rest)
    = search false FORMAT_DECIMALS_RE (rev_onto int b) rest.
Proof.
  induction int as [|c a IH]; intros b rest N; [ reflexivity | ].
  cbn [no_dot all_chars] in N. apply andb_true_iff in N.
  destruct N as [Nc Na]. apply negb_true_iff in Nc.
  cbn [append search rev_onto]. rewrite no_match by exact Nc.
  apply IH. exact Na.
Qed.

Lemma replace_no_point :
  forall s,
    no_dot s = true -> replace false FORMAT_DECIMALS_RE 1 s "$1" = s.
Proof.
  intros s N. unfold replace. rewrite search_none by exact N. reflexivity.
Qed.

Lemma replace_point :
  forall int frac,
    no_dot int = true ->
    no_dot frac = true ->
    replace false FORMAT_DECIMALS_RE 1 (int ++ "." ++ frac) "$1"
    = strip int frac.
Proof.
  intros int frac NI NF.
  unfold replace. rewrite search_skip by exact NI.
  cbn [append search]. unfold match_at.
  pose proof (match_at_point (rev_onto int "") frac) as M.
  unfold strip.
  destruct (run false FORMAT_DECIMALS_RE
                (mkState (rev_onto int "") (String "." frac) []) Some)
    as [st'|] eqn:R; cbn [outcome] in M.
  - assert (S1 : forall st,
               substitution 1 (st, st') "$1"
               = match capture 1 (caps st') with
                 | Some s => s
                 | None => ""
                 end ++ "") by reflexivity.
    rewrite S1. cbn [before]. rewrite rev_onto_twice.
    cbn [rev_onto]. rewrite app_empty.
    destruct (zeros frac).
    + injection M as M1 M2. rewrite M1, M2. cbn [append].
      rewrite app_empty. reflexivity.
    + destruct (span_nonzero frac) as [p z].
      destruct (JsString.truthy p && JsString.truthy z && zeros z);
        [ | discriminate M ].
      injection M as M1 M2. rewrite M1, M2.
      rewrite !app_empty. reflexivity.
  - rewrite search_none by exact NF.
    destruct (zeros frac); [ discriminate M | ].
    destruct (span_nonzero frac) as [p z].
    destruct (JsString.truthy p && JsString.truthy z && zeros z);
      [ discriminate M | reflexivity ].
Qed.

(** X9. [formattedValue.replace(FORMAT_DECIMALS_RE, '$1')] on a text
    with one point, or none: without a point the text is unchanged; a
    fraction made of zeros goes away with its point; zeros at the end of
    the fraction go away when no zero comes before them in the fraction;
    and every other text is unchanged, so that the zero at the end of
    [2.050] stays. What follows the point need not be made of digits: the
    zero at the end of [1.5e+30] goes away. *)
Theorem decimals_stripped :
  forall int frac : string,
    no_dot int = true ->
    no_dot frac = true ->
    replace false FORMAT_DECIMALS_RE 1 int "$1" = int
    /\ replace false FORMAT_DECIMALS_RE 1 (int ++ "." ++ frac) "$1"
       = strip int frac.
Proof.
  intros int frac NI NF. split.
  - apply replace_no_point. exact NI.
  - apply replace_point; assumption.
Qed.

Lemma decimals_stripped_witness :
  replace false FORMAT_DECIMALS_RE 1 "2" "$1" = "2"
  /\ replace false FORMAT_DECIMALS_RE 1 ("2" ++ "." ++ "050") "$1"
     = strip "2" "050".
Proof.
  apply (decimals_stripped "2" "050"); reflexivity.
Defined.

End Decimals.

(** ** The text of a formatted value *)

Module FormatText.

Import Regex Thousands Decimals.

Lemma all_chars_app :
  forall p x y, all_chars p (x ++ y) = all_chars p x && all_chars p y.
Proof.
  intros p x y. induction x as [|c x IH]; [ reflexivity | ].
  cbn [append all_chars]. rewrite IH. apply andb_assoc.
Qed.

Lemma all_chars_repeat :
  forall p c n, p c = true -> all_chars p (JsString.repeat_char c n) = true.
Proof.
  intros p c n H. induction n as [|n IH]; [ reflexivity | ].
  cbn [JsString.repeat_char all_chars]. rewrite H, IH. reflexivity.
Qed.

Lemma all_chars_take :
  forall p n s, all_chars p s = true -> all_chars p (JsString.take n s) = true.
Proof.
  intros p n. induction n as [|n IH]; intros s H; [ reflexivity | ].
  destruct s as [|c s]; [ reflexivity | ].
  cbn [all_chars] in H. apply andb_true_iff in H. destruct H as [Hc Hs].
  cbn [JsString.take all_chars]. rewrite Hc, (IH s Hs). reflexivity.
Qed.

Lemma all_chars_drop :
  forall p n s, all_chars p s = true -> all_chars p (JsString.drop n s) = true.
Proof.
  intros p n. induction n as [|n IH]; intros s H; [ exact H | ].
  destruct s as [|c s]; [ reflexivity | ].
  cbn [all_chars] in H. apply andb_true_iff in H. destruct H as [Hc Hs].
  cbn [JsString.drop]. apply IH. exact Hs.
Qed.

Lemma all_chars_weaken :
  forall (p q : ascii -> bool) s,
    (forall c, p c = true -> q c = true) ->
    all_chars p s = true -> all_chars q s = true.
Proof.
  intros p q s W. induction s as [|c s IH]; intros H; [ reflexivity | ].
  cbn [all_chars] in *. apply andb_true_iff in H. destruct H as [Hc Hs].
  rewrite (W c Hc), (IH Hs). reflexivity.
Qed.

Lemma digit_not_point :
  forall c, JsString.is_digit c = true -> negb (Ascii.eqb c ".") = true.
Proof.
  intros c H. destruct (Ascii.eqb c ".") eqn:E; [ | reflexivity ].
  apply Ascii.eqb_eq in E. subst c. discriminate H.
Qed.

Lemma digits_no_dot :
  forall s, all_chars JsString.is_digit s = true -> no_dot s = true.
Proof.
  intros s H. unfold no_dot.
  apply (all_chars_weaken JsString.is_digit); [ apply digit_not_point | exact H ].
Qed.

Lemma take_drop :
  forall n s, JsString.take n s ++ JsString.drop n s = s.
Proof.
  induction n as [|n IH]; intros s; [ reflexivity | ].
  destruct s as [|c s]; [ reflexivity | ].
  cbn [JsString.take JsString.drop append]. rewrite IH. reflexivity.
Qed.

Lemma drop_length :
  forall n s,
    String.length (JsString.drop n s) = (String.length s - n)%nat.
Proof.
  induction n as [|n IH]; intros s; [ cbn; lia | ].
  destruct s as [|c s]; [ reflexivity | ].
  cbn [JsString.drop String.length]. rewrite IH. lia.
Qed.

Lemma repeat_length :
  forall c n, String.length (JsString.repeat_char c n) = n.
Proof.
  intros c n. induction n as [|n IH]; [ reflexivity | ].
  cbn [JsString.repeat_char String.length]. rewrite IH. reflexivity.
Qed.

Lemma truthy_length :
  forall s, JsString.truthy s = negb (String.length s =? 0)%nat.
Proof. intros [|c s]; reflexivity. Qed.

Lemma uint_digits :
  forall d, all_chars JsString.is_digit (NilZero.string_of_uint d) = true.
Proof.
  assert (U : forall d,
             all_chars JsString.is_digit (NilEmpty.string_of_uint d) = true).
  { induction d; cbn [NilEmpty.string_of_uint all_chars];
      rewrite ?IHd; reflexivity. }
  intros d. destruct d; try apply U. reflexivity.
Qed.

Lemma digits_of_digits :
  forall n, all_chars JsString.is_digit (digits_of n) = true.
Proof. intros n. apply uint_digits. Qed.

(** The digits that [toFixed] writes, with their point. *)
Lemma toFixed_text :
  forall x places f,
    toIntegerOrInfinity places = Some f ->
    (0 <= f <= 100)%Z ->
    below_1e21 x = true ->
    exists (negative : bool) (int frac : string),
      toFixed x places
      = Normal ((if negative then "-" else "") ++ int ++ point frac)
      /\ all_chars JsString.is_digit int = true
      /\ JsString.truthy int = true
      /\ all_chars JsString.is_digit frac = true
      /\ String.length frac = Z.to_nat f.
Proof.
  intros x places f P R B. unfold toFixed. rewrite P.
  replace ((f <? 0)%Z || (100 <? f)%Z) with false
    by (symmetry; apply orb_false_iff; split; apply Z.ltb_ge; lia).
  destruct x as [s| | |s m e]; try discriminate B.
  - exists false, "0", (JsString.repeat_char "0" (Z.to_nat f)).
    rewrite repeat_length.
    split; [ | split; [ reflexivity | split; [ reflexivity | split;
      [ apply all_chars_repeat; reflexivity | reflexivity ] ] ] ].
    destruct (f =? 0)%Z eqn:E.
    + apply Z.eqb_eq in E. subst f. reflexivity.
    + unfold point. rewrite truthy_length, repeat_length.
      apply Z.eqb_neq in E.
      destruct (Z.to_nat f) eqn:F; [ lia | reflexivity ].
  - cbn [below_1e21] in B.
    destruct (fraction m e) as [a b].
    apply negb_true_iff in B. rewrite B.
    set (n := ((2 * a * 10 ^ f + b) / (2 * b))%Z).
    set (d := JsString.repeat_char "0"
                (Z.to_nat f + 1 - String.length (digits_of n))
              ++ digits_of n).
    assert (D : all_chars JsString.is_digit d = true).
    { unfold d. rewrite all_chars_app, digits_of_digits.
      rewrite all_chars_repeat by reflexivity. reflexivity. }
    assert (L : (Z.to_nat f + 1 <= String.length d)%nat).
    { unfold d. rewrite app_length, repeat_length. lia. }
    exists s, (JsString.take (String.length d - Z.to_nat f) d),
           (JsString.drop (String.length d - Z.to_nat f) d).
    rewrite drop_length.
    split; [ | split; [ apply all_chars_take; exact D | split;
      [ | split; [ apply all_chars_drop; exact D | lia ] ] ] ].
    + destruct (f =? 0)%Z eqn:E.
      * apply Z.eqb_eq in E. subst f.
        unfold point. rewrite truthy_length, drop_length.
        replace (String.length d - (String.length d - Z.to_nat 0) =? 0)%nat
          with true by (symmetry; apply Nat.eqb_eq; cbn; lia).
        cbn [negb]. rewrite app_empty.
        pose proof (take_drop (String.length d - Z.to_nat 0) d) as T.
        assert (Z : JsString.drop (String.length d - Z.to_nat 0) d = "").
        { pose proof (drop_length (String.length d - Z.to_nat 0) d) as Q.
          destruct (JsString.drop _ d); [ reflexivity | ].
          cbn [String.length] in Q. cbn in Q. lia. }
        rewrite Z, app_empty in T. rewrite T. reflexivity.
      * apply Z.eqb_neq in E.
        unfold point. rewrite truthy_length, drop_length.
        replace (String.length d - (String.length d - Z.to_nat f) =? 0)%nat
          with false by (symmetry; apply Nat.eqb_neq; lia).
        reflexivity.
    + rewrite truthy_length.
      assert (Q : String.length d
                  = (String.length
                       (JsString.take (String.length d - Z.to_nat f) d)
                     + String.length
                         (JsString.drop (String.length d - Z.to_nat f) d))%nat).
      { rewrite <- app_length, take_drop. reflexivity. }
      rewrite drop_length in Q.
      apply negb_true_iff, Nat.eqb_neq. lia.
Qed.

Lemma split_char :
  forall c rest,
    Ascii.eqb c "." = false ->
    split_dot (String c rest)
    = let '(i, d) := split_dot rest in (String c i, d).
Proof.
  intros c rest E.
  destruct c as [[] [] [] [] [] [] [] []];
    first [ discriminate E | reflexivity ].
Qed.

Lemma split_plain :
  forall s, no_dot s = true -> split_dot s = (s, None).
Proof.
  induction s as [|c s IH]; intros N; [ reflexivity | ].
  cbn [no_dot all_chars] in N. apply andb_true_iff in N.
  destruct N as [Nc Ns]. apply negb_true_iff in Nc.
  rewrite split_char by exact Nc. rewrite (IH Ns). reflexivity.
Qed.

Lemma split_point :
  forall x g,
    no_dot x = true -> no_dot g = true ->
    split_dot (x ++ "." ++ g) = (x, Some g).
Proof.
  induction x as [|c x IH]; intros g Nx Ng.
  - cbn [append split_dot]. rewrite (split_plain g Ng). reflexivity.
  - cbn [no_dot all_chars] in Nx. apply andb_true_iff in Nx.
    destruct Nx as [Nc Nx]. apply negb_true_iff in Nc.
    cbn [append]. rewrite split_char by exact Nc.
    change (String "." g) with ("." ++ g).
    rewrite (IH g Nx Ng). reflexivity.
Qed.

Lemma span_no_dot :
  forall s, no_dot s = true -> no_dot (fst (span_nonzero s)) = true.
Proof.
  induction s as [|c s IH]; intros N; [ reflexivity | ].
  cbn [no_dot all_chars] in N. apply andb_true_iff in N.
  destruct N as [Nc Ns]. specialize (IH Ns).
  cbn [span_nonzero]. destruct (Ascii.eqb c "0"); [ reflexivity | ].
  destruct (span_nonzero s) as [p z]. cbn [fst] in *.
  cbn [no_dot all_chars]. rewrite Nc. exact IH.
Qed.

Lemma strip_app :
  forall int frac, strip int frac = int ++ strip "" frac.
Proof.
  intros int frac. unfold strip.
  destruct (zeros frac); [ rewrite app_empty; reflexivity | ].
  destruct (span_nonzero frac) as [p z].
  destruct (JsString.truthy p && JsString.truthy z && zeros z); reflexivity.
Qed.

(** What is kept of a fraction is nothing, or a point and a text
    without a point. *)
Lemma kept_cases :
  forall fixedDecimals frac,
    no_dot frac = true ->
    kept fixedDecimals frac = ""
    \/ exists g, kept fixedDecimals frac = "." ++ g /\ no_dot g = true.
Proof.
  intros fixedDecimals frac N. unfold kept.
  destruct (JsString.truthy frac); [ | left; reflexivity ].
  destruct fixedDecimals; [ right; exists frac; split; [ reflexivity | exact N ] | ].
  unfold strip. destruct (zeros frac); [ left; reflexivity | ].
  pose proof (span_no_dot frac N) as S.
  destruct (span_nonzero frac) as [p z]. cbn [fst] in S.
  destruct (JsString.truthy p && JsString.truthy z && zeros z);
    right; [ exists p | exists frac ]; split; (reflexivity || assumption).
Qed.

Lemma grouped_plain :
  forall digits, grouped "" digits = digits.
Proof.
  induction digits as [|c r IH]; [ reflexivity | ].
  cbn [grouped]. rewrite IH.
  destruct (negb (String.length r =? 0)%nat && (String.length r mod 3 =? 0)%nat);
    reflexivity.
Qed.

(** X10. The text of [formatValue] for a unit of the tables, a number of
    decimal places from 0 to 100 and a quotient below 10^21 in magnitude,
    zero included: [toFixed] gives an optional minus sign, a digit string
    that is not empty and, when the places are not 0, a point and as many
    digits as there are places; [formatValue] returns the sign, the
    digits before the point with the thousands separator before every
    group of three counted from the point, and of the fraction all of it
    when the decimals are fixed, and what the removal of zeros leaves of
    it otherwise. The separator is taken literally when it has no [$] in
    it. *)
Theorem formatValue_text :
  forall (value : number) (unit label : string) (decimalPlaces : number)
         (fixedDecimals : bool) (thousandsSeparator : string) (f : Z),
    toUnitLabel unit = Some label ->
    toIntegerOrInfinity decimalPlaces = Some f ->
    (0 <= f <= 100)%Z ->
    below_1e21 (div value (ToNumber (get UNIT_VALUE_BY_LABEL label))) = true ->
    all_chars (fun c => negb (Ascii.eqb c "$")) thousandsSeparator = true ->
    exists (negative : bool) (int frac : string),
      let sign := if negative then "-" else "" in
      toFixed (div value (ToNumber (get UNIT_VALUE_BY_LABEL label)))
              decimalPlaces
      = Normal (sign ++ int ++ point frac)
      /\ all_chars JsString.is_digit int = true
      /\ JsString.truthy int = true
      /\ all_chars JsString.is_digit frac = true
      /\ String.length frac = Z.to_nat f
      /\ formatValue value unit decimalPlaces fixedDecimals thousandsSeparator
         = Normal (sign ++ grouped thousandsSeparator int
                        ++ kept fixedDecimals frac).
Proof.
  intros value unit label places fixed sep f U P R B S.
  destruct (toFixed_text _ places f P R B)
    as (negative & int & frac & T & Di & Ti & Df & Lf).
  exists negative, int, frac. cbn zeta.
  split; [ exact T | ]. split; [ exact Di | ]. split; [ exact Ti | ].
  split; [ exact Df | ]. split; [ exact Lf | ].
  unfold formatValue. rewrite U, T. cbn [bind].
  set (sign := if negative then "-" else "").
  assert (Ns : no_dot (sign ++ int) = true).
  { unfold no_dot. rewrite all_chars_app. fold (no_dot int).
    rewrite (digits_no_dot int Di).
    destruct negative; reflexivity. }
  assert (Nf : no_dot frac = true) by (apply digits_no_dot; exact Df).
  (* the removal of zeros *)
  assert (Z1 : (if negb fixed
                then replace false FORMAT_DECIMALS_RE 1
                             (sign ++ int ++ point frac) "$1"
                else sign ++ int ++ point frac)
               = (sign ++ int) ++ kept fixed frac).
  { unfold point, kept. rewrite <- app_assoc.
    destruct (JsString.truthy frac).
    - destruct fixed; cbn [negb]; [ reflexivity | ].
      rewrite replace_point by assumption. apply strip_app.
    - rewrite app_empty.
      destruct fixed; cbn [negb]; [ reflexivity | ].
      apply replace_no_point. exact Ns. }
  rewrite Z1. clear Z1.
  (* the separator *)
  assert (G : replace_all_from false FORMAT_THOUSANDS_RE 1 sep 0 ""
                               (sign ++ int)
              = sign ++ grouped sep int).
  { unfold sign. destruct negative; cbn [append].
    - exact (from_minus sep S int Di).
    - change (Facts.from sep "" int = grouped sep int).
      rewrite (from_word sep S int "" Di). reflexivity. }
  f_equal.
  destruct (JsString.truthy sep) eqn:Ts.
  - destruct (kept_cases fixed frac Nf) as [K|(g & K & Ng)]; rewrite K.
    + rewrite app_empty. rewrite (split_plain _ Ns), G.
      rewrite app_empty. reflexivity.
    + rewrite (split_point _ g Ns Ng), G. rewrite app_assoc. reflexivity.
  - destruct sep; [ | discriminate Ts ].
    rewrite grouped_plain. apply app_assoc.
Qed.

(** The theorem at [-1234567.5] bytes with a comma and two places. *)
Lemma formatValue_text_witness :
  exists (negative : bool) (int frac : string),
    let sign := if negative then "-" else "" in
    toFixed (div (of_ratio true 12345675 10)
                 (ToNumber (get UNIT_VALUE_BY_LABEL "B")))
            (of_Z 2)
    = Normal (sign ++ int ++ point frac)
    /\ all_chars JsString.is_digit int = true
    /\ JsString.truthy int = true
    /\ all_chars JsString.is_digit frac = true
    /\ String.length frac = Z.to_nat 2
    /\ formatValue (of_ratio true 12345675 10) "b" (of_Z 2) false ","
       = Normal (sign ++ grouped "," int ++ kept false frac).
Proof.
  apply (formatValue_text (of_ratio true 12345675 10) "b" "B" (of_Z 2)
                          false "," 2);
    [ reflexivity | reflexivity | lia | reflexivity | reflexivity ].
Defined.

End FormatText.

(** ** Letter case *)

Module LetterCase.

Import Regex.

Lemma upper_lower_char :
  forall c,
    JsString.upper_char (JsString.lower_char c) = JsString.upper_char c.
Proof. intros [[] [] [] [] [] [] [] []]; reflexivity. Qed.

Lemma lower_lower_char :
  forall c,
    JsString.lower_char (JsString.lower_char c) = JsString.lower_char c.
Proof. intros [[] [] [] [] [] [] [] []]; reflexivity. Qed.

Lemma digit_lower :
  forall c, JsString.is_digit (JsString.lower_char c) = JsString.is_digit c.
Proof. intros [[] [] [] [] [] [] [] []]; reflexivity. Qed.

Lemma digit_fixed :
  forall c, JsString.is_digit c = true -> JsString.lower_char c = c.
Proof.
  intros [[] [] [] [] [] [] [] []] H;
    first [ reflexivity | discriminate H ].
Qed.

Lemma space_lower :
  forall c, JsString.is_space (JsString.lower_char c) = JsString.is_space c.
Proof. intros [[] [] [] [] [] [] [] []]; reflexivity. Qed.

Lemma word_lower :
  forall c, is_word (JsString.lower_char c) = is_word c.
Proof. intros [[] [] [] [] [] [] [] []]; reflexivity. Qed.

Lemma sign_class_lower :
  forall c,
    (Ascii.eqb (JsString.lower_char c) "+"
     || Ascii.eqb (JsString.lower_char c) "-")
    = (Ascii.eqb c "+" || Ascii.eqb c "-").
Proof. intros [[] [] [] [] [] [] [] []]; reflexivity. Qed.

Lemma exponent_mark_lower :
  forall c,
    (Ascii.eqb (JsString.lower_char c) "e"
     || Ascii.eqb (JsString.lower_char c) "E")
    = (Ascii.eqb c "e" || Ascii.eqb c "E").
Proof. intros [[] [] [] [] [] [] [] []]; reflexivity. Qed.

Lemma same_lower :
  forall c d, same true c (JsString.lower_char d) = same true c d.
Proof. intros c d. unfold same. rewrite upper_lower_char. reflexivity. Qed.

Lemma lower_twice :
  forall s,
    JsString.toLowerCase (JsString.toLowerCase s) = JsString.toLowerCase s.
Proof.
  induction s as [|c s IH]; [ reflexivity | ].
  unfold JsString.toLowerCase in *. cbn [JsString.map_chars].
  rewrite lower_lower_char, IH. reflexivity.
Qed.

Lemma lower_length :
  forall s, String.length (JsString.toLowerCase s) = String.length s.
Proof. intros s. apply map_chars_length. Qed.

Lemma word_at_lower :
  forall s, word_at (JsString.toLowerCase s) = word_at s.
Proof. intros [|c s]; [ reflexivity | apply word_lower ]. Qed.

Lemma take_lower :
  forall n s,
    JsString.take n (JsString.toLowerCase s)
    = JsString.toLowerCase (JsString.take n s).
Proof.
  induction n as [|n IH]; intros s; [ destruct s; reflexivity | ].
  destruct s as [|c s]; [ reflexivity | ].
  unfold JsString.toLowerCase in *.
  cbn [JsString.map_chars JsString.take]. rewrite IH. reflexivity.
Qed.

Lemma consumed_lower :
  forall st st',
    consumed (lower_state st) (lower_state st')
    = JsString.toLowerCase (consumed st st').
Proof.
  intros st st'. unfold consumed, lower_state. cbn [after].
  rewrite !lower_length. apply take_lower.
Qed.

Lemma step_lower :
  forall st,
    step (lower_state st)
    = match step st with
      | Some (c, st') => Some (JsString.lower_char c, lower_state st')
      | None => None
      end.
Proof. intros [b [|c a] cs]; reflexivity. Qed.

Lemma after_lower_length :
  forall st,
    String.length (after (lower_state st)) = String.length (after st).
Proof. intros st. apply lower_length. Qed.

(** The star of a body that goes through the lower case goes through
    it. *)
Lemma star_lower :
  forall body : state -> (state -> option state) -> option state,
    (forall st k k',
        (forall s, k' (lower_state s) = option_map lower_state (k s)) ->
        body (lower_state st) k' = option_map lower_state (body st k)) ->
    forall n st k k',
      (forall s, k' (lower_state s) = option_map lower_state (k s)) ->
      star_loop body k' n (lower_state st)
      = option_map lower_state (star_loop body k n st).
Proof.
  intros body H. induction n as [|n IH]; intros st k k' K.
  - apply K.
  - cbn [star_loop].
    rewrite H
      with (k := fun st' =>
                   if (String.length (after st') <? String.length (after st))%nat
                   then star_loop body k n st' else None).
    + destruct (body st _) as [x|]; [ reflexivity | apply K ].
    + intros s. rewrite !after_lower_length.
      destruct (String.length (after s) <? String.length (after st))%nat;
        [ apply IH; exact K | reflexivity ].
Qed.

(** Matching with the [i] flag goes through the lower case of the
    subject. *)
Lemma run_lower :
  forall r,
    blind r ->
    forall st k k',
      (forall s, k' (lower_state s) = option_map lower_state (k s)) ->
      run true r (lower_state st) k'
      = option_map lower_state (run true r st k).
Proof.
  induction r as [ |c|p|r1 IH1 r2 IH2|r1 IH1 r2 IH2|r1 IH1|i r1 IH1
                 | | | |r1 IH1|r1 IH1];
    intros B st k k' K; cbn [run blind] in *.
  - apply K.
  - rewrite step_lower. destruct (step st) as [[d st']|]; [ | reflexivity ].
    rewrite same_lower. destruct (same true c d); [ apply K | reflexivity ].
  - rewrite step_lower. destruct (step st) as [[d st']|]; [ | reflexivity ].
    rewrite B. destruct (p d); [ apply K | reflexivity ].
  - destruct B as [B1 B2]. apply IH1; [ exact B1 | ].
    intros s. apply IH2; assumption.
  - destruct B as [B1 B2]. rewrite (IH1 B1 st k k' K).
    destruct (run true r1 st k); [ reflexivity | ].
    apply IH2; assumption.
  - rewrite after_lower_length.
    apply star_lower; [ | exact K ].
    intros st0 k0 k0' K0. apply IH1; assumption.
  - apply IH1; [ exact B | ].
    intros s. rewrite consumed_lower.
    apply (K (mkState (before s) (after s) ((i, consumed st s) :: caps s))).
  - destruct st as [[|c b] a cs]; [ | reflexivity ].
    apply (K (mkState "" a cs)).
  - destruct st as [b [|c a] cs]; [ | reflexivity ].
    apply (K (mkState b "" cs)).
  - unfold lower_state at 1 2. cbn [before after].
    rewrite !word_at_lower.
    destruct (Bool.eqb (word_at (before st)) (word_at (after st)));
      [ apply K | reflexivity ].
  - rewrite (IH1 B st Some Some) by (intros s; reflexivity).
    destruct (run true r1 st Some) as [s|]; [ | reflexivity ].
    apply (K (mkState (before st) (after st) (caps s))).
  - rewrite (IH1 B st Some Some) by (intros s; reflexivity).
    destruct (run true r1 st Some) as [s|]; [ reflexivity | apply K ].
Qed.

Lemma match_at_lower :
  forall r,
    blind r ->
    forall b a,
      match_at true r (JsString.toLowerCase b) (JsString.toLowerCase a)
      = option_map lower_match (match_at true r b a).
Proof.
  intros r B b a. unfold match_at. cbv zeta.
  change (mkState (JsString.toLowerCase b) (JsString.toLowerCase a) [])
    with (lower_state (mkState b a [])).
  rewrite (run_lower r B (mkState b a []) Some Some)
    by (intros s; reflexivity).
  destruct (run true r (mkState b a []) Some); reflexivity.
Qed.

Lemma search_lower :
  forall r,
    blind r ->
    forall a b,
      search true r (JsString.toLowerCase b) (JsString.toLowerCase a)
      = option_map lower_match (search true r b a).
Proof.
  intros r B. induction a as [|c a IH]; intros b.
  - pose proof (match_at_lower r B b "") as M.
    change (JsString.toLowerCase "") with "" in *.
    cbn [search]. rewrite M.
    destruct (match_at true r b ""); reflexivity.
  - pose proof (match_at_lower r B b (String c a)) as M.
    change (JsString.toLowerCase (String c a))
      with (String (JsString.lower_char c) (JsString.toLowerCase a)) in *.
    cbn [search]. rewrite M.
    destruct (match_at true r b (String c a)); [ reflexivity | ].
    apply (IH (String c b)).
Qed.

Lemma exec_lower :
  forall r s,
    blind r ->
    exec true r (JsString.toLowerCase s)
    = option_map lower_caps (exec true r s).
Proof.
  intros r s B. unfold exec.
  pose proof (search_lower r B s "") as S.
  change (JsString.toLowerCase "") with "" in S. rewrite S.
  destruct (search true r "" s) as [[st st']|]; reflexivity.
Qed.

Lemma capture_lower :
  forall i cs,
    capture i (lower_caps cs)
    = option_map JsString.toLowerCase (capture i cs).
Proof.
  intros i cs. induction cs as [|[j s] cs IH]; [ reflexivity | ].
  cbn [lower_caps map capture]. destruct (i =? j)%nat; [ reflexivity | ].
  exact IH.
Qed.

Lemma blind_word : forall w, blind (Word w).
Proof.
  induction w as [|c w IH]; [ exact I | ]. cbn [Word blind]. tauto.
Qed.

Lemma blind_alternatives :
  forall ws last, blind (alternatives (map Word ws) (Word last)).
Proof.
  induction ws as [|w ws IH]; intros last; cbn [map alternatives blind].
  - apply blind_word.
  - split; [ apply blind_word | apply IH ].
Qed.

Lemma blind_PARSE_RE : blind PARSE_RE.
Proof.
  unfold PARSE_RE, Plus, Opt, digit, space. cbn [blind].
  pose proof digit_lower. pose proof space_lower.
  pose proof sign_class_lower.
  pose proof (blind_alternatives PARSEABLE_UNITS "b").
  tauto.
Qed.

Lemma trimStart_lower :
  forall s,
    JsString.trimStart (JsString.toLowerCase s)
    = JsString.toLowerCase (JsString.trimStart s).
Proof.
  induction s as [|c s IH]; [ reflexivity | ].
  change (JsString.toLowerCase (String c s))
    with (String (JsString.lower_char c) (JsString.toLowerCase s)).
  cbn [JsString.trimStart]. rewrite space_lower.
  destruct (JsString.is_space c); [ exact IH | reflexivity ].
Qed.

Lemma trimEnd_lower :
  forall s,
    JsString.trimEnd (JsString.toLowerCase s)
    = JsString.toLowerCase (JsString.trimEnd s).
Proof.
  induction s as [|c s IH]; [ reflexivity | ].
  change (JsString.toLowerCase (String c s))
    with (String (JsString.lower_char c) (JsString.toLowerCase s)).
  cbn [JsString.trimEnd]. rewrite IH, space_lower.
  destruct (JsString.trimEnd s); [ | reflexivity ].
  change (JsString.toLowerCase "") with "". cbv iota.
  destruct (JsString.is_space c); reflexivity.
Qed.

Lemma trim_lower :
  forall s,
    JsString.trim (JsString.toLowerCase s)
    = JsString.toLowerCase (JsString.trim s).
Proof.
  intros s. unfold JsString.trim. rewrite trimStart_lower. apply trimEnd_lower.
Qed.

(** *** [parseFloat] *)

Lemma digits_span_lower :
  forall s,
    digits_span (JsString.toLowerCase s)
    = (fst (digits_span s), JsString.toLowerCase (snd (digits_span s))).
Proof.
  induction s as [|c s IH]; [ reflexivity | ].
  change (JsString.toLowerCase (String c s))
    with (String (JsString.lower_char c) (JsString.toLowerCase s)).
  cbn [digits_span]. rewrite digit_lower.
  destruct (JsString.is_digit c) eqn:D; [ | reflexivity ].
  rewrite IH, (digit_fixed c D).
  destruct (digits_span s) as [d r]. reflexivity.
Qed.

Lemma sign_of_lower :
  forall t,
    sign_of (JsString.toLowerCase t)
    = (fst (sign_of t), JsString.toLowerCase (snd (sign_of t))).
Proof.
  intros [|c t]; [ reflexivity | ].
  destruct c as [[] [] [] [] [] [] [] []]; reflexivity.
Qed.

Lemma fraction_of_lower :
  forall r1,
    fraction_of (JsString.toLowerCase r1)
    = (fst (fraction_of r1), JsString.toLowerCase (snd (fraction_of r1))).
Proof.
  intros [|c r]; [ reflexivity | ].
  destruct c as [[] [] [] [] [] [] [] []];
    first [ apply digits_span_lower | reflexivity ].
Qed.

Lemma exponent_part_lower :
  forall s,
    exponent_part (JsString.toLowerCase s)
    = (fst (exponent_part s), JsString.toLowerCase (snd (exponent_part s))).
Proof.
  intros [|c r]; [ reflexivity | ].
  change (JsString.toLowerCase (String c r))
    with (String (JsString.lower_char c) (JsString.toLowerCase r)).
  unfold exponent_part. rewrite exponent_mark_lower.
  destruct (Ascii.eqb c "e" || Ascii.eqb c "E"); [ | reflexivity ].
  change (match JsString.toLowerCase r with
          | String "-" t => (true, t)
          | String "+" t => (false, t)
          | _ => (false, JsString.toLowerCase r)
          end) with (sign_of (JsString.toLowerCase r)).
  change (match r with
          | String "-" t => (true, t)
          | String "+" t => (false, t)
          | _ => (false, r)
          end) with (sign_of r).
  rewrite sign_of_lower. destruct (sign_of r) as [neg r']. cbn [fst snd].
  rewrite digits_span_lower. destruct (digits_span r') as [d rest].
  cbn [fst snd]. destruct d; reflexivity.
Qed.

Lemma no_infinity :
  forall t, String.prefix "Infinity" (JsString.toLowerCase t) = false.
Proof.
  intros [|c t]; [ reflexivity | ].
  change (JsString.toLowerCase (String c t))
    with (String (JsString.lower_char c) (JsString.toLowerCase t)).
  cbn [String.prefix].
  destruct (ascii_dec "I" (JsString.lower_char c)) as [E|N];
    [ | reflexivity ].
  exfalso. revert E.
  destruct c as [[] [] [] [] [] [] [] []]; discriminate.
Qed.

(** The literal at the start of a text in lower case: the same decimal
    literal, and none in the place of [Infinity]. *)
Lemma unsigned_literal_lower :
  forall neg t,
    unsigned_literal neg (JsString.toLowerCase t)
    = match unsigned_literal neg t with
      | Some (LDecimal n d e, rest) =>
          Some (LDecimal n d e, JsString.toLowerCase rest)
      | _ => None
      end.
Proof.
  intros neg t. unfold unsigned_literal. rewrite no_infinity.
  destruct (String.prefix "Infinity" t) eqn:P.
  - destruct t as [|c t]; [ discriminate P | ].
    cbn [String.prefix] in P.
    destruct (ascii_dec "I" c) as [E|N]; [ subst c | discriminate P ].
    reflexivity.
  - rewrite digits_span_lower. destruct (digits_span t) as [ip r1].
    cbn [fst snd]. rewrite fraction_of_lower.
    destruct (fraction_of r1) as [fp r2]. cbn [fst snd].
    rewrite exponent_part_lower. destruct (exponent_part r2) as [ex rest].
    cbn [fst snd]. destruct (ip ++ fp); reflexivity.
Qed.

Lemma str_decimal_literal_lower :
  forall t,
    str_decimal_literal (JsString.toLowerCase t)
    = match str_decimal_literal t with
      | Some (LDecimal n d e, rest) =>
          Some (LDecimal n d e, JsString.toLowerCase rest)
      | _ => None
      end.
Proof.
  intros t.
  change (str_decimal_literal (JsString.toLowerCase t))
    with (let '(neg, t') := sign_of (JsString.toLowerCase t) in
          unsigned_literal neg t').
  change (str_decimal_literal t)
    with (let '(neg, t') := sign_of t in unsigned_literal neg t').
  rewrite sign_of_lower. destruct (sign_of t) as [neg t']. cbn [fst snd].
  apply unsigned_literal_lower.
Qed.

(** [parseFloat] of a text in lower case is the same number, or is NaN
    where it was an infinity. *)
Lemma parseFloat_lower :
  forall s,
    parseFloat (JsString.toLowerCase s) = parseFloat s
    \/ (isFinite (parseFloat s) = false
        /\ isFinite (parseFloat (JsString.toLowerCase s)) = false).
Proof.
  intros s. unfold parseFloat. rewrite trimStart_lower.
  rewrite str_decimal_literal_lower.
  destruct (str_decimal_literal (JsString.trimStart s)) as [[[n|n d e] rest]|].
  - right. split; reflexivity.
  - left. reflexivity.
  - left. reflexivity.
Qed.

Lemma toByteUnit_lower :
  forall g, toByteUnit (JsString.toLowerCase g) = toByteUnit g.
Proof. intros g. unfold toByteUnit. rewrite lower_twice. reflexivity. Qed.

Lemma parseInput_lower :
  forall val, parseInput (JsString.toLowerCase val) = parseInput val.
Proof.
  intros val. unfold parseInput. rewrite trim_lower.
  rewrite (exec_lower PARSE_RE _ blind_PARSE_RE).
  destruct (exec true PARSE_RE (JsString.trim val)) as [cs|];
    cbn [option_map].
  - rewrite !capture_lower.
    set (g1 := match capture 1 cs with Some s => s | None => "" end).
    set (g2 := match capture 2 cs with Some s => s | None => "" end).
    replace (match option_map JsString.toLowerCase (capture 1 cs) with
             | Some s => s
             | None => ""
             end) with (JsString.toLowerCase g1)
      by (unfold g1; destruct (capture 1 cs); reflexivity).
    replace (match option_map JsString.toLowerCase (capture 2 cs) with
             | Some s => s
             | None => ""
             end) with (JsString.toLowerCase g2)
      by (unfold g2; destruct (capture 2 cs); reflexivity).
    rewrite toByteUnit_lower.
    destruct (toByteUnit g2) as [unit|]; [ | reflexivity ].
    destruct (parseFloat_lower g1) as [E|[F1 F2]].
    + rewrite E. reflexivity.
    + rewrite F1, F2. reflexivity.
  - destruct (parseFloat_lower (JsString.trim val)) as [E|[F1 F2]].
    + rewrite E. reflexivity.
    + rewrite F1, F2. reflexivity.
Qed.

(** X11. The letter case of the input is not looked at: two strings
    that are the same up to the case of their letters get the same
    result from [parseBytes], the same rejection included. *)
Theorem case_ignored :
  forall (val1 val2 : string) (options : Parse.Options),
    JsString.toLowerCase val1 = JsString.toLowerCase val2 ->
    parseBytes (Parse.Str val1) options = parseBytes (Parse.Str val2) options.
Proof.
  intros val1 val2 options H. unfold parseBytes.
  rewrite <- (parseInput_lower val1), <- (parseInput_lower val2), H.
  reflexivity.
Qed.

(** The theorem at [1.5 Gb] and [1.5 gB]. *)
Lemma case_ignored_witness :
  parseBytes (Parse.Str "1.5 Gb") Parse.empty
  = parseBytes (Parse.Str "1.5 gB") Parse.empty.
Proof.
  apply (case_ignored "1.5 Gb" "1.5 gB" Parse.empty). reflexivity.
Defined.

End LetterCase.

(** ** The grammar of the strict match *)

Module Grammar.

Import Regex Decimals FormatText LetterCase.

Lemma run_class :
  forall icase p b c r cs k,
    run icase (Class p) (mkState b (String c r) cs) k
    = if p c then k (mkState (String c b) r cs) else None.
Proof. reflexivity. Qed.

Lemma run_class_end :
  forall icase p b cs k, run icase (Class p) (mkState b "" cs) k = None.
Proof. reflexivity. Qed.

(** A greedy run of a class before a continuation that fails in front
    of the characters of the class takes all of them. *)
Lemma class_star :
  forall (icase : bool) (p : ascii -> bool) (k : state -> option state),
    (forall b c r cs, p c = true -> k (mkState b (String c r) cs) = None) ->
    forall w rest n b cs,
      all_chars p w = true ->
      stops p rest = true ->
      (String.length (w ++ rest) < n)%nat ->
      star_loop (run icase (Class p)) k n (mkState b (w ++ rest) cs)
      = k (mkState (rev_onto w b) rest cs).
Proof.
  intros icase p k K.
  induction w as [|c w IH]; intros rest n b cs W R L.
  - destruct n as [|n]; [ reflexivity | ].
    cbn [star_loop append rev_onto].
    destruct rest as [|c r]; [ reflexivity | ].
    rewrite run_class.
    cbn [stops] in R. apply negb_true_iff in R. rewrite R. reflexivity.
  - destruct n as [|n]; [ cbn in L; lia | ].
    cbn [all_chars] in W. apply andb_true_iff in W. destruct W as [Wc W].
    cbn [star_loop append rev_onto]. rewrite run_class. cbn [after].
    rewrite Wc.
    replace (String.length (w ++ rest) <? String.length (String c (w ++ rest)))%nat
      with true by (symmetry; apply Nat.ltb_lt; cbn [String.length]; lia).
    cbn [append String.length] in L.
    rewrite (IH rest n (String c b) cs W R) by lia.
    destruct (k (mkState (rev_onto w (String c b)) rest cs));
      [ reflexivity | ].
    apply K. exact Wc.
Qed.

Lemma plus_class :
  forall (icase : bool) (p : ascii -> bool) (k : state -> option state),
    (forall b c r cs, p c = true -> k (mkState b (String c r) cs) = None) ->
    forall w rest b cs,
      all_chars p w = true ->
      JsString.truthy w = true ->
      stops p rest = true ->
      run icase (Plus (Class p)) (mkState b (w ++ rest) cs) k
      = k (mkState (rev_onto w b) rest cs).
Proof.
  intros icase p k K w rest b cs W T R.
  destruct w as [|c w]; [ discriminate T | ].
  cbn [all_chars] in W. apply andb_true_iff in W. destruct W as [Wc W].
  change (run icase (Plus (Class p)) (mkState b (String c w ++ rest) cs) k)
    with (run icase (Class p) (mkState b (String c (w ++ rest)) cs)
              (fun s => star_loop (run icase (Class p)) k
                                  (S (String.length (after s))) s)).
  rewrite run_class, Wc. cbn [after].
  rewrite (class_star icase p k K w rest _ (String c b) cs W R) by lia.
  reflexivity.
Qed.

Lemma units_match :
  forall u b cs,
    In u lower_units ->
    units_k (mkState b u cs)
    = Some (mkState (rev_onto u b) "" ((2%nat, u) :: cs)).
Proof.
  intros u b cs H. vm_compute in H.
  repeat (destruct H as [H|H]; [ subst u; reflexivity | ]).
  contradiction.
Qed.

Lemma units_fail :
  forall c r b cs,
    JsString.is_space c || JsString.is_digit c || Ascii.eqb c "." = true ->
    units_k (mkState b (String c r) cs) = None.
Proof.
  intros c r b cs H.
  destruct c as [[] [] [] [] [] [] [] []];
    first [ discriminate H | reflexivity ].
Qed.

Lemma not_space :
  forall c,
    JsString.is_digit c || Ascii.eqb c "." = true ->
    JsString.is_space c = false.
Proof.
  intros c H.
  destruct c as [[] [] [] [] [] [] [] []];
    first [ discriminate H | reflexivity ].
Qed.

Lemma tail_fail :
  forall c r b cs,
    JsString.is_digit c || Ascii.eqb c "." = true ->
    tail_k (mkState b (String c r) cs) = None.
Proof.
  intros c r b cs H.
  change (tail_k (mkState b (String c r) cs))
    with (star_loop (run true (Class JsString.is_space)) units_k
                    (S (String.length (String c r)))
                    (mkState b (String c r) cs)).
  cbn [star_loop]. rewrite run_class.
  rewrite (not_space c H).
  apply units_fail. rewrite (not_space c H). exact H.
Qed.

Lemma unit_stops :
  forall u, In u lower_units ->
    stops JsString.is_space u = true
    /\ stops JsString.is_digit u = true
    /\ stops (fun c => same true "." c) u = true.
Proof.
  intros u H. vm_compute in H.
  repeat (destruct H as [H|H]; [ subst u; repeat split | ]).
  contradiction.
Qed.

Lemma tail_match :
  forall w u b cs,
    blank w = true ->
    In u lower_units ->
    tail_k (mkState b (w ++ u) cs)
    = Some (mkState (rev_onto u (rev_onto w b)) "" ((2%nat, u) :: cs)).
Proof.
  intros w u b cs W U.
  change (tail_k (mkState b (w ++ u) cs))
    with (star_loop (run true (Class JsString.is_space)) units_k
                    (S (String.length (w ++ u)))
                    (mkState b (w ++ u) cs)).
  rewrite (class_star true JsString.is_space units_k).
  - apply units_match. exact U.
  - intros b0 c r cs0 H. apply units_fail. rewrite H. reflexivity.
  - exact W.
  - apply unit_stops. exact U.
  - lia.
Qed.

Lemma group_fail :
  forall st0 c r b cs,
    JsString.is_digit c || Ascii.eqb c "." = true ->
    group_k st0 (mkState b (String c r) cs) = None.
Proof.
  intros st0 c r b cs H. unfold group_k. cbn [before after caps].
  apply tail_fail. exact H.
Qed.

Lemma blank_stops :
  forall w u,
    blank w = true -> In u lower_units ->
    stops JsString.is_digit (w ++ u) = true
    /\ stops (fun c => same true "." c) (w ++ u) = true.
Proof.
  intros w u W U. destruct w as [|c w].
  - cbn [append]. pose proof (unit_stops u U). tauto.
  - cbn [blank all_chars] in W. apply andb_true_iff in W.
    destruct W as [Wc _]. cbn [append stops].
    revert Wc. destruct c as [[] [] [] [] [] [] [] []];
      intros Wc; first [ discriminate Wc | split; reflexivity ].
Qed.

(** The optional fraction and what follows it. *)
Lemma fraction_match :
  forall st0 frac w u b cs,
    all_chars JsString.is_digit frac = true ->
    blank w = true ->
    In u lower_units ->
    fraction_k st0 (mkState b (point frac ++ w ++ u) cs)
    = group_k st0 (mkState (rev_onto (point frac) b) (w ++ u) cs).
Proof.
  intros st0 frac w u b cs F W U.
  destruct (blank_stops w u W U) as [S1 S2].
  unfold fraction_k, point. destruct frac as [|c f].
  - cbn [JsString.truthy append rev_onto].
    destruct (w ++ u) as [|d r] eqn:E; [ reflexivity | ].
    cbn [stops] in S2. apply negb_true_iff in S2.
    cbv [Opt fraction_re run step after before caps]. rewrite S2.
    reflexivity.
  - cbn [JsString.truthy].
    change (("." ++ String c f) ++ w ++ u)
      with (String "." (String c f ++ w ++ u)).
    change (run true (Opt fraction_re)
                (mkState b (String "." (String c f ++ w ++ u)) cs)
                (group_k st0))
      with (match run true (Plus (Class JsString.is_digit))
                      (mkState (String "." b) (String c f ++ w ++ u) cs)
                      (group_k st0) with
            | Some x => Some x
            | None =>
                group_k st0
                  (mkState b (String "." (String c f ++ w ++ u)) cs)
            end).
    rewrite (plus_class true JsString.is_digit (group_k st0));
      [ | intros b0 c0 r0 cs0 H; apply group_fail; rewrite H; reflexivity
        | exact F | reflexivity | exact S1 ].
    change (rev_onto ("." ++ String c f) b)
      with (rev_onto (String c f) (String "." b)).
    destruct (group_k st0 (mkState (rev_onto (String c f) (String "." b))
                                   (w ++ u) cs)); [ reflexivity | ].
    apply group_fail. reflexivity.
Qed.

Lemma fraction_fail :
  forall st0 c r b cs,
    JsString.is_digit c = true ->
    fraction_k st0 (mkState b (String c r) cs) = None.
Proof.
  intros st0 c r b cs H. unfold fraction_k.
  cbv [Opt fraction_re run step after before caps].
  replace (same true "." c) with false.
  - apply group_fail. rewrite H. reflexivity.
  - revert H. destruct c as [[] [] [] [] [] [] [] []]; intros H;
      first [ discriminate H | reflexivity ].
Qed.

Lemma point_stops :
  forall frac rest,
    stops JsString.is_digit rest = true ->
    stops JsString.is_digit (point frac ++ rest) = true.
Proof.
  intros frac rest H. unfold point.
  destruct (JsString.truthy frac); [ reflexivity | exact H ].
Qed.

(** The digits, the optional fraction and what follows them. *)
Lemma digits_match :
  forall st0 int frac w u b cs,
    all_chars JsString.is_digit int = true ->
    JsString.truthy int = true ->
    all_chars JsString.is_digit frac = true ->
    blank w = true ->
    In u lower_units ->
    run true (Plus digit) (mkState b (int ++ point frac ++ w ++ u) cs)
        (fraction_k st0)
    = Some (mkState (rev_onto u (rev_onto w
                       (rev_onto (point frac) (rev_onto int b))))
                    ""
                    ((2%nat, u)
                     :: (1%nat,
                         consumed st0
                           (mkState (rev_onto (point frac) (rev_onto int b))
                                    (w ++ u) cs))
                     :: cs)).
Proof.
  intros st0 int frac w u b cs I T F W U.
  unfold digit.
  rewrite (plus_class true JsString.is_digit (fraction_k st0));
    [ | intros b0 c0 r0 cs0 H; apply fraction_fail; exact H
      | exact I | exact T
      | apply point_stops; apply (blank_stops w u W U) ].
  rewrite (fraction_match st0 frac w u _ cs F W U).
  unfold group_k. cbn [before after caps].
  apply tail_match; assumption.
Qed.

Lemma digit_not_sign :
  forall c,
    JsString.is_digit c = true ->
    Ascii.eqb c "+" || Ascii.eqb c "-" = false.
Proof.
  intros c H. revert H. destruct c as [[] [] [] [] [] [] [] []]; intros H;
    first [ discriminate H | reflexivity ].
Qed.

Lemma digit_not_space :
  forall c, JsString.is_digit c = true -> JsString.is_space c = false.
Proof.
  intros c H. apply not_space. rewrite H. reflexivity.
Qed.

Lemma search_here :
  forall icase r b a m,
    match_at icase r b a = Some m -> search icase r b a = Some m.
Proof.
  intros icase r b a m H. destruct a; cbn [search]; rewrite H; reflexivity.
Qed.

Lemma sign_not_digit :
  forall c,
    Ascii.eqb c "+" || Ascii.eqb c "-" = true ->
    JsString.is_digit c = false.
Proof.
  intros c H. revert H. destruct c as [[] [] [] [] [] [] [] []]; intros H;
    first [ discriminate H | reflexivity ].
Qed.

Lemma plus_fail :
  forall icase p c r b cs k,
    p c = false ->
    run icase (Plus (Class p)) (mkState b (String c r) cs) k = None.
Proof.
  intros icase p c r b cs k H.
  change (run icase (Plus (Class p)) (mkState b (String c r) cs) k)
    with (run icase (Class p) (mkState b (String c r) cs)
              (fun s => star_loop (run icase (Class p)) k
                                  (S (String.length (after s))) s)).
  rewrite run_class, H. reflexivity.
Qed.

(** The optional sign. *)
Lemma sign_match :
  forall k : state -> option state,
    (forall b c r cs,
        Ascii.eqb c "+" || Ascii.eqb c "-" = true ->
        k (mkState b (String c r) cs) = None) ->
    forall sign rest b cs,
      In sign [""; "+"; "-"] ->
      stops (fun c => Ascii.eqb c "+" || Ascii.eqb c "-") rest = true ->
      run true (Opt sign_re) (mkState b (sign ++ rest) cs) k
      = k (mkState (rev_onto sign b) rest cs).
Proof.
  intros k K sign rest b cs S R.
  change (run true (Opt sign_re) (mkState b (sign ++ rest) cs) k)
    with (match run true sign_re (mkState b (sign ++ rest) cs) k with
          | Some x => Some x
          | None => k (mkState b (sign ++ rest) cs)
          end).
  unfold sign_re.
  destruct S as [S|[S|[S|[]]]]; subst sign; cbn [append rev_onto].
  - destruct rest as [|c r].
    + rewrite run_class_end. reflexivity.
    + rewrite run_class. cbn [stops] in R. apply negb_true_iff in R.
      rewrite R. reflexivity.
  - rewrite run_class.
    change (Ascii.eqb "+" "+" || Ascii.eqb "+" "-") with true. cbv iota.
    destruct (k (mkState (String "+" b) rest cs)); [ reflexivity | ].
    apply K. reflexivity.
  - rewrite run_class.
    change (Ascii.eqb "-" "+" || Ascii.eqb "-" "-") with true. cbv iota.
    destruct (k (mkState (String "-" b) rest cs)); [ reflexivity | ].
    apply K. reflexivity.
Qed.

(** The captures of the strict match on a text of the grammar. *)
Lemma strict_exec :
  forall sign int frac w u,
    In sign [""; "+"; "-"] ->
    all_chars JsString.is_digit int = true ->
    JsString.truthy int = true ->
    all_chars JsString.is_digit frac = true ->
    blank w = true ->
    In u lower_units ->
    exec true PARSE_RE (sign ++ int ++ point frac ++ w ++ u)
    = Some [ (2%nat, u); (1%nat, sign ++ int ++ point frac) ].
Proof.
  intros sign int frac w u S I T F W U.
  set (text := sign ++ int ++ point frac ++ w ++ u).
  set (st0 := mkState "" text []).
  assert (C : forall b,
             consumed st0 (mkState b (w ++ u) [])
             = sign ++ int ++ point frac).
  { intros b. unfold consumed, st0, text. cbn [after].
    replace (sign ++ int ++ point frac ++ w ++ u)
      with ((sign ++ int ++ point frac) ++ (w ++ u))
      by (rewrite !app_assoc; reflexivity).
    apply take_app. }
  assert (R : exists b,
             run true PARSE_RE st0 Some
             = Some (mkState b "" [ (2%nat, u);
                                    (1%nat, sign ++ int ++ point frac) ])).
  { change (run true PARSE_RE st0 Some)
      with (run true (Opt sign_re) (mkState "" text [])
                (fun s => run true (Plus digit) s (fraction_k st0))).
    unfold text at 1.
    rewrite (sign_match (fun s => run true (Plus digit) s (fraction_k st0))).
    - rewrite (digits_match st0 int frac w u _ [] I T F W U), C. eauto.
    - intros b c r cs H. apply plus_fail. apply sign_not_digit. exact H.
    - exact S.
    - destruct int as [|c int']; [ discriminate T | ].
      cbn [all_chars] in I. apply andb_true_iff in I. destruct I as [Dc _].
      cbn [append stops]. rewrite (digit_not_sign c Dc). reflexivity. }
  destruct R as [b R].
  unfold exec. fold text.
  rewrite (search_here true PARSE_RE "" text
             (st0, mkState b "" [ (2%nat, u);
                                  (1%nat, sign ++ int ++ point frac) ])).
  - reflexivity.
  - unfold match_at. fold st0. rewrite R. reflexivity.
Qed.

Lemma trimEnd_keep :
  forall s t,
    JsString.trimEnd t = t ->
    JsString.truthy t = true ->
    JsString.trimEnd (s ++ t) = s ++ t.
Proof.
  induction s as [|c s IH]; intros t E T; [ exact E | ].
  cbn [append JsString.trimEnd]. rewrite (IH t E T).
  destruct (s ++ t) eqn:A; [ | reflexivity ].
  destruct s; [ | discriminate A ].
  cbn [append] in A. subst t. discriminate T.
Qed.

Lemma unit_kept :
  forall u, In u lower_units ->
    JsString.trimEnd u = u /\ JsString.truthy u = true
    /\ toByteUnit u = Some u.
Proof.
  intros u H. vm_compute in H.
  repeat (destruct H as [H|H];
          [ subst u; split; [ reflexivity | ]; split; reflexivity | ]).
  contradiction.
Qed.

Lemma grammar_trim :
  forall sign int frac w u,
    In sign [""; "+"; "-"] ->
    all_chars JsString.is_digit int = true ->
    JsString.truthy int = true ->
    In u lower_units ->
    JsString.trim (sign ++ int ++ point frac ++ w ++ u)
    = sign ++ int ++ point frac ++ w ++ u.
Proof.
  intros sign int frac w u S I T U.
  destruct (unit_kept u U) as (E & Tu & _).
  unfold JsString.trim.
  assert (A : JsString.trimStart (sign ++ int ++ point frac ++ w ++ u)
              = sign ++ int ++ point frac ++ w ++ u).
  { destruct S as [S|[S|[S|[]]]]; subst sign; try reflexivity.
    destruct int as [|c int']; [ discriminate T | ].
    cbn [all_chars] in I. apply andb_true_iff in I. destruct I as [Dc _].
    cbn [append JsString.trimStart]. rewrite (digit_not_space c Dc).
    reflexivity. }
  rewrite A.
  replace (sign ++ int ++ point frac ++ w ++ u)
    with ((sign ++ int ++ point frac ++ w) ++ u)
    by (rewrite !app_assoc; reflexivity).
  apply trimEnd_keep; assumption.
Qed.

Lemma strict_parseInput :
  forall sign int frac w u,
    In sign [""; "+"; "-"] ->
    all_chars JsString.is_digit int = true ->
    JsString.truthy int = true ->
    all_chars JsString.is_digit frac = true ->
    blank w = true ->
    In u lower_units ->
    parseInput (sign ++ int ++ point frac ++ w ++ u)
    = let value := parseFloat (sign ++ int ++ point frac) in
      if isFinite value then Some (mkParsedInput value u) else None.
Proof.
  intros sign int frac w u S I T F W U.
  unfold parseInput. rewrite (grammar_trim sign int frac w u S I T U).
  rewrite (strict_exec sign int frac w u S I T F W U).
  cbn [capture Nat.eqb].
  destruct (unit_kept u U) as (_ & Tu & B).
  rewrite B, Tu, andb_true_r. reflexivity.
Qed.

(** X12. The texts that the strict match accepts: an optional sign,
    digits, an optional point with digits, white space or none, and one
    of the nine units, in any letter case. For each of them [parseBytes]
    returns, in the shape asked for, the floor of the product of the
    number and the power of 1024 of the unit, with the upper case label
    of the unit; it returns [null] only when the number is too large to
    be finite. *)
Theorem strict_grammar :
  forall (val sign int frac blanks label : string) (power : nat)
         (options : Parse.Options),
    In sign [""; "+"; "-"] ->
    all_chars JsString.is_digit int = true ->
    JsString.truthy int = true ->
    all_chars JsString.is_digit frac = true ->
    blank blanks = true ->
    In (label, power) UNITS ->
    JsString.toLowerCase val
    = sign ++ int ++ point frac ++ blanks ++ JsString.toLowerCase label ->
    let value := parseFloat (sign ++ int ++ point frac) in
    parseBytes (Parse.Str val) options
    = if isFinite value
      then Some (Parse.shaped (Parse.output options)
                              (floor (mul (pow1024 power) value))
                              label value)
      else None.
Proof.
  intros val sign int frac w label power options S I T F W L E value.
  assert (U : In (JsString.toLowerCase label) lower_units
              /\ toBytes value (JsString.toLowerCase label)
                 = floor (mul (pow1024 power) value)
              /\ JsString.toUpperCase (JsString.toLowerCase label) = label).
  { cbn [UNITS In] in L.
    repeat (destruct L as [L|L];
            [ injection L as <- <-;
              split; [ vm_compute; tauto | split; reflexivity ]
            | ]).
    contradiction. }
  destruct U as (U & B & Lb).
  unfold parseBytes. rewrite <- (parseInput_lower val), E.
  rewrite (strict_parseInput sign int frac w _ S I T F W U).
  cbv zeta. fold value.
  destruct (isFinite value); [ | reflexivity ].
  cbn [floatValue unit]. rewrite B, Lb.
  destruct options as [[[ | | ]|]]; reflexivity.
Qed.

(** The theorem at [-12.5 Kb] with a tuple as output. *)
Lemma strict_grammar_witness :
  let value := parseFloat ("-" ++ "12" ++ point "5") in
  parseBytes (Parse.Str "-12.5 Kb") (Parse.mkOptions (Some Parse.array))
  = if isFinite value
    then Some (Parse.shaped (Parse.output (Parse.mkOptions (Some Parse.array)))
                            (floor (mul (pow1024 1) value))
                            "KB" value)
    else None.
Proof.
  apply (strict_grammar "-12.5 Kb" "-" "12" "5" " " "KB" 1
                        (Parse.mkOptions (Some Parse.array)));
    [ simpl; tauto | reflexivity | reflexivity | reflexivity | reflexivity
    | simpl; tauto | reflexivity ].
Defined.

End Grammar.

(** ** The paths of the second [resolveUnit] that do not take a logarithm *)

Module LogFree.

(** X13. Whatever [Math.log] computes, the [resolveUnit] of the second
    utility module returns what the [resolveUnit] of [utils.ts] returns
    when the forced unit is accepted and when the magnitude is below 1:
    the logarithm is taken on no other path, and on these two the result
    is never [undefined]. *)
Theorem log_free_paths :
  forall (Math_log : number -> number) (magnitude : number)
         (preferredUnit : option string),
    explicit preferredUnit <> None \/ lt magnitude (of_Z 1) = true ->
    LogUtils.resolveUnit Math_log magnitude preferredUnit
    = Some (resolveUnit magnitude preferredUnit).
Proof.
  intros Math_log magnitude preferredUnit [H|H].
  - destruct (explicit preferredUnit) as [explicitUnit|] eqn:E;
      [ | contradiction ].
    apply (LogBased.agree_when_forced Math_log magnitude preferredUnit
                                      explicitUnit E).
  - apply LogBased.agree_below_one. exact H.
Qed.

(** The theorem at one half, with no forced unit and a logarithm that
    returns its argument. *)
Lemma log_free_paths_witness :
  LogUtils.resolveUnit (fun x => x) (of_ratio false 1 2) None
  = Some (resolveUnit (of_ratio false 1 2) None).
Proof.
  apply (log_free_paths (fun x => x) (of_ratio false 1 2) None).
  right. reflexivity.
Defined.

End LogFree.
